(** * Google_Drive_Manager: the retrying Drive client and the folder sync

    A shallow embedding of [src/google_drive_manager/drive_api.py]:
    the [retry_on_transient] decorator, the wrapped Drive operations,
    [find_file_by_name], [upsert_file_by_path] and [sync_folder], followed
    by the properties of the reconciliation engine.

    Python values are modelled by [pyval] (dicts are [gmap string pyval]),
    exceptions by [exn], floating-point seconds by rationals [Q], whose
    products are rounded as the machine of the environment does ([fmul]).
    Effects are explicit: a computation takes the state of the outside
    world (the Drive service, the random generator, the clock) and gives
    back an outcome, the new world and the events it produced.

    What the model leaves out:
    - exceptions that are not instances of [Exception] ([KeyboardInterrupt]
      and the like), which neither [except Exception] nor the default
      retry policy catches;
    - the fields of a log record other than its level and message, and
      the readings of [time.time()], which only feed those fields;
    - changes of the local file system during a run;
    - the steps of a request: [service.files().update(...).execute()],
      with the [MediaFileUpload] built for it in the same [try] block, is
      one request, which answers or raises; so a request is counted also
      when building the media fails before anything is sent, and the
      counts of requests of [upload_file] and [update_file] are upper
      bounds. *)

From Stdlib Require Import QArith Qminmax Qpower Lqa.
From Stdlib Require Import Ascii String.
From stdpp Require Import gmap strings list pretty.

#[local] Set Warnings "-register-all".

(** ** Python values *)

Inductive pyval :=
| PNone
| PBool (b : bool)
| PInt (z : Z)
| PStr (s : string)
| PList (l : list pyval)
| PDict (d : gmap string pyval).

(** ** Exceptions

    [exn] models instances of Python's [Exception]; the third component is
    [__cause__], set by [raise ... from ...]. *)

Inductive exn_class :=
| DriveAPIError
| ValueError
| KeyError
| IndexError
| TypeError
| AttributeError
| OtherError (name : string).

Inductive exn :=
| Exn (cls : exn_class) (msg : string) (cause : option exn).

Definition exn_cls (e : exn) : exn_class := let 'Exn c _ _ := e in c.
Definition exn_msg (e : exn) : string := let 'Exn _ m _ := e in m.
Definition exn_cause (e : exn) : option exn := let 'Exn _ _ c := e in c.

(** ** Requests to the Drive service

    One constructor per request the module builds and executes:
    [service.files().list(...)], [.create(...)], [.update(...)],
    [.delete(...)], each followed by [.execute()]. *)

Record media := MediaFileUpload {
  media_path : string;
  media_mimetype : option string;
  media_resumable : bool
}.

Inductive remote_call :=
| FilesList (q : option string) (pageSize : Z) (fields : string)
| FilesCreate (body : gmap string pyval) (media_body : option media) (fields : string)
| FilesUpdate (fileId : pyval) (media_body : media) (fields : string)
| FilesDelete (fileId : pyval).

(** ** Events

    [EvCall] and [EvRaised] mark the entry of a module function and its
    exit by an exception; [EvAttempt] and [EvAttemptFailed] mark one
    execution of a decorated body by the retry wrapper.  The others are
    the effects themselves: a log record (level and message), a request
    sent to the service, a draw of [random.uniform], a [time.sleep]. *)

Inductive event :=
| EvCall (fn : string) (args : list pyval)
| EvRaised (fn : string) (e : exn)
| EvAttempt (fn : string) (attempt : Z)
| EvAttemptFailed (fn : string) (attempt : Z) (e : exn)
| EvLog (level message : string)
| EvRemote (c : remote_call)
| EvRandom (a b r : Q)
| EvSleep (secs : Q).

(** ** The outside world *)

(** A value of [random.random()]: a rational in [0, 1). *)
Record unit_draw := UnitDraw {
  draw : Q;
  draw_range : Qle_bool 0 draw && negb (Qle_bool 1 draw) = true
}.

Record Env := {
  World : Type;
  (** executing a request: the response or the exception, and the new world *)
  remote_exec : remote_call -> World -> (exn + pyval) * World;
  (** [random.random()] *)
  random_random : World -> unit_draw * World;
  (** the passing of [secs] seconds in [time.sleep] *)
  elapse : Q -> World -> World;
  (** the local file system, fixed during a run: [Path.exists],
      [Path.is_dir], and the entries [Path.rglob("*")] yields *)
  path_exists : string -> bool;
  path_is_dir : string -> bool;
  path_rglob : string -> list string;
  (** [repr(exc)], which each exception class defines for itself *)
  exn_repr : exn -> string;
  (** the product of two floats as the machine computes it, rounded;
      the product of two floats that are not negative is not negative,
      and the product with a float that is at most one does not grow *)
  fmul : Q -> Q -> Q;
  fmul_nonneg : ∀ a b, (0 <= a)%Q -> (0 <= b)%Q -> (0 <= fmul a b)%Q;
  fmul_unit_le : ∀ a u, (0 <= a)%Q -> (u <= 1)%Q -> (fmul a u <= a)%Q
}.

(** ** Operations on Python values *)

(** [bool(v)] *)
Definition py_truthy (v : pyval) : bool :=
  match v with
  | PNone => false
  | PBool b => b
  | PInt z => negb (z =? 0)%Z
  | PStr s => negb (String.eqb s EmptyString)
  | PList l => match l with [] => false | _ => true end
  | PDict d => negb (bool_decide (d = ∅))
  end.

(** [v.get(key, default)]: only dicts have [get]; the message of the
    [AttributeError], which names the type of [v], is abridged. *)
Definition py_get (v : pyval) (key : string) (default : pyval) : exn + pyval :=
  match v with
  | PDict d => inr (from_option id default (d !! key))
  | _ => inl (Exn AttributeError "object has no attribute 'get'" None)
  end.

(** [len(v)] *)
Definition py_len (v : pyval) : exn + Z :=
  match v with
  | PStr s => inr (Z.of_nat (String.length s))
  | PList l => inr (Z.of_nat (length l))
  | PDict d => inr (Z.of_nat (size d))
  | _ => inl (Exn TypeError "object has no len()" None)
  end.

(** [v[0]] *)
Definition py_item0 (v : pyval) : exn + pyval :=
  match v with
  | PList (x :: _) => inr x
  | PList [] => inl (Exn IndexError "list index out of range" None)
  | PStr (String c _) => inr (PStr (String c EmptyString))
  | PStr EmptyString => inl (Exn IndexError "string index out of range" None)
  | PDict _ => inl (Exn KeyError "0" None)
  | _ => inl (Exn TypeError "object is not subscriptable" None)
  end.

(** [v[key]] for a string [key] *)
Definition py_item (v : pyval) (key : string) : exn + pyval :=
  match v with
  | PDict d =>
      match d !! key with
      | Some x => inr x
      | None => inl (Exn KeyError key None)
      end
  | PList _ => inl (Exn TypeError "list indices must be integers or slices, not str" None)
  | PStr _ => inl (Exn TypeError "string indices must be integers, not 'str'" None)
  | _ => inl (Exn TypeError "object is not subscriptable" None)
  end.

(** An [Optional[str]] argument as a Python value, and its truth value
    ([None] and the empty string are false). *)
Definition py_opt (o : option string) : pyval :=
  match o with Some s => PStr s | None => PNone end.

Definition opt_truthy (o : option string) : bool :=
  match o with Some s => negb (String.eqb s EmptyString) | None => false end.

(** ** Paths *)

(** [s.split(sep)] for a one-character separator *)
Fixpoint split_on (sep : Ascii.ascii) (s : string) : list string :=
  match s with
  | EmptyString => [EmptyString]
  | String c s' =>
      if Ascii.eqb c sep then EmptyString :: split_on sep s'
      else match split_on sep s' with
           | [] => [String c EmptyString]
           | w :: ws => String c w :: ws
           end
  end.

(** [Path(s).name]: the last component, where empty components and [.]
    are dropped; empty when there is none. *)
Definition path_name (s : string) : string :=
  List.last (filter (λ c, c ≠ EmptyString ∧ c ≠ ".") (split_on "/"%char s)) EmptyString.

(** The order of [Path] objects: their components, compared as lists
    of strings. *)
Fixpoint parts_leb (a b : list string) : bool :=
  match a, b with
  | [], _ => true
  | _ :: _, [] => false
  | x :: a', y :: b' =>
      match String.compare x y with
      | Lt => true
      | Gt => false
      | Eq => parts_leb a' b'
      end
  end.

Definition path_leb (p q : string) : bool :=
  parts_leb (split_on "/"%char p) (split_on "/"%char q).

Fixpoint insert_sorted (p : string) (l : list string) : list string :=
  match l with
  | [] => [p]
  | q :: l' => if path_leb p q then p :: l else q :: insert_sorted p l'
  end.

(** [sorted(paths)] *)
Definition sorted (l : list string) : list string :=
  foldr insert_sorted [] l.

(** [name.replace('\'', '\\\'')]: a backslash before every quote *)
Fixpoint escape_quotes (s : string) : string :=
  match s with
  | EmptyString => EmptyString
  | String c s' =>
      if Ascii.eqb c "'"%char
      then String (Ascii.ascii_of_nat 92) (String "'" (escape_quotes s'))
      else String c (escape_quotes s')
  end.

(** ** The retry policy: the keyword arguments of [retry_on_transient] *)

Record RetryPolicy := {
  max_attempts : Z;
  initial_backoff : Q;
  multiplier : Q;
  max_backoff : Q;
  jitter : bool;
  retry_on_exceptions : exn -> bool
}.

(** [retry_on_transient()]: the defaults, under which every [Exception]
    is retried. *)
Definition default_policy : RetryPolicy := {|
  max_attempts := 6;
  initial_backoff := 1;
  multiplier := 2;
  max_backoff := 60;
  jitter := true;
  retry_on_exceptions := λ _, true
|}.

(** ** Fake services

    Worlds in the manner of [tests/test_drive_api_run.py]: a service
    whose answers depend on the request only, a random generator that
    always draws one half, and a small local tree. *)

Definition half : unit_draw := UnitDraw (1 # 2) eq_refl.

(** The fakes compute their products exactly. *)
Definition exact_product_le (a u : Q) (Ha : (0 <= a)%Q) (Hu : (u <= 1)%Q)
    : (a * u <= a)%Q :=
  ltac:(nra).

Definition class_name (c : exn_class) : string :=
  match c with
  | DriveAPIError => "DriveAPIError"
  | ValueError => "ValueError"
  | KeyError => "KeyError"
  | IndexError => "IndexError"
  | TypeError => "TypeError"
  | AttributeError => "AttributeError"
  | OtherError name => name
  end.

Definition fake_env (exec : remote_call -> exn + pyval)
    (root : string) (listing : list string) : Env := {|
  World := unit;
  remote_exec c w := (exec c, w);
  random_random w := (half, w);
  elapse _ w := w;
  path_exists p := bool_decide (p ∈ root :: listing);
  path_is_dir p := String.eqb p root;
  path_rglob d := if String.eqb d root then listing else [];
  exn_repr e := class_name (exn_cls e) +:+ "('" +:+ exn_msg e +:+ "')";
  fmul := Qmult;
  fmul_nonneg := Qmult_le_0_compat;
  fmul_unit_le := exact_product_le
|}.

(** [FakeService(files_result=[])]: every lookup finds nothing, and the
    fake has no other method. *)
Definition empty_drive (c : remote_call) : exn + pyval :=
  match c with
  | FilesList _ _ _ => inr (PDict {[ "files" := PList [] ]})
  | _ => inl (Exn AttributeError "'FakeFiles' object has no attribute" None)
  end.

Definition env_empty : Env := fake_env empty_drive "docs" ["docs/report.txt"].

(** A drive that holds [report.txt] under the id [abc123]. *)
Definition report_metadata : gmap string pyval :=
  {[ "id" := PStr "abc123"; "name" := PStr "report.txt";
     "modifiedTime" := PStr "2024-05-01T10:00:00.000Z" ]}.

Definition drive_with_report (c : remote_call) : exn + pyval :=
  match c with
  | FilesList _ _ _ => inr (PDict {[ "files" := PList [PDict report_metadata] ]})
  | FilesUpdate _ _ _ => inr (PDict report_metadata)
  | _ => inl (Exn (OtherError "HttpError") "403" None)
  end.

Definition env_report : Env := fake_env drive_with_report "docs" ["docs/report.txt"].

(** A drive whose lookup of [b.txt] always fails, over three local files. *)
Definition drive_failing_on_b (c : remote_call) : exn + pyval :=
  match c with
  | FilesList (Some q) _ _ =>
      if String.eqb q "name = 'b.txt'"
      then inl (Exn (OtherError "HttpError") "500" None)
      else inr (PDict {[ "files" := PList [] ]})
  | _ => inl (Exn (OtherError "HttpError") "403" None)
  end.

Definition env_three : Env :=
  fake_env drive_failing_on_b "docs" ["docs/c.txt"; "docs/a.txt"; "docs/b.txt"].

(** A filter that raises on [b.txt] *)
Definition filter_raising_on_b (p : string) : exn + bool :=
  if String.eqb p "docs/b.txt" then inl (Exn ValueError "unreadable name" None)
  else inr true.

(** [retry_on_transient(max_backoff=0.5)] *)
Definition capped_policy : RetryPolicy := {|
  max_attempts := 6;
  initial_backoff := 1;
  multiplier := 2;
  max_backoff := 1 # 2;
  jitter := true;
  retry_on_exceptions := λ _, true
|}.

Definition http_503 : exn := Exn (OtherError "HttpError") "503" None.

(** A service that is down for the first requests: the world counts the
    failures still to come. *)
Definition flaky_env (exec : remote_call -> exn + pyval)
    (root : string) (listing : list string) : Env := {|
  World := nat;
  remote_exec c w :=
    match w with
    | O => (exec c, O)
    | S n => (inl (Exn (OtherError "HttpError") "503" None), n)
    end;
  random_random w := (half, w);
  elapse _ w := w;
  path_exists p := bool_decide (p ∈ root :: listing);
  path_is_dir p := String.eqb p root;
  path_rglob d := if String.eqb d root then listing else [];
  exn_repr e := class_name (exn_cls e) +:+ "('" +:+ exn_msg e +:+ "')";
  fmul := Qmult;
  fmul_nonneg := Qmult_le_0_compat;
  fmul_unit_le := exact_product_le
|}.

Definition env_flaky : Env := flaky_env drive_with_report "docs" ["docs/report.txt"].

(** A drive whose answers are not dicts *)
Definition drive_answering_none (c : remote_call) : exn + pyval := inr PNone.

Definition env_none : Env := fake_env drive_answering_none "docs" ["docs/report.txt"].

(** A local tree with a subdirectory and a file in it *)
Definition env_tree : Env :=
  {| World := unit;
     remote_exec c w := (empty_drive c, w);
     random_random w := (half, w);
     elapse _ w := w;
     path_exists p := bool_decide (p ∈ ["docs"; "docs/sub"; "docs/sub/x.txt"; "docs/a.txt"]);
     path_is_dir p := bool_decide (p ∈ ["docs"; "docs/sub"]);
     path_rglob d :=
       if String.eqb d "docs" then ["docs/sub"; "docs/sub/x.txt"; "docs/a.txt"] else [];
     exn_repr e := class_name (exn_cls e) +:+ "('" +:+ exn_msg e +:+ "')";
     fmul := Qmult;
     fmul_nonneg := Qmult_le_0_compat;
     fmul_unit_le := exact_product_le |}.

(** [retry_on_transient(retry_on_exceptions=(DriveAPIError,))] *)
Definition narrow_policy : RetryPolicy := {|
  max_attempts := 6;
  initial_backoff := 1;
  multiplier := 2;
  max_backoff := 60;
  jitter := true;
  retry_on_exceptions := λ e, match exn_cls e with DriveAPIError => true | _ => false end
|}.

(** [retry_on_transient(max_backoff=-1, jitter=False)] *)
Definition negative_policy : RetryPolicy := {|
  max_attempts := 6;
  initial_backoff := 1;
  multiplier := 2;
  max_backoff := -1;
  jitter := false;
  retry_on_exceptions := λ _, true
|}.

(** A drive without files that accepts what is created: the answer is
    the metadata sent, under the id [f1]. *)
Definition drive_accepting (c : remote_call) : exn + pyval :=
  match c with
  | FilesList _ _ _ => inr (PDict {[ "files" := PList [] ]})
  | FilesCreate body _ _ => inr (PDict (<[ "id" := PStr "f1" ]> body))
  | FilesUpdate _ _ _ => inl (Exn (OtherError "HttpError") "404" None)
  | FilesDelete _ => inr PNone
  end.

Definition env_accepting : Env := fake_env drive_accepting "docs" ["docs/report.txt"].

(** A drive whose listing gives the names of the files without their ids *)
Definition drive_without_ids (c : remote_call) : exn + pyval :=
  match c with
  | FilesList _ _ _ =>
      inr (PDict {[ "files" := PList [PDict {[ "name" := PStr "report.txt" ]}] ]})
  | _ => inl (Exn (OtherError "HttpError") "403" None)
  end.

Definition env_without_ids : Env :=
  fake_env drive_without_ids "docs" ["docs/report.txt"].

(** ** Computations *)

Record Run (W A : Type) := MkRun {
  outcome : exn + A;
  final : W;
  trace : list event
}.
Arguments MkRun {W A} _ _ _.
Arguments outcome {W A} _.
Arguments final {W A} _.
Arguments trace {W A} _.

Declare Scope drive_scope.
Delimit Scope drive_scope with drive.

Section Drive.
Variable E : Env.

Definition M (A : Type) : Type := World E -> Run (World E) A.

Definition ret {A} (a : A) : M A := λ w, MkRun (inr a) w [].

Definition raise {A} (e : exn) : M A := λ w, MkRun (inl e) w [].

Definition bind {A B} (m : M A) (k : A -> M B) : M B := λ w,
  let r := m w in
  match outcome r with
  | inl e => MkRun (inl e) (final r) (trace r)
  | inr a =>
      let r' := k a (final r) in
      MkRun (outcome r') (final r') (trace r ++ trace r')
  end.

(** [try: m  except <exceptions matched by catches> as exc: handler exc] *)
Definition try_except {A} (catches : exn -> bool) (m : M A) (handler : exn -> M A) : M A := λ w,
  let r := m w in
  match outcome r with
  | inl e =>
      if catches e then
        let r' := handler e (final r) in
        MkRun (outcome r') (final r') (trace r ++ trace r')
      else r
  | inr _ => r
  end.

Definition emit (ev : event) : M unit := λ w, MkRun (inr tt) w [ev].

(** A pure operation that may raise *)
Definition lift {A} (x : exn + A) : M A :=
  match x with inl e => raise e | inr a => ret a end.

Notation "x <- m ;; k" := (bind m (λ x, k))
  (at level 20, m at level 99, k at level 200, only parsing) : drive_scope.
Notation "m ;; k" := (bind m (λ _, k))
  (at level 100, k at level 200, only parsing, right associativity) : drive_scope.
Local Open Scope drive_scope.

(** [except Exception]: every modelled exception *)
Definition any_exception : exn -> bool := λ _, true.

(** A call of the module's function [fn] *)
Definition pycall {A} (fn : string) (args : list pyval) (body : M A) : M A :=
  emit (EvCall fn args);;
  try_except any_exception body (λ exc, emit (EvRaised fn exc);; raise exc).

(** [_log_event(level, message, ...)] and the wrapper's [logger] calls:
    the record's level and message; its other fields are not modelled. *)
Definition log_event (level message : string) : M unit :=
  emit (EvLog level message).

Definition remote (c : remote_call) : M pyval := λ w,
  let '(r, w') := remote_exec E c w in
  MkRun r w' [EvRemote c].

(** [random.uniform(a, b)], which is [a + (b - a) * random.random()]; the
    sum and the difference are exact for [a = 0], the one use. *)
Definition random_uniform (a b : Q) : M Q := λ w,
  let '(u, w') := random_random E w in
  let r := (a + fmul E (b - a) (draw u))%Q in
  MkRun (inr r) w' [EvRandom a b r].

(** [time.sleep(secs)], which rejects a negative length *)
Definition time_sleep (secs : Q) : M unit := λ w,
  if Qle_bool 0 secs
  then MkRun (inr tt) (elapse E secs w) [EvSleep secs]
  else MkRun (inl (Exn ValueError "sleep length must be non-negative" None)) w [].

(** ** [retry_on_transient] *)

Section Retry.
Context {A : Type}.
Variable policy : RetryPolicy.
Variable fn_name : string.
Variable fn : M A.

(** [raise DriveAPIError(f"Function ... failed after {attempt} attempts") from last_exc] *)
Definition raise_exhausted (attempt : Z) (last_exc : option exn) : M A :=
  raise (Exn DriveAPIError
           ("Function " +:+ fn_name +:+ " failed after " +:+ pretty attempt +:+ " attempts")
           last_exc).

(** One execution of the decorated body *)
Definition run_attempt (attempt : Z) : M A :=
  emit (EvAttempt fn_name attempt);;
  try_except any_exception fn
    (λ exc, emit (EvAttemptFailed fn_name attempt exc);; raise exc).

(** [backoff = min(backoff * multiplier, max_backoff)] *)
Definition next_backoff (backoff : Q) : Q :=
  Qmin (fmul E backoff (multiplier policy)) (max_backoff policy).

(** The sleep between two attempts, giving the next backoff *)
Definition backoff_sleep (backoff : Q) : M Q :=
  sleep_time <- (if jitter policy then random_uniform 0 backoff else ret backoff);;
  time_sleep (Qmin sleep_time (max_backoff policy));;
  ret (next_backoff backoff).

(** The [while attempt < max_attempts] loop.  [fuel] bounds the
    number of iterations; [Z.to_nat (max_attempts - attempt)] is
    enough, see [retry_loop_fuel].  The status code the handler reads
    from the exception is not used by the source, and left out. *)
Fixpoint retry_loop (fuel : nat) (attempt : Z) (backoff : Q) (last_exc : option exn) : M A :=
  match fuel with
  | O => raise_exhausted attempt last_exc
  | S fuel' =>
      if (attempt <? max_attempts policy)%Z then
        let attempt := (attempt + 1)%Z in
        try_except (retry_on_exceptions policy)
          (result <- run_attempt attempt;;
           log_event "debug" "retry_success";;
           ret result)
          (λ exc,
             log_event "warning" "retry_error";;
             if (attempt >=? max_attempts policy)%Z
             then raise_exhausted attempt (Some exc)
             else
               backoff' <- backoff_sleep backoff;;
               retry_loop fuel' attempt backoff' (Some exc))
      else raise_exhausted attempt last_exc
  end.

Definition retry_on_transient : M A :=
  retry_loop (Z.to_nat (max_attempts policy)) 0 (initial_backoff policy) None.
End Retry.

(** ** The Drive operations, each decorated with [@retry_on_transient()] *)

Definition folder_mime : string := "application/vnd.google-apps.folder".

Definition list_files_body (q : option string) (page_size : Z) : M pyval :=
  log_event "info" "list_files:start";;
  try_except any_exception
    (resp <- remote (FilesList q page_size "files(id,name,mimeType,parents,modifiedTime)");;
     files <- lift (py_get resp "files" (PList []));;
     count <- lift (py_len files);;
     log_event "info" "list_files:returned";;
     ret files)
    (λ exc, log_event "error" "list_files:error";; raise exc).

Definition list_files (q : option string) (page_size : Z) : M pyval :=
  pycall "list_files" [py_opt q; PInt page_size]
    (retry_on_transient default_policy "list_files" (list_files_body q page_size)).

Definition upload_file_body (local_path : string) (parent_id mime_type : option string)
    (resumable : bool) : M pyval :=
  log_event "info" "upload_file:start";;
  if negb (path_exists E local_path)
  then raise (Exn DriveAPIError ("Local file not found: " +:+ local_path) None)
  else
    try_except any_exception
      (let media := MediaFileUpload local_path mime_type resumable in
       let body : gmap string pyval := {[ "name" := PStr (path_name local_path) ]} in
       let body :=
         if opt_truthy parent_id then <[ "parents" := PList [py_opt parent_id] ]> body
         else body in
       resp <- remote (FilesCreate body (Some media) "id,name,parents,modifiedTime");;
       file_id <- lift (py_get resp "id" PNone);;
       log_event "info" "upload_file:done";;
       ret resp)
      (λ exc, log_event "error" "upload_file:error";; raise exc).

Definition upload_file (local_path : string) (parent_id mime_type : option string)
    (resumable : bool) : M pyval :=
  pycall "upload_file" [PStr local_path; py_opt parent_id; py_opt mime_type; PBool resumable]
    (retry_on_transient default_policy "upload_file"
       (upload_file_body local_path parent_id mime_type resumable)).

Definition update_file_body (file_id : pyval) (local_path : string)
    (mime_type : option string) : M pyval :=
  log_event "info" "update_file:start";;
  if negb (path_exists E local_path)
  then raise (Exn DriveAPIError ("Local file not found: " +:+ local_path) None)
  else
    try_except any_exception
      (let media := MediaFileUpload local_path mime_type true in
       resp <- remote (FilesUpdate file_id media "id,name,modifiedTime");;
       log_event "info" "update_file:done";;
       ret resp)
      (λ exc, log_event "error" "update_file:error";; raise exc).

Definition update_file (file_id : pyval) (local_path : string)
    (mime_type : option string) : M pyval :=
  pycall "update_file" [file_id; PStr local_path; py_opt mime_type]
    (retry_on_transient default_policy "update_file"
       (update_file_body file_id local_path mime_type)).

Definition create_folder_body (name : string) (parent_id : option string) : M pyval :=
  log_event "info" "create_folder:start";;
  try_except any_exception
    (let body : gmap string pyval :=
       {[ "name" := PStr name; "mimeType" := PStr folder_mime ]} in
     let body :=
       if opt_truthy parent_id then <[ "parents" := PList [py_opt parent_id] ]> body
       else body in
     resp <- remote (FilesCreate body None "id,name,parents");;
     folder_id <- lift (py_get resp "id" PNone);;
     log_event "info" "create_folder:done";;
     ret resp)
    (λ exc, log_event "error" "create_folder:error";; raise exc).

Definition create_folder (name : string) (parent_id : option string) : M pyval :=
  pycall "create_folder" [PStr name; py_opt parent_id]
    (retry_on_transient default_policy "create_folder" (create_folder_body name parent_id)).

Definition delete_file_body (file_id : pyval) : M pyval :=
  log_event "info" "delete_file:start";;
  try_except any_exception
    (remote (FilesDelete file_id);;
     log_event "info" "delete_file:done";;
     ret PNone)
    (λ exc, log_event "error" "delete_file:error";; raise exc).

Definition delete_file (file_id : pyval) : M pyval :=
  pycall "delete_file" [file_id]
    (retry_on_transient default_policy "delete_file" (delete_file_body file_id)).

(** ** [find_file_by_name] *)

Definition find_query (name : string) (parent_id : option string) : string :=
  let q_parts :=
    ["name = '" +:+ escape_quotes name +:+ "'"]
    ++ match parent_id with
       | Some pid =>
           if opt_truthy parent_id then ["'" +:+ pid +:+ "' in parents"] else []
       | None => []
       end in
  String.concat " and " q_parts.

Definition find_file_by_name (name : string) (parent_id : option string) : M pyval :=
  pycall "find_file_by_name" [PStr name; py_opt parent_id]
    (list_files (Some (find_query name parent_id)) 100).

(** ** [_ensure_parent_folder] *)

(** The query for a folder called [folder_name], under [parent_id] when
    there is one *)
Definition folder_query (parent_id : option string) (folder_name : string) : string :=
  match parent_id with
  | Some pid =>
      if opt_truthy parent_id
      then "name = '" +:+ escape_quotes folder_name +:+ "' and '" +:+ pid
             +:+ "' in parents and mimeType = 'application/vnd.google-apps.folder'"
      else "name = '" +:+ escape_quotes folder_name
             +:+ "' and mimeType = 'application/vnd.google-apps.folder'"
  | None =>
      "name = '" +:+ escape_quotes folder_name
        +:+ "' and mimeType = 'application/vnd.google-apps.folder'"
  end.

(** The create request is executed directly, outside [create_folder]
    and its retry wrapper. *)
Definition _ensure_parent_folder (parent_id : option string) (folder_name : string) : M pyval :=
  pycall "_ensure_parent_folder" [py_opt parent_id; PStr folder_name]
    (let q := folder_query parent_id folder_name in
     matches <- list_files (Some q) 100;;
     if py_truthy matches then
       first <- lift (py_item0 matches);;
       lift (py_item first "id")
     else
       let body : gmap string pyval :=
         {[ "name" := PStr folder_name; "mimeType" := PStr folder_mime ]} in
       let body :=
         if opt_truthy parent_id then <[ "parents" := PList [py_opt parent_id] ]> body
         else body in
       resp <- remote (FilesCreate body None "id");;
       lift (py_item resp "id")).

(** ** [upsert_file_by_path] *)

Definition upsert_file_by_path (local_path : string) (drive_parent_id : option string)
    (conflict_policy : string) (dry_run : bool) : M pyval :=
  pycall "upsert_file_by_path"
    [PStr local_path; py_opt drive_parent_id; PStr conflict_policy; PBool dry_run]
    (log_event "info" "upsert:start";;
     let name := path_name local_path in
     matches <- find_file_by_name name drive_parent_id;;
     if negb (py_truthy matches) then
       if dry_run then
         log_event "info" "upsert:dry_run_create";;
         ret (PDict {[ "action" := PStr "create"; "name" := PStr name ]})
       else upload_file local_path drive_parent_id None true
     else
       first <- lift (py_item0 matches);;
       file_id <- lift (py_item first "id");;
       if String.eqb conflict_policy "skip" then
         log_event "info" "upsert:skip";;
         ret (PDict {[ "action" := PStr "skip"; "file_id" := file_id ]})
       else if String.eqb conflict_policy "new" then
         if dry_run then
           log_event "info" "upsert:dry_run_create_new";;
           ret (PDict {[ "action" := PStr "create_new"; "name" := PStr name ]})
         else upload_file local_path drive_parent_id None true
       else
         if dry_run then
           log_event "info" "upsert:dry_run_update";;
           ret (PDict {[ "action" := PStr "update"; "file_id" := file_id ]})
         else update_file file_id local_path None).

(** ** [sync_folder] *)

Section Sync.
Variable drive_parent_id : option string.
Variable mode : string.
Variable filters : option (string -> exn + bool).
Variable dry_run : bool.

(** [filters and not filters(p)] *)
Definition excluded (p : string) : M bool :=
  match filters with
  | Some f => keep <- lift (f p);; ret (negb keep)
  | None => ret false
  end.

(** The [try] statement of the loop body, returning the new [results] *)
Definition sync_file (p : string) (results : list pyval) : M (list pyval) :=
  try_except any_exception
    (if String.eqb mode "upsert" then
       res <- upsert_file_by_path p drive_parent_id "overwrite" dry_run;;
       ret (results ++ [PDict {[ "path" := PStr p; "result" := res ]}])
     else
       log_event "warning" "sync_folder:unknown_mode";;
       ret results)
    (λ exc,
       log_event "error" "sync_folder:file_error";;
       ret (results ++ [PDict {[ "path" := PStr p; "error" := PStr (exn_repr E exc) ]}])).

(** [for p in ...] *)
Fixpoint sync_loop (ps : list string) (results : list pyval) : M (list pyval) :=
  match ps with
  | [] => ret results
  | p :: ps' =>
      if path_is_dir E p then sync_loop ps' results
      else
        skip <- excluded p;;
        if (skip : bool) then
          log_event "info" "sync_folder:skipped_by_filter";;
          sync_loop ps' results
        else
          results' <- sync_file p results;;
          sync_loop ps' results'
  end.

Definition sync_folder (local_dir : string) : M (list pyval) :=
  pycall "sync_folder" [PStr local_dir; py_opt drive_parent_id; PStr mode; PBool dry_run]
    (if negb (path_exists E local_dir) || negb (path_is_dir E local_dir)
     then raise (Exn DriveAPIError ("Local dir not found: " +:+ local_dir) None)
     else
       log_event "info" "sync_folder:start";;
       results <- sync_loop (sorted (path_rglob E local_dir)) [];;
       log_event "info" "sync_folder:done";;
       ret results).
End Sync.

(** ** Observing a run *)

Definition is_call (fn : string) (ev : event) : bool :=
  match ev with EvCall f _ => String.eqb f fn | _ => false end.

Definition is_raised (fn : string) (ev : event) : bool :=
  match ev with EvRaised f _ => String.eqb f fn | _ => false end.

Definition is_attempt (fn : string) (ev : event) : bool :=
  match ev with EvAttempt f _ => String.eqb f fn | _ => false end.

Definition is_sleep (ev : event) : bool :=
  match ev with EvSleep _ => true | _ => false end.

Definition is_remote (ev : event) : bool :=
  match ev with EvRemote _ => true | _ => false end.

(** The events the retry wrapper of [fn] produces itself, its log
    records apart. *)
Definition retry_event (fn : string) (ev : event) : bool :=
  match ev with
  | EvAttempt f _ | EvAttemptFailed f _ _ => String.eqb f fn
  | EvRandom _ _ _ | EvSleep _ => true
  | _ => false
  end.

(** The events a read-only run may produce: calls of the lookup
    functions, [list] requests, log records, and the retry wrapper's
    draws and sleeps. *)
Definition read_only (ev : event) : bool :=
  match ev with
  | EvCall f _ | EvRaised f _ =>
      existsb (String.eqb f) ["upsert_file_by_path"; "find_file_by_name"; "list_files"]
  | EvAttempt f _ | EvAttemptFailed f _ _ => String.eqb f "list_files"
  | EvRemote (FilesList _ _ _) => true
  | EvRemote _ => false
  | EvLog _ _ | EvRandom _ _ _ | EvSleep _ => true
  end.

(** The calls and requests that change the remote store *)
Definition mutating (ev : event) : bool :=
  match ev with
  | EvCall f _ | EvAttempt f _ =>
      existsb (String.eqb f) ["upload_file"; "update_file"; "create_folder"; "delete_file"]
  | EvRemote (FilesCreate _ _ _) | EvRemote (FilesUpdate _ _ _) | EvRemote (FilesDelete _) => true
  | _ => false
  end.

Definition count (P : event -> bool) (t : list event) : nat :=
  length (List.filter P t).

(** The lengths of the sleeps of a trace, and its random draws (the
    two bounds and the value drawn), in order. *)
Definition sleeps (t : list event) : list Q :=
  omap (λ ev, match ev with EvSleep s => Some s | _ => None end) t.

Definition draws (t : list event) : list (Q * Q * Q) :=
  omap (λ ev, match ev with EvRandom a b r => Some (a, b, r) | _ => None end) t.

(** [m], called [n] times in a row; the results in order *)
Fixpoint repeat_call {A} (n : nat) (m : M A) : M (list A) :=
  match n with
  | O => ret []
  | S n' => a <- m;; rest <- repeat_call n' m;; ret (a :: rest)
  end.

(** The entries of the list [sync_folder] returns: a success record
    has the keys [path] and [result], an error record [path] and
    [error]. *)
Definition has_key (d : gmap string pyval) (k : string) : bool :=
  match d !! k with Some _ => true | None => false end.

Definition is_success_entry (v : pyval) : bool :=
  match v with
  | PDict d => has_key d "path" && has_key d "result" && negb (has_key d "error")
  | _ => false
  end.

Definition is_error_entry (v : pyval) : bool :=
  match v with
  | PDict d => has_key d "path" && has_key d "error" && negb (has_key d "result")
  | _ => false
  end.

Definition entries (P : pyval -> bool) (results : list pyval) : nat :=
  length (List.filter P results).

(** The filter lets [p] through: there is none, or it returns [True]. *)
Definition passes (filters : option (string -> exn + bool)) (p : string) : Prop :=
  match filters with
  | Some f => f p = inr true
  | None => True
  end.

(** The regular files among the entries of a listing *)
Definition regular_files (ps : list string) : list string :=
  List.filter (λ p, negb (path_is_dir E p)) ps.

(** The draws and sleeps of the retry wrapper *)
Definition is_pause (ev : event) : bool :=
  match ev with
  | EvRandom _ _ _ | EvSleep _ => true
  | _ => false
  end.

(** What follows the events of the body in the last attempt of a run:
    the body returned, raised an exception the policy does not retry,
    or raised at the last attempt allowed. *)
Inductive attempt_end (fn_name : string) (n : Z) : list event -> Prop :=
| end_returned : attempt_end fn_name n [EvLog "debug" "retry_success"]
| end_uncaught e : attempt_end fn_name n [EvAttemptFailed fn_name n e]
| end_exhausted e :
    attempt_end fn_name n [EvAttemptFailed fn_name n e; EvLog "warning" "retry_error"].

(** The events of any run of the retry loop entered with [attempt]:
    attempts, each followed by a sleep but the last; [body] holds of the
    events of each execution of the body. *)
Inductive loop_view (policy : RetryPolicy) (fn_name : string) (body : list event -> Prop) :
    Z -> list event -> Prop :=
| view_exit attempt :
    (max_attempts policy <= attempt)%Z ->
    loop_view policy fn_name body attempt []
| view_last attempt tb l :
    (attempt < max_attempts policy)%Z ->
    body tb ->
    attempt_end fn_name (attempt + 1) l ->
    loop_view policy fn_name body attempt (EvAttempt fn_name (attempt + 1) :: tb ++ l)
| view_sleep_failed attempt tb e tp :
    (attempt + 1 < max_attempts policy)%Z ->
    body tb ->
    forallb is_pause tp = true ->
    sleeps tp = [] ->
    loop_view policy fn_name body attempt
      (EvAttempt fn_name (attempt + 1) :: tb
         ++ [EvAttemptFailed fn_name (attempt + 1) e; EvLog "warning" "retry_error"] ++ tp)
| view_step attempt tb e tp s rest :
    (attempt + 1 < max_attempts policy)%Z ->
    body tb ->
    forallb is_pause tp = true ->
    sleeps tp = [s] ->
    (s <= max_backoff policy)%Q ->
    loop_view policy fn_name body (attempt + 1) rest ->
    loop_view policy fn_name body attempt
      (EvAttempt fn_name (attempt + 1) :: tb
         ++ [EvAttemptFailed fn_name (attempt + 1) e; EvLog "warning" "retry_error"]
         ++ tp ++ rest).

(** The world after the pause that follows an execution of the body
    ending in [w]: the draw, if the policy has jitter, and the sleep *)
Definition after_pause (policy : RetryPolicy) (w : World E) (pause : list event)
    (w' : World E) : Prop :=
  ∃ s, sleeps pause = [s] ∧ forallb is_pause pause = true
       ∧ w' = elapse E s (if jitter policy then (random_random E w).2 else w).

(** The events of [k] failed executions of the body [fn], numbered from
    [n + 1]: the first in the world [w], each later one in the world
    that the pause after the one before left; [wlast] is the world of the
    last execution and [elast] its exception. *)
Inductive failed_executions {A} (policy : RetryPolicy) (fn_name : string) (fn : M A) :
    nat -> Z -> World E -> list event -> World E -> exn -> Prop :=
| executions_last n w e :
    outcome (fn w) = inl e ->
    failed_executions policy fn_name fn 1 n w
      (EvAttempt fn_name (n + 1) :: trace (fn w)
         ++ [EvAttemptFailed fn_name (n + 1) e; EvLog "warning" "retry_error"])
      w e
| executions_step k n w e pause w' rest wlast elast :
    outcome (fn w) = inl e ->
    after_pause policy (final (fn w)) pause w' ->
    failed_executions policy fn_name fn k (n + 1) w' rest wlast elast ->
    failed_executions policy fn_name fn (S k) n w
      (EvAttempt fn_name (n + 1) :: trace (fn w)
         ++ [EvAttemptFailed fn_name (n + 1) e; EvLog "warning" "retry_error"]
         ++ pause ++ rest)
      wlast elast.

(** The requests the operations build *)
Definition list_request (q : option string) (page_size : Z) : remote_call :=
  FilesList q page_size "files(id,name,mimeType,parents,modifiedTime)".

Definition upload_request (local_path : string) (parent_id mime_type : option string)
    (resumable : bool) : remote_call :=
  let body : gmap string pyval := {[ "name" := PStr (path_name local_path) ]} in
  FilesCreate
    (if opt_truthy parent_id then <[ "parents" := PList [py_opt parent_id] ]> body else body)
    (Some (MediaFileUpload local_path mime_type resumable))
    "id,name,parents,modifiedTime".

Definition update_request (file_id : pyval) (local_path : string)
    (mime_type : option string) : remote_call :=
  FilesUpdate file_id (MediaFileUpload local_path mime_type true) "id,name,modifiedTime".

Definition folder_request (name : string) (parent_id : option string) (fields : string)
    : remote_call :=
  let body : gmap string pyval := {[ "name" := PStr name; "mimeType" := PStr folder_mime ]} in
  FilesCreate
    (if opt_truthy parent_id then <[ "parents" := PList [py_opt parent_id] ]> body else body)
    None fields.

(** The calls of the operations that change the remote store *)
Definition is_mutating_call (ev : event) : bool :=
  match ev with
  | EvCall f _ =>
      existsb (String.eqb f) ["upload_file"; "update_file"; "create_folder"; "delete_file"]
  | _ => false
  end.

(** The [path] of a record of [sync_folder] *)
Definition entry_path (v : pyval) : option pyval :=
  match v with
  | PDict d => d !! "path"
  | _ => None
  end.

(** A filter that does not raise lets [p] through *)
Definition kept (filters : option (string -> exn + bool)) (p : string) : bool :=
  match filters with
  | Some f => match f p with inr b => b | inl _ => false end
  | None => true
  end.

(** The filter, if any, returns on [p] *)
Definition answers (filters : option (string -> exn + bool)) (p : string) : Prop :=
  match filters with
  | Some f => ∃ b, f p = inr b
  | None => True
  end.

Definition is_log (level message : string) (ev : event) : bool :=
  match ev with
  | EvLog l m => String.eqb l level && String.eqb m message
  | _ => false
  end.

(** The events by which something is deleted or a folder is created: a
    create request without media creates a folder. *)
Definition restructures (ev : event) : bool :=
  match ev with
  | EvCall f _ | EvAttempt f _ =>
      existsb (String.eqb f) ["create_folder"; "delete_file"; "_ensure_parent_folder"]
  | EvRemote (FilesDelete _) | EvRemote (FilesCreate _ None _) => true
  | _ => false
  end.

(** [m] sends at most [n] requests, in every world. *)
Definition sends_at_most {A} (n : nat) (m : M A) : Prop :=
  ∀ w, (count is_remote (trace (m w)) <= n)%nat.

(** Every event of [m], in every world, satisfies [P]. *)
Definition emits {A} (P : event -> bool) (m : M A) : Prop :=
  ∀ w, forallb P (trace (m w)) = true.

(** The value of [backoff] after [n] failed attempts *)
Definition backoff_after (policy : RetryPolicy) (n : nat) : Q :=
  Nat.iter n (next_backoff policy) (initial_backoff policy).

(** The sleep after a failed attempt, as events: with jitter a draw
    from [0, backoff] and a sleep of that length, capped; without, a
    sleep of [backoff], capped. *)
Definition pause_events (policy : RetryPolicy) (backoff : Q) (pause : list event) : Prop :=
  if jitter policy then
    ∃ u : unit_draw,
      pause = [EvRandom 0 backoff (0 + fmul E (backoff - 0) (draw u));
               EvSleep (Qmin (0 + fmul E (backoff - 0) (draw u)) (max_backoff policy))]
  else pause = [EvSleep (Qmin backoff (max_backoff policy))].

(** The retry events of a run of the loop, entered with [attempt] and
    [backoff], in which every attempt fails; [elast] is the exception of
    the last attempt. *)
Inductive failing_view (policy : RetryPolicy) (fn_name : string) :
    Z -> Q -> list event -> exn -> Prop :=
| failing_last attempt backoff e :
    (attempt + 1 >= max_attempts policy)%Z ->
    failing_view policy fn_name attempt backoff
      [EvAttempt fn_name (attempt + 1); EvAttemptFailed fn_name (attempt + 1) e] e
| failing_step attempt backoff e pause rest elast :
    (attempt + 1 < max_attempts policy)%Z ->
    pause_events policy backoff pause ->
    failing_view policy fn_name (attempt + 1) (next_backoff policy backoff) rest elast ->
    failing_view policy fn_name attempt backoff
      (EvAttempt fn_name (attempt + 1) :: EvAttemptFailed fn_name (attempt + 1) e
         :: pause ++ rest) elast.

(** ** Events of composed computations *)

Lemma emits_ret {A} P (a : A) : emits P (ret a).
Proof. intros w. reflexivity. Qed.

Lemma emits_raise {A} P e : emits P (@raise A e).
Proof. intros w. reflexivity. Qed.

Lemma emits_lift {A} P (x : exn + A) : emits P (lift x).
Proof. destruct x; [apply emits_raise | apply emits_ret]. Qed.

Lemma emits_emit P ev : P ev = true -> emits P (emit ev).
Proof. intros H w. simpl. by rewrite H. Qed.

Lemma emits_log P level message :
  P (EvLog level message) = true -> emits P (log_event level message).
Proof. apply emits_emit. Qed.

Lemma emits_bind {A B} P (m : M A) (k : A -> M B) :
  emits P m -> (∀ a, emits P (k a)) -> emits P (bind m k).
Proof.
  intros Hm Hk w. unfold bind. specialize (Hm w).
  destruct (outcome (m w)) as [e|a]; simpl; [done|].
  rewrite forallb_app, Hm. apply Hk.
Qed.

Lemma emits_try_except {A} P catches (m : M A) handler :
  emits P m -> (∀ e, emits P (handler e)) -> emits P (try_except catches m handler).
Proof.
  intros Hm Hh w. unfold try_except. specialize (Hm w).
  destruct (outcome (m w)) as [e|a]; [|done].
  destruct (catches e); [|done]. simpl.
  rewrite forallb_app, Hm. apply Hh.
Qed.

Lemma emits_pycall {A} P fn args (body : M A) :
  P (EvCall fn args) = true -> (∀ e, P (EvRaised fn e) = true) ->
  emits P body -> emits P (pycall fn args body).
Proof.
  intros Hc Hr Hb. unfold pycall.
  apply emits_bind; [by apply emits_emit|]. intros _.
  apply emits_try_except; [done|]. intros e.
  apply emits_bind; [by apply emits_emit|]. intros _. apply emits_raise.
Qed.

Lemma emits_remote P c : P (EvRemote c) = true -> emits P (remote c).
Proof. intros H w. unfold remote. destruct (remote_exec E c w). simpl. by rewrite H. Qed.

Lemma emits_random_uniform P a b :
  (∀ r, P (EvRandom a b r) = true) -> emits P (random_uniform a b).
Proof. intros H w. unfold random_uniform. destruct (random_random E w). simpl. by rewrite H. Qed.

Lemma emits_time_sleep P secs : P (EvSleep secs) = true -> emits P (time_sleep secs).
Proof. intros H w. unfold time_sleep. destruct (Qle_bool 0 secs); simpl; [by rewrite H|done]. Qed.

(** The wrapper adds its own events to those of the body. *)
Lemma emits_retry_loop {A} P policy fn_name (fn : M A) :
  (∀ n, P (EvAttempt fn_name n) = true) ->
  (∀ n e, P (EvAttemptFailed fn_name n e) = true) ->
  (∀ level message, P (EvLog level message) = true) ->
  (∀ a b r, P (EvRandom a b r) = true) ->
  (∀ secs, P (EvSleep secs) = true) ->
  emits P fn ->
  ∀ fuel attempt backoff last_exc,
    emits P (retry_loop policy fn_name fn fuel attempt backoff last_exc).
Proof.
  intros Ha Hf Hl Hr Hs Hfn fuel.
  induction fuel as [|fuel IH]; intros attempt backoff last_exc; simpl.
  - apply emits_raise.
  - destruct (attempt <? max_attempts policy)%Z; [|apply emits_raise].
    apply emits_try_except.
    + apply emits_bind.
      * unfold run_attempt. apply emits_bind; [by apply emits_emit|]. intros _.
        apply emits_try_except; [done|]. intros e.
        apply emits_bind; [by apply emits_emit|]. intros _. apply emits_raise.
      * intros a. apply emits_bind; [by apply emits_log|]. intros _. apply emits_ret.
    + intros e. apply emits_bind; [by apply emits_log|]. intros _.
      destruct (attempt + 1 >=? max_attempts policy)%Z; [apply emits_raise|].
      apply emits_bind; [|intros b; apply IH].
      unfold backoff_sleep. apply emits_bind.
      * destruct (jitter policy); [by apply emits_random_uniform | apply emits_ret].
      * intros t. apply emits_bind; [by apply emits_time_sleep|]. intros _. apply emits_ret.
Qed.

Lemma emits_retry {A} P policy fn_name (fn : M A) :
  (∀ n, P (EvAttempt fn_name n) = true) ->
  (∀ n e, P (EvAttemptFailed fn_name n e) = true) ->
  (∀ level message, P (EvLog level message) = true) ->
  (∀ a b r, P (EvRandom a b r) = true) ->
  (∀ secs, P (EvSleep secs) = true) ->
  emits P fn ->
  emits P (retry_on_transient policy fn_name fn).
Proof. intros. by apply emits_retry_loop. Qed.

(** ** Running a sequence *)

Lemma bind_returned {A B} (m : M A) (k : A -> M B) w a :
  outcome (m w) = inr a ->
  bind m k w
  = MkRun (outcome (k a (final (m w)))) (final (k a (final (m w))))
      (trace (m w) ++ trace (k a (final (m w)))).
Proof. intros H. unfold bind. by rewrite H. Qed.

Lemma bind_raised {A B} (m : M A) (k : A -> M B) w e :
  outcome (m w) = inl e ->
  bind m k w = MkRun (inl e) (final (m w)) (trace (m w)).
Proof. intros H. unfold bind. by rewrite H. Qed.

(** ** Congruence *)

Lemma bind_ext {A B} (m : M A) (k k' : A -> M B) w :
  (∀ a w', k a w' = k' a w') -> bind m k w = bind m k' w.
Proof. intros H. unfold bind. destruct (outcome (m w)); [done|]. by rewrite H. Qed.

Lemma try_except_ext {A} catches (m : M A) (h h' : exn -> M A) w :
  (∀ e w', h e w' = h' e w') -> try_except catches m h w = try_except catches m h' w.
Proof.
  intros H. unfold try_except. destruct (outcome (m w)); [|done].
  destruct (catches e); [|done]. by rewrite H.
Qed.

(** ** Lists of events *)

Lemma filter_quiet (P : event -> bool) t :
  forallb (λ ev, negb (P ev)) t = true -> List.filter P t = [].
Proof.
  induction t as [|ev t IH]; simpl; [done|].
  intros [Hev Ht]%andb_prop. apply negb_true_iff in Hev. rewrite Hev. auto.
Qed.

Lemma filter_filter_sub (P Q : event -> bool) t :
  (∀ ev, P ev = true -> Q ev = true) ->
  List.filter P (List.filter Q t) = List.filter P t.
Proof.
  intros HPQ. induction t as [|ev t IH]; simpl; [done|].
  destruct (Q ev) eqn:HQ; simpl; [by rewrite IH|].
  destruct (P ev) eqn:HP; [|done]. apply HPQ in HP. congruence.
Qed.

Lemma count_app P t1 t2 : count P (t1 ++ t2) = (count P t1 + count P t2)%nat.
Proof. unfold count. by rewrite List.filter_app, length_app. Qed.

Lemma count_quiet P t : forallb (λ ev, negb (P ev)) t = true -> count P t = 0%nat.
Proof. intros H. unfold count. by rewrite filter_quiet. Qed.

Lemma count_is_sleep t : count is_sleep t = length (sleeps t).
Proof.
  unfold count, sleeps. induction t as [|[] t IH]; simpl; auto.
Qed.

Lemma sleeps_app t1 t2 : sleeps (t1 ++ t2) = sleeps t1 ++ sleeps t2.
Proof. apply omap_app. Qed.

Lemma draws_app t1 t2 : draws (t1 ++ t2) = draws t1 ++ draws t2.
Proof. apply omap_app. Qed.

Lemma sleeps_quiet fn t :
  forallb (λ ev, negb (retry_event fn ev)) t = true -> sleeps t = [].
Proof.
  induction t as [|ev t IH]; simpl; [done|].
  intros [Hev Ht]%andb_prop. destruct ev; try discriminate; by apply IH.
Qed.

Lemma draws_quiet fn t :
  forallb (λ ev, negb (retry_event fn ev)) t = true -> draws t = [].
Proof.
  induction t as [|ev t IH]; simpl; [done|].
  intros [Hev Ht]%andb_prop. destruct ev; try discriminate; by apply IH.
Qed.

(** ** The retry loop *)

Section RetryFacts.
Local Open Scope Q_scope.
Context {A : Type}.
Variable policy : RetryPolicy.
Variable fn_name : string.
Variable fn : M A.

Lemma run_attempt_failed n w e :
  outcome (fn w) = inl e ->
  run_attempt fn_name fn n w
  = MkRun (inl e) (final (fn w))
      (EvAttempt fn_name n :: trace (fn w) ++ [EvAttemptFailed fn_name n e]).
Proof.
  intros H. unfold run_attempt, bind, try_except, emit, raise, any_exception.
  simpl. rewrite H. reflexivity.
Qed.

Lemma run_attempt_returned n w a :
  outcome (fn w) = inr a ->
  run_attempt fn_name fn n w
  = MkRun (inr a) (final (fn w)) (EvAttempt fn_name n :: trace (fn w)).
Proof.
  intros H. unfold run_attempt, bind, try_except, emit.
  simpl. rewrite H. simpl. rewrite H. reflexivity.
Qed.

(** The [try] block of the loop *)
Local Abbreviation attempt_block attempt :=
  (bind (run_attempt fn_name fn attempt)
     (λ result, bind (log_event "debug" "retry_success") (λ _, ret result))).

Lemma attempt_block_returned n w a :
  outcome (fn w) = inr a ->
  attempt_block n w
  = MkRun (inr a) (final (fn w))
      (EvAttempt fn_name n :: trace (fn w) ++ [EvLog "debug" "retry_success"]).
Proof.
  intros H. unfold bind at 1.
  rewrite (run_attempt_returned _ _ _ H). reflexivity.
Qed.

Lemma attempt_block_failed n w e :
  outcome (fn w) = inl e ->
  attempt_block n w
  = MkRun (inl e) (final (fn w))
      (EvAttempt fn_name n :: trace (fn w) ++ [EvAttemptFailed fn_name n e]).
Proof.
  intros H. unfold bind at 1.
  rewrite (run_attempt_failed _ _ _ H). reflexivity.
Qed.

(** One iteration of the loop: the attempt returns, or fails with an
    exception the policy retries. *)
Lemma retry_loop_returned fuel attempt backoff last_exc w a :
  (attempt < max_attempts policy)%Z ->
  outcome (fn w) = inr a ->
  retry_loop policy fn_name fn (S fuel) attempt backoff last_exc w
  = MkRun (inr a) (final (fn w))
      (EvAttempt fn_name (attempt + 1) :: trace (fn w) ++ [EvLog "debug" "retry_success"]).
Proof.
  intros Hlt Ha. cbn [retry_loop].
  destruct (Z.ltb_spec attempt (max_attempts policy)) as [_|?]; [|lia].
  unfold try_except. rewrite (attempt_block_returned _ _ _ Ha). reflexivity.
Qed.

Lemma retry_loop_failed fuel attempt backoff last_exc w e :
  (attempt < max_attempts policy)%Z ->
  outcome (fn w) = inl e ->
  retry_on_exceptions policy e = true ->
  retry_loop policy fn_name fn (S fuel) attempt backoff last_exc w
  = let t1 := EvAttempt fn_name (attempt + 1)
                :: trace (fn w)
                ++ [EvAttemptFailed fn_name (attempt + 1) e; EvLog "warning" "retry_error"] in
    if (attempt + 1 >=? max_attempts policy)%Z
    then MkRun (inl (Exn DriveAPIError
                       ("Function " +:+ fn_name +:+ " failed after "
                          +:+ pretty (attempt + 1)%Z +:+ " attempts") (Some e)))
           (final (fn w)) t1
    else
      let r := bind (backoff_sleep policy backoff)
                 (λ backoff', retry_loop policy fn_name fn fuel (attempt + 1) backoff' (Some e))
                 (final (fn w)) in
      MkRun (outcome r) (final r) (t1 ++ trace r).
Proof.
  intros Hlt He Hre. cbn [retry_loop].
  destruct (Z.ltb_spec attempt (max_attempts policy)) as [_|?]; [|lia].
  unfold try_except. rewrite (attempt_block_failed _ _ _ He).
  cbn [outcome final trace]. rewrite Hre.
  unfold bind at 1 2 3, log_event, emit. cbn [outcome final trace].
  destruct (attempt + 1 >=? max_attempts policy)%Z.
  - unfold raise_exhausted, raise. cbn [outcome final trace].
    f_equal. simpl. by rewrite <- app_assoc.
  - cbn zeta. f_equal. simpl. by rewrite <- !app_assoc.
Qed.

Lemma retry_loop_uncaught fuel attempt backoff last_exc w e :
  (attempt < max_attempts policy)%Z ->
  outcome (fn w) = inl e ->
  retry_on_exceptions policy e = false ->
  retry_loop policy fn_name fn (S fuel) attempt backoff last_exc w
  = MkRun (inl e) (final (fn w))
      (EvAttempt fn_name (attempt + 1) :: trace (fn w)
         ++ [EvAttemptFailed fn_name (attempt + 1) e]).
Proof.
  intros Hlt He Hre. cbn [retry_loop].
  destruct (Z.ltb_spec attempt (max_attempts policy)) as [_|?]; [|lia].
  unfold try_except. rewrite (attempt_block_failed _ _ _ He).
  cbn [outcome final trace]. by rewrite Hre.
Qed.

(** Fuel beyond the number of attempts left changes nothing. *)
Lemma retry_loop_fuel fuel : ∀ fuel' attempt backoff last_exc w,
  (Z.to_nat (max_attempts policy - attempt) <= fuel)%nat ->
  (Z.to_nat (max_attempts policy - attempt) <= fuel')%nat ->
  retry_loop policy fn_name fn fuel attempt backoff last_exc w
  = retry_loop policy fn_name fn fuel' attempt backoff last_exc w.
Proof.
  induction fuel as [|fuel IH]; intros fuel' attempt backoff last_exc w Hf Hf'.
  - destruct fuel' as [|fuel']; simpl; [done|].
    destruct (Z.ltb_spec attempt (max_attempts policy)); [lia|done].
  - destruct fuel' as [|fuel']; cbn [retry_loop].
    + destruct (Z.ltb_spec attempt (max_attempts policy)); [lia|done].
    + destruct (Z.ltb_spec attempt (max_attempts policy)); [|done].
      apply try_except_ext. intros e w1.
      apply bind_ext. intros _ w2.
      destruct (attempt + 1 >=? max_attempts policy)%Z; [done|].
      apply bind_ext. intros b' w3. apply IH; lia.
Qed.

(** The sleep between attempts succeeds when its length is not negative. *)
Lemma backoff_sleep_run backoff w :
  0 <= backoff -> 0 <= max_backoff policy ->
  ∃ pause w',
    backoff_sleep policy backoff w = MkRun (inr (next_backoff policy backoff)) w' pause
    ∧ pause_events policy backoff pause.
Proof.
  intros Hb HM. unfold backoff_sleep, pause_events.
  destruct (jitter policy).
  - unfold bind, random_uniform, time_sleep.
    destruct (random_random E w) as [u w1] eqn:Hu. simpl.
    assert (Hs : Qle_bool 0 (Qmin (0 + fmul E (backoff - 0) (draw u)) (max_backoff policy))
                 = true).
    { apply Qle_bool_iff, Q.min_glb; [|done].
      destruct (andb_prop _ _ (draw_range u)) as [Hu0%Qle_bool_iff _].
      assert (0 <= fmul E (backoff - 0) (draw u)) by (apply fmul_nonneg; [lra|done]).
      lra. }
    rewrite Hs. simpl. eauto.
  - unfold bind, ret, time_sleep. simpl.
    assert (Hs : Qle_bool 0 (Qmin backoff (max_backoff policy)) = true).
    { by apply Qle_bool_iff, Q.min_glb. }
    rewrite Hs. simpl. eauto.
Qed.

(** The world the pause leaves *)
Lemma backoff_sleep_world backoff w b' w' pause :
  backoff_sleep policy backoff w = MkRun (inr b') w' pause ->
  after_pause policy w pause w'.
Proof.
  unfold backoff_sleep, after_pause, random_uniform, time_sleep, bind, ret.
  destruct (jitter policy).
  - destruct (random_random E w) as [u w1]. cbn [outcome final trace snd].
    destruct (Qle_bool 0 (Qmin (0 + fmul E (backoff - 0) (draw u)) (max_backoff policy)));
      cbn [outcome final trace app]; [|done].
    intros [= _ <- <-]. by eexists.
  - cbn [outcome final trace].
    destruct (Qle_bool 0 (Qmin backoff (max_backoff policy)));
      cbn [outcome final trace app]; [|done].
    intros [= _ <- <-]. by eexists.
Qed.

Lemma pause_events_retry backoff pause :
  pause_events policy backoff pause ->
  List.filter (retry_event fn_name) pause = pause.
Proof.
  unfold pause_events. destruct (jitter policy).
  - by intros [u ->].
  - by intros ->.
Qed.

Lemma next_backoff_nonneg backoff :
  0 <= multiplier policy -> 0 <= max_backoff policy -> 0 <= backoff ->
  0 <= next_backoff policy backoff.
Proof.
  intros Hm HM Hb. unfold next_backoff. apply Q.min_glb; [|done].
  by apply fmul_nonneg.
Qed.

Section AlwaysFails.
Hypothesis fn_fails :
  ∀ w, ∃ e, outcome (fn w) = inl e ∧ retry_on_exceptions policy e = true.
Hypothesis fn_quiet : emits (λ ev, negb (retry_event fn_name ev)) fn.
Hypothesis multiplier_nonneg : 0 <= multiplier policy.
Hypothesis max_backoff_nonneg : 0 <= max_backoff policy.

(** When every attempt fails, the loop runs the body until
    [max_attempts] is reached, sleeping in between, and raises
    [DriveAPIError] from the last exception. *)
Lemma failing_run fuel : ∀ attempt backoff last_exc w,
  0 <= backoff ->
  (attempt < max_attempts policy)%Z ->
  (Z.to_nat (max_attempts policy - attempt) <= fuel)%nat ->
  let r := retry_loop policy fn_name fn fuel attempt backoff last_exc w in
  ∃ elast,
    failing_view policy fn_name attempt backoff
      (List.filter (retry_event fn_name) (trace r)) elast
    ∧ outcome r
      = inl (Exn DriveAPIError
               ("Function " +:+ fn_name +:+ " failed after "
                  +:+ pretty (max_attempts policy) +:+ " attempts")
               (Some elast))
    ∧ ∃ w', outcome (fn w') = inl elast.
Proof.
  induction fuel as [|fuel IH]; intros attempt backoff last_exc w Hb Hlt Hfuel; [lia|].
  destruct (fn_fails w) as (e & He & Hre).
  rewrite (retry_loop_failed _ _ _ _ _ _ Hlt He Hre). cbn zeta.
  assert (Hq : List.filter (retry_event fn_name) (trace (fn w)) = [])
    by apply filter_quiet, fn_quiet.
  destruct (Z.geb_spec (attempt + 1) (max_attempts policy)) as [Hge|Hnge].
  - assert (attempt + 1 = max_attempts policy)%Z as Heq by lia.
    cbn [outcome final trace]. exists e. split; [|split].
    + simpl. rewrite String.eqb_refl, List.filter_app, Hq. simpl.
      rewrite String.eqb_refl. constructor. lia.
    + by rewrite Heq.
    + by exists w.
  - destruct (backoff_sleep_run backoff (final (fn w)) Hb max_backoff_nonneg)
      as (pause & w' & Hrun & Hpause).
    rewrite (bind_returned _ _ _ (next_backoff policy backoff)) by (by rewrite Hrun).
    rewrite Hrun. cbn [outcome final trace].
    destruct (IH (attempt + 1)%Z (next_backoff policy backoff) (Some e) w')
      as (elast & Hview & Hout & Hlast).
    { by apply next_backoff_nonneg. }
    { lia. }
    { lia. }
    exists elast. split; [|done].
    simpl. rewrite String.eqb_refl, !List.filter_app, Hq. simpl.
    rewrite String.eqb_refl. simpl.
    rewrite (pause_events_retry _ _ Hpause).
    by constructor.
Qed.

(** The same run, as executions of the body: each attempt runs the body
    in the world the one before and its pause left. *)
Lemma exhausted_run fuel : ∀ attempt backoff last_exc w,
  0 <= backoff ->
  (attempt < max_attempts policy)%Z ->
  (Z.to_nat (max_attempts policy - attempt) <= fuel)%nat ->
  let r := retry_loop policy fn_name fn fuel attempt backoff last_exc w in
  ∃ wlast elast,
    failed_executions policy fn_name fn (Z.to_nat (max_attempts policy - attempt))
      attempt w (trace r) wlast elast
    ∧ outcome (fn wlast) = inl elast
    ∧ final r = final (fn wlast)
    ∧ outcome r
      = inl (Exn DriveAPIError
               ("Function " +:+ fn_name +:+ " failed after "
                  +:+ pretty (max_attempts policy) +:+ " attempts")
               (Some elast)).
Proof.
  induction fuel as [|fuel IH]; intros attempt backoff last_exc w Hb Hlt Hfuel; [lia|].
  destruct (fn_fails w) as (e & He & Hre).
  rewrite (retry_loop_failed _ _ _ _ _ _ Hlt He Hre). cbn zeta.
  destruct (Z.geb_spec (attempt + 1) (max_attempts policy)) as [Hge|Hnge].
  - assert (attempt + 1 = max_attempts policy)%Z as Heq by lia.
    cbn [outcome final trace]. exists w, e.
    replace (Z.to_nat (max_attempts policy - attempt)) with 1%nat by lia.
    split; [by constructor|]. split; [done|]. split; [done|]. by rewrite Heq.
  - destruct (backoff_sleep_run backoff (final (fn w)) Hb max_backoff_nonneg)
      as (pause & w' & Hrun & _).
    pose proof (backoff_sleep_world _ _ _ _ _ Hrun) as Hworld.
    rewrite (bind_returned _ _ _ (next_backoff policy backoff)) by (by rewrite Hrun).
    rewrite Hrun. cbn [outcome final trace].
    destruct (IH (attempt + 1)%Z (next_backoff policy backoff) (Some e) w')
      as (wlast & elast & Hview & Hlast & Hfinal & Hout).
    { by apply next_backoff_nonneg. }
    { lia. }
    { lia. }
    exists wlast, elast.
    replace (Z.to_nat (max_attempts policy - attempt))
      with (S (Z.to_nat (max_attempts policy - (attempt + 1)))) by lia.
    split; [|done].
    cbn [app]. rewrite <- app_assoc. by apply (executions_step _ _ _ _ _ _ e pause w').
Qed.
End AlwaysFails.

(** *** What a run of failed attempts looks like *)

Lemma pause_events_attempts backoff pause :
  pause_events policy backoff pause ->
  List.filter (is_attempt fn_name) pause = [].
Proof.
  unfold pause_events. destruct (jitter policy).
  - by intros [u ->].
  - by intros ->.
Qed.

Lemma pause_events_sleeps backoff pause :
  pause_events policy backoff pause -> length (sleeps pause) = 1%nat.
Proof.
  unfold pause_events. destruct (jitter policy).
  - by intros [u ->].
  - by intros ->.
Qed.

Lemma failing_view_attempts attempt backoff t e :
  failing_view policy fn_name attempt backoff t e ->
  (attempt < max_attempts policy)%Z ->
  count (is_attempt fn_name) t = Z.to_nat (max_attempts policy - attempt).
Proof.
  unfold count.
  induction 1 as [a b e Hge | a b e pause rest elast Hlt Hp Hv IH]; intros Ha.
  - simpl. rewrite String.eqb_refl. simpl. lia.
  - simpl. rewrite String.eqb_refl. simpl.
    rewrite List.filter_app, (pause_events_attempts _ _ Hp). simpl.
    rewrite IH by lia. lia.
Qed.

Lemma failing_view_sleeps attempt backoff t e :
  failing_view policy fn_name attempt backoff t e ->
  (attempt < max_attempts policy)%Z ->
  length (sleeps t) = Z.to_nat (max_attempts policy - attempt - 1).
Proof.
  induction 1 as [a b e Hge | a b e pause rest elast Hlt Hp Hv IH]; intros Ha.
  - simpl. lia.
  - pose proof (pause_events_sleeps _ _ Hp) as Hps.
    unfold sleeps in *. simpl. rewrite omap_app, length_app.
    rewrite Hps, IH by lia. lia.
Qed.

Lemma failing_view_last attempt backoff t e :
  failing_view policy fn_name attempt backoff t e ->
  (attempt < max_attempts policy)%Z ->
  ∃ pre, t = pre ++ [EvAttemptFailed fn_name (max_attempts policy) e].
Proof.
  induction 1 as [a b e Hge | a b e pause rest elast Hlt Hp Hv IH]; intros Ha.
  - assert (a + 1 = max_attempts policy)%Z as -> by lia.
    by exists [EvAttempt fn_name (max_attempts policy)].
  - destruct IH as [pre ->]; [lia|].
    exists (EvAttempt fn_name (a + 1) :: EvAttemptFailed fn_name (a + 1) e :: pause ++ pre).
    simpl. by rewrite <- app_assoc.
Qed.

(** *** The sleeps of any run *)

Lemma pause_events_first backoff pause :
  pause_events policy backoff pause ->
  ∃ s, sleeps pause = [s] ∧ s <= max_backoff policy
       ∧ if jitter policy
         then ∃ r, draws pause = [(0, backoff, r)]
                   ∧ s = Qmin r (max_backoff policy)
                   ∧ (0 <= backoff -> 0 <= r ∧ r <= backoff)
         else draws pause = [] ∧ s = Qmin backoff (max_backoff policy).
Proof.
  unfold pause_events. destruct (jitter policy).
  - intros [u ->]. simpl.
    eexists. split; [done|]. split; [apply Q.le_min_r|].
    eexists. split; [done|]. split; [done|]. intros Hb.
    destruct (andb_prop _ _ (draw_range u)) as [Hu0%Qle_bool_iff Hu1%negb_true_iff].
    assert (draw u <= 1).
    { apply Qnot_lt_le. intros Hlt1. apply Qlt_le_weak, Qle_bool_iff in Hlt1. congruence. }
    assert (0 <= fmul E (backoff - 0) (draw u)) by (apply fmul_nonneg; [lra|done]).
    assert (fmul E (backoff - 0) (draw u) <= backoff - 0) by (apply fmul_unit_le; [lra|done]).
    split; lra.
  - intros ->. simpl. eexists. split; [done|]. split; [apply Q.le_min_r|done].
Qed.

(** The pause either happens, with the events of [pause_events], or is
    refused by [time.sleep], without a sleep. *)
Lemma backoff_sleep_events backoff w :
  ∃ o w' pause,
    backoff_sleep policy backoff w = MkRun o w' pause
    ∧ match o with
      | inr b => b = next_backoff policy backoff ∧ pause_events policy backoff pause
      | inl _ => sleeps pause = []
      end.
Proof.
  unfold backoff_sleep, pause_events, random_uniform, time_sleep, bind, ret.
  destruct (jitter policy).
  - destruct (random_random E w) as [u w1]. cbn [outcome final trace].
    destruct (Qle_bool 0 (Qmin (0 + fmul E (backoff - 0) (draw u)) (max_backoff policy)));
      cbn [outcome final trace app]; do 3 eexists; (split; [reflexivity|]).
    + split; [reflexivity|]. by exists u.
    + reflexivity.
  - cbn [outcome final trace].
    destruct (Qle_bool 0 (Qmin backoff (max_backoff policy)));
      cbn [outcome final trace app]; do 3 eexists; (split; [reflexivity|]).
    + split; reflexivity.
    + reflexivity.
Qed.

(** Whatever the attempts do, the [i+1]-th sleep of the loop has a
    capped length and is taken from the backoff grown [i] times. *)
Lemma retry_loop_pause :
  emits (λ ev, negb (retry_event fn_name ev)) fn ->
  ∀ fuel attempt backoff last_exc w i s,
    let t := trace (retry_loop policy fn_name fn fuel attempt backoff last_exc w) in
    let b := Nat.iter i (next_backoff policy) backoff in
    sleeps t !! i = Some s ->
    s <= max_backoff policy
    ∧ if jitter policy
      then ∃ r, draws t !! i = Some (0, b, r)
                ∧ s = Qmin r (max_backoff policy)
                ∧ (0 <= b -> 0 <= r ∧ r <= b)
      else s = Qmin b (max_backoff policy).
Proof.
  intros Hquiet fuel.
  induction fuel as [|fuel IH]; intros attempt backoff last_exc w i s; [done|].
  destruct (Z.ltb_spec attempt (max_attempts policy)) as [Hlt|Hge]; cycle 1.
  { cbn [retry_loop]. destruct (Z.ltb_spec attempt (max_attempts policy)); [lia|done]. }
  pose proof (sleeps_quiet fn_name _ (Hquiet w)) as Hqs.
  pose proof (draws_quiet fn_name _ (Hquiet w)) as Hqd.
  destruct (outcome (fn w)) as [e|a] eqn:Hfn.
  - destruct (retry_on_exceptions policy e) eqn:Hre.
    + rewrite (retry_loop_failed _ _ _ _ _ _ Hlt Hfn Hre). cbn zeta.
      destruct (attempt + 1 >=? max_attempts policy)%Z.
      * cbn [trace]. intros Hs. exfalso. revert Hs.
        change (EvAttempt fn_name (attempt + 1) :: ?t) with ([EvAttempt fn_name (attempt + 1)] ++ t).
        by rewrite !sleeps_app, Hqs.
      * destruct (backoff_sleep_events backoff (final (fn w)))
          as (o & w' & pause & Hrun & Ho).
        destruct o as [e'|b'].
        { rewrite (bind_raised _ _ _ e') by (by rewrite Hrun).
          rewrite Hrun. cbn [outcome final trace]. intros Hs. exfalso. revert Hs.
          change (EvAttempt fn_name (attempt + 1) :: ?t)
            with ([EvAttempt fn_name (attempt + 1)] ++ t).
          by rewrite !sleeps_app, Hqs, Ho. }
        destruct Ho as [-> Hpause].
        rewrite (bind_returned _ _ _ (next_backoff policy backoff)) by (by rewrite Hrun).
        rewrite Hrun. cbn [outcome final trace].
        change (EvAttempt fn_name (attempt + 1) :: ?t) with ([EvAttempt fn_name (attempt + 1)] ++ t).
        rewrite !sleeps_app, !draws_app, Hqs, Hqd.
        destruct (pause_events_first _ _ Hpause) as (s0 & -> & Hs0 & Hj).
        cbn zeta. destruct i as [|i].
        -- simpl. intros [= <-]. split; [done|].
           destruct (jitter policy); [|by destruct Hj].
           destruct Hj as (r & -> & ?). by exists r.
        -- rewrite !Nat.iter_succ_r. simpl. intros Hs.
           destruct (IH (attempt + 1)%Z (next_backoff policy backoff) (Some e) w' i s Hs)
             as [HsM Hj'].
           split; [done|].
           destruct (jitter policy); [|done].
           destruct Hj as (r & -> & ?). done.
    + rewrite (retry_loop_uncaught _ _ _ _ _ _ Hlt Hfn Hre). cbn [trace].
      change (EvAttempt fn_name (attempt + 1) :: ?t) with ([EvAttempt fn_name (attempt + 1)] ++ t).
      by rewrite !sleeps_app, Hqs.
  - rewrite (retry_loop_returned _ _ _ _ _ _ Hlt Hfn). cbn [trace].
    change (EvAttempt fn_name (attempt + 1) :: ?t) with ([EvAttempt fn_name (attempt + 1)] ++ t).
    by rewrite !sleeps_app, Hqs.
Qed.

Lemma backoff_after_nonneg n :
  0 <= initial_backoff policy -> 0 <= multiplier policy -> 0 <= max_backoff policy ->
  0 <= backoff_after policy n.
Proof.
  intros Hi Hm HM. unfold backoff_after. induction n as [|n IH]; [exact Hi|].
  rewrite Nat.iter_succ. by apply next_backoff_nonneg.
Qed.

(** The backoff in closed form, when the products are exact *)
Lemma backoff_after_closed_form n :
  initial_backoff policy <= max_backoff policy ->
  0 <= multiplier policy ->
  (∀ i, (i < n)%nat ->
     fmul E (backoff_after policy i) (multiplier policy)
     == backoff_after policy i * multiplier policy) ->
  backoff_after policy n
  == Qmin (initial_backoff policy * multiplier policy ^ Z.of_nat n) (max_backoff policy).
Proof.
  intros HiM Hm.
  set (x := λ n : nat, initial_backoff policy * multiplier policy ^ Z.of_nat n).
  assert (Hstep : ∀ k, x (S k) == x k * multiplier policy).
  { intros k. unfold x. replace (Z.of_nat (S k)) with (Z.of_nat k + 1)%Z by lia.
    destruct k as [|k].
    - simpl. ring.
    - rewrite Qpower_plus' by lia. simpl (_ ^ 1). ring. }
  assert (Hx : ∀ k,
            (0 <= initial_backoff policy -> 0 <= x k)
            ∧ (initial_backoff policy <= 0 -> x k <= 0)
            ∧ (multiplier policy <= 1 -> 0 <= initial_backoff policy ->
               x k <= initial_backoff policy)
            ∧ (1 <= multiplier policy -> initial_backoff policy <= 0 ->
               x k <= initial_backoff policy)).
  { intros k. induction k as [|k (Hk1 & Hk2 & Hk3 & Hk4)].
    - unfold x. simpl. repeat split; intros; lra.
    - rewrite (Hstep k). repeat split.
      + intros Hi. apply Qmult_le_0_compat; [by apply Hk1|done].
      + intros Hi. specialize (Hk2 Hi).
        assert (0 <= (- x k) * multiplier policy) by (apply Qmult_le_0_compat; lra).
        lra.
      + intros Hm1 Hi. specialize (Hk1 Hi). specialize (Hk3 Hm1 Hi).
        assert (0 <= x k * (1 - multiplier policy)) by (apply Qmult_le_0_compat; lra).
        lra.
      + intros Hm1 Hi. specialize (Hk2 Hi). specialize (Hk4 Hm1 Hi).
        assert (0 <= (- x k) * (multiplier policy - 1)) by (apply Qmult_le_0_compat; lra).
        lra. }
  induction n as [|n IH]; intros Hexact.
  - unfold backoff_after. simpl. rewrite Q.min_l; [ring|]. lra.
  - destruct (Hx n) as (Hn1 & Hn2 & Hn3 & Hn4).
    change (backoff_after policy (S n)) with (next_backoff policy (backoff_after policy n)).
    unfold next_backoff. rewrite (Hexact n) by lia.
    rewrite IH by (intros i ?; apply Hexact; lia).
    fold (x n) (x (S n)). rewrite (Hstep n).
    destruct (Qlt_le_dec (max_backoff policy) (x n)) as [Hlt|Hle];
      [|rewrite (Q.min_l (x n)) by done; reflexivity].
    rewrite (Q.min_r (x n)) by lra.
    destruct (Qlt_le_dec 1 (multiplier policy)) as [Hm1|Hm1].
    + destruct (Qlt_le_dec (max_backoff policy) 0) as [HM|HM].
      { specialize (Hn4 ltac:(lra) ltac:(lra)). lra. }
      assert (0 <= max_backoff policy * (multiplier policy - 1))
        by (apply Qmult_le_0_compat; lra).
      assert (0 <= x n * (multiplier policy - 1)) by (apply Qmult_le_0_compat; lra).
      rewrite !Q.min_r by lra. reflexivity.
    + destruct (Qlt_le_dec (initial_backoff policy) 0) as [Hi|Hi].
      * specialize (Hn2 ltac:(lra)).
        assert (0 <= (- max_backoff policy) * (1 - multiplier policy))
          by (apply Qmult_le_0_compat; lra).
        assert (0 <= (- x n) * (1 - multiplier policy)) by (apply Qmult_le_0_compat; lra).
        rewrite !Q.min_r by lra. reflexivity.
      * specialize (Hn3 Hm1 Hi). lra.
Qed.
End RetryFacts.

(** ** Calls *)

Lemma pycall_returned {A} fn args (body : M A) w a :
  outcome (body w) = inr a ->
  pycall fn args body w = MkRun (inr a) (final (body w)) (EvCall fn args :: trace (body w)).
Proof.
  intros H. unfold pycall, bind, emit, try_except. cbn [outcome final trace].
  rewrite H. cbn [outcome final trace]. by rewrite H.
Qed.

Lemma pycall_raised {A} fn args (body : M A) w e :
  outcome (body w) = inl e ->
  pycall fn args body w
  = MkRun (inl e) (final (body w)) (EvCall fn args :: trace (body w) ++ [EvRaised fn e]).
Proof.
  intros H. unfold pycall, bind, emit, try_except, raise, any_exception.
  cbn [outcome final trace]. rewrite H. reflexivity.
Qed.

Lemma pycall_outcome {A} fn args (body : M A) w :
  outcome (pycall fn args body w) = outcome (body w).
Proof.
  destruct (outcome (body w)) as [e|a] eqn:H.
  - by rewrite (pycall_raised _ _ _ _ _ H).
  - by rewrite (pycall_returned _ _ _ _ _ H).
Qed.

Lemma pycall_final {A} fn args (body : M A) w :
  final (pycall fn args body w) = final (body w).
Proof.
  destruct (outcome (body w)) as [e|a] eqn:H.
  - by rewrite (pycall_raised _ _ _ _ _ H).
  - by rewrite (pycall_returned _ _ _ _ _ H).
Qed.

Lemma pycall_trace {A} fn args (body : M A) w :
  trace (pycall fn args body w)
  = EvCall fn args :: trace (body w)
      ++ match outcome (body w) with inl e => [EvRaised fn e] | inr _ => [] end.
Proof.
  destruct (outcome (body w)) as [e|a] eqn:H.
  - by rewrite (pycall_raised _ _ _ _ _ H).
  - rewrite (pycall_returned _ _ _ _ _ H). simpl. by rewrite app_nil_r.
Qed.

Ltac emits_step :=
  lazymatch goal with
  | |- emits _ (ret _) => apply emits_ret
  | |- emits _ (raise _) => apply emits_raise
  | |- emits _ (lift _) => apply emits_lift
  | |- emits _ (log_event _ _) => apply emits_log; reflexivity
  | |- emits _ (remote _) => apply emits_remote; reflexivity
  | |- emits _ (bind _ _) => apply emits_bind; [|intros ?]
  | |- emits _ (try_except _ _ _) => apply emits_try_except; [|intros ?]
  | |- emits _ (pycall _ _ _) => apply emits_pycall; [reflexivity | intros ?; reflexivity | ]
  | |- emits _ (retry_on_transient _ _ _) => apply emits_retry; [intros; reflexivity .. | ]
  | |- emits ?P (if true then ?a else _) => change (emits P a)
  | |- emits ?P (if false then _ else ?b) => change (emits P b)
  | |- emits _ (if ?b then _ else _) => destruct b
  | |- emits _ (let _ := _ in _) => cbv zeta
  end.

Ltac emits_auto := repeat emits_step.

(** The lookup is read-only. *)
Lemma find_file_by_name_read_only name parent_id :
  emits read_only (find_file_by_name name parent_id).
Proof. unfold find_file_by_name, list_files, list_files_body. emits_auto. Qed.

Lemma upsert_dry_run_read_only local_path drive_parent_id conflict_policy :
  emits read_only (upsert_file_by_path local_path drive_parent_id conflict_policy true).
Proof.
  unfold upsert_file_by_path. cbv zeta.
  emits_auto; apply find_file_by_name_read_only.
Qed.

Lemma name_of_three_not_of_four f :
  existsb (String.eqb f) ["upsert_file_by_path"; "find_file_by_name"; "list_files"] = true ->
  existsb (String.eqb f) ["upload_file"; "update_file"; "create_folder"; "delete_file"] = false.
Proof.
  simpl. rewrite !orb_false_r.
  intros [->%String.eqb_eq | [->%String.eqb_eq | ->%String.eqb_eq]%orb_prop]%orb_prop;
    reflexivity.
Qed.

Lemma read_only_not_mutating ev : read_only ev = true -> mutating ev = false.
Proof.
  destruct ev as [f args|f e|f n|f n e|l m|c|a b r|s]; try reflexivity.
  - exact (name_of_three_not_of_four f).
  - intros ->%String.eqb_eq. reflexivity.
  - by destruct c.
Qed.

Lemma forallb_read_only_not_mutating t :
  forallb read_only t = true -> forallb (λ ev, negb (mutating ev)) t = true.
Proof.
  induction t as [|ev t IH]; simpl; [done|].
  intros [Hev Ht]%andb_prop. by rewrite (read_only_not_mutating _ Hev), IH.
Qed.

(** Unfolds the sequencing of a run and reduces what is decided. *)
Ltac run_simpl :=
  unfold lift; unfold bind, log_event, emit, ret, raise;
  cbn [negb outcome final trace app py_truthy py_item0 String.eqb Ascii.eqb Bool.eqb].

(** ** [upsert_file_by_path] after the lookup *)

Lemma bind_lift_returned {A B} (x : exn + A) (k : A -> M B) w a :
  x = inr a -> bind (lift x) k w = k a w.
Proof. intros ->. unfold bind, lift, ret. simpl. by destruct (k a w). Qed.

Lemma pycall_log_bind {A B} fn args level message (m : M A) (k : A -> M B) w a rk :
  outcome (m w) = inr a ->
  k a (final (m w)) = rk ->
  pycall fn args (bind (log_event level message) (λ _, bind m k)) w
  = MkRun (outcome rk) (final rk)
      (EvCall fn args :: EvLog level message :: trace (m w) ++ trace rk
         ++ match outcome rk with inl e => [EvRaised fn e] | inr _ => [] end).
Proof.
  intros Hm <-.
  set (body := bind (log_event level message) (λ _, bind m k)).
  assert (Hbody : body w
                  = MkRun (outcome (k a (final (m w)))) (final (k a (final (m w))))
                      (EvLog level message :: trace (m w) ++ trace (k a (final (m w))))).
  { unfold body, bind at 1, log_event, emit. cbn [outcome final trace].
    by rewrite (bind_returned _ _ _ _ Hm). }
  destruct (outcome (k a (final (m w)))) as [e|b] eqn:Hk.
  - rewrite (pycall_raised _ _ _ _ e) by (by rewrite Hbody).
    rewrite Hbody. cbn [outcome final trace]. simpl. by rewrite <- app_assoc.
  - rewrite (pycall_returned _ _ _ _ b) by (by rewrite Hbody).
    rewrite Hbody. cbn [outcome final trace]. by rewrite app_nil_r.
Qed.

Section Upsert.
Variable local_path : string.
Variable drive_parent_id : option string.
Variable w : World E.

(** The run of the lookup *)
Variable rf : Run (World E) pyval.
Hypothesis lookup : find_file_by_name (path_name local_path) drive_parent_id w = rf.

(** No match, dry run: the planned creation is reported. *)
Lemma upsert_dry_run_create conflict_policy matches :
  outcome rf = inr matches ->
  py_truthy matches = false ->
  upsert_file_by_path local_path drive_parent_id conflict_policy true w
  = MkRun (inr (PDict {[ "action" := PStr "create"; "name" := PStr (path_name local_path) ]}))
      (final rf)
      (EvCall "upsert_file_by_path"
         [PStr local_path; py_opt drive_parent_id; PStr conflict_policy; PBool true]
         :: EvLog "info" "upsert:start"
         :: trace rf ++ [EvLog "info" "upsert:dry_run_create"]).
Proof.
  intros Hrf Hm. rewrite <- lookup in Hrf. unfold upsert_file_by_path. cbv zeta.
  rewrite (pycall_log_bind _ _ _ _
             (find_file_by_name (path_name local_path) drive_parent_id) _ w matches
             (MkRun (inr (PDict {[ "action" := PStr "create";
                                   "name" := PStr (path_name local_path) ]}))
                (final rf) [EvLog "info" "upsert:dry_run_create"]) Hrf).
  - rewrite lookup. reflexivity.
  - rewrite lookup. cbv beta. rewrite Hm. reflexivity.
Qed.

(** A match under the [skip] policy *)
Lemma upsert_skip dry_run first rest file_id :
  outcome rf = inr (PList (first :: rest)) ->
  py_item first "id" = inr file_id ->
  upsert_file_by_path local_path drive_parent_id "skip" dry_run w
  = MkRun (inr (PDict {[ "action" := PStr "skip"; "file_id" := file_id ]}))
      (final rf)
      (EvCall "upsert_file_by_path"
         [PStr local_path; py_opt drive_parent_id; PStr "skip"; PBool dry_run]
         :: EvLog "info" "upsert:start"
         :: trace rf ++ [EvLog "info" "upsert:skip"]).
Proof.
  intros Hrf Hid. rewrite <- lookup in Hrf. unfold upsert_file_by_path. cbv zeta.
  rewrite (pycall_log_bind _ _ _ _
             (find_file_by_name (path_name local_path) drive_parent_id) _ w
             (PList (first :: rest))
             (MkRun (inr (PDict {[ "action" := PStr "skip"; "file_id" := file_id ]}))
                (final rf) [EvLog "info" "upsert:skip"]) Hrf).
  - rewrite lookup. reflexivity.
  - rewrite lookup. cbv beta. cbn [py_truthy negb].
    rewrite (bind_lift_returned _ _ _ first) by reflexivity.
    rewrite (bind_lift_returned _ _ _ file_id) by exact Hid.
    reflexivity.
Qed.

(** A match under a policy that is neither [skip] nor [new] *)
Lemma upsert_update_dry_run conflict_policy first rest file_id :
  conflict_policy ≠ "skip" -> conflict_policy ≠ "new" ->
  outcome rf = inr (PList (first :: rest)) ->
  py_item first "id" = inr file_id ->
  upsert_file_by_path local_path drive_parent_id conflict_policy true w
  = MkRun (inr (PDict {[ "action" := PStr "update"; "file_id" := file_id ]}))
      (final rf)
      (EvCall "upsert_file_by_path"
         [PStr local_path; py_opt drive_parent_id; PStr conflict_policy; PBool true]
         :: EvLog "info" "upsert:start"
         :: trace rf ++ [EvLog "info" "upsert:dry_run_update"]).
Proof.
  intros Hskip%String.eqb_neq Hnew%String.eqb_neq Hrf Hid.
  rewrite <- lookup in Hrf. unfold upsert_file_by_path. cbv zeta.
  rewrite (pycall_log_bind _ _ _ _
             (find_file_by_name (path_name local_path) drive_parent_id) _ w
             (PList (first :: rest))
             (MkRun (inr (PDict {[ "action" := PStr "update"; "file_id" := file_id ]}))
                (final rf) [EvLog "info" "upsert:dry_run_update"]) Hrf).
  - rewrite lookup. reflexivity.
  - rewrite lookup. cbv beta. cbn [py_truthy negb].
    rewrite (bind_lift_returned _ _ _ first) by reflexivity.
    rewrite (bind_lift_returned _ _ _ file_id) by exact Hid.
    rewrite Hskip, Hnew. reflexivity.
Qed.

Lemma upsert_update conflict_policy first rest file_id ru :
  conflict_policy ≠ "skip" -> conflict_policy ≠ "new" ->
  outcome rf = inr (PList (first :: rest)) ->
  py_item first "id" = inr file_id ->
  update_file file_id local_path None (final rf) = ru ->
  upsert_file_by_path local_path drive_parent_id conflict_policy false w
  = MkRun (outcome ru) (final ru)
      (EvCall "upsert_file_by_path"
         [PStr local_path; py_opt drive_parent_id; PStr conflict_policy; PBool false]
         :: EvLog "info" "upsert:start"
         :: trace rf ++ trace ru
         ++ match outcome ru with
            | inl e => [EvRaised "upsert_file_by_path" e]
            | inr _ => []
            end).
Proof.
  intros Hskip%String.eqb_neq Hnew%String.eqb_neq Hrf Hid Hru.
  rewrite <- lookup in Hrf. unfold upsert_file_by_path. cbv zeta.
  rewrite (pycall_log_bind _ _ _ _
             (find_file_by_name (path_name local_path) drive_parent_id) _ w
             (PList (first :: rest)) ru Hrf).
  - rewrite lookup. reflexivity.
  - rewrite lookup. cbv beta. cbn [py_truthy negb].
    rewrite (bind_lift_returned _ _ _ first) by reflexivity.
    rewrite (bind_lift_returned _ _ _ file_id) by exact Hid.
    rewrite Hskip, Hnew. exact Hru.
Qed.
End Upsert.

(** ** [update_file] *)

Lemma forallb_impl (P Q : event -> bool) t :
  (∀ ev, P ev = true -> Q ev = true) -> forallb P t = true -> forallb Q t = true.
Proof.
  intros HPQ. induction t as [|ev t IH]; simpl; [done|].
  intros [Hev Ht]%andb_prop. by rewrite (HPQ _ Hev), IH.
Qed.

Lemma read_only_not_call fn ev :
  existsb (String.eqb fn) ["upsert_file_by_path"; "find_file_by_name"; "list_files"] = false ->
  read_only ev = true -> negb (is_call fn ev) = true.
Proof.
  intros Hfn. destruct ev as [f args| | | | | | |]; try done.
  cbn [read_only is_call]. intros Hf. apply negb_true_iff, String.eqb_neq. intros ->.
  congruence.
Qed.

Lemma update_file_body_succeeds file_id local_path mime_type w resp w' :
  path_exists E local_path = true ->
  remote_exec E (FilesUpdate file_id (MediaFileUpload local_path mime_type true)
                   "id,name,modifiedTime") w = (inr resp, w') ->
  update_file_body file_id local_path mime_type w
  = MkRun (inr resp) w'
      [EvLog "info" "update_file:start";
       EvRemote (FilesUpdate file_id (MediaFileUpload local_path mime_type true)
                   "id,name,modifiedTime");
       EvLog "info" "update_file:done"].
Proof.
  intros Hexists Hexec. unfold update_file_body. rewrite Hexists. cbn [negb].
  unfold try_except, remote. run_simpl. rewrite Hexec. reflexivity.
Qed.

Lemma update_file_succeeds file_id local_path mime_type w resp w' :
  path_exists E local_path = true ->
  remote_exec E (FilesUpdate file_id (MediaFileUpload local_path mime_type true)
                   "id,name,modifiedTime") w = (inr resp, w') ->
  update_file file_id local_path mime_type w
  = MkRun (inr resp) w'
      [EvCall "update_file" [file_id; PStr local_path; py_opt mime_type];
       EvAttempt "update_file" 1;
       EvLog "info" "update_file:start";
       EvRemote (FilesUpdate file_id (MediaFileUpload local_path mime_type true)
                   "id,name,modifiedTime");
       EvLog "info" "update_file:done";
       EvLog "debug" "retry_success"].
Proof.
  intros Hexists Hexec.
  pose proof (update_file_body_succeeds _ _ _ _ _ _ Hexists Hexec) as Hbody.
  unfold update_file.
  set (body := update_file_body file_id local_path mime_type) in *.
  assert (Hretry : retry_on_transient default_policy "update_file" body w
                   = MkRun (inr resp) w'
                       (EvAttempt "update_file" 1 :: trace (body w)
                          ++ [EvLog "debug" "retry_success"])).
  { change (retry_on_transient default_policy "update_file" body)
      with (retry_loop default_policy "update_file" body 6 0 1 None).
    rewrite (retry_loop_returned _ _ _ _ _ _ _ _ resp) by (done || by rewrite Hbody).
    by rewrite Hbody. }
  rewrite (pycall_returned _ _ _ _ resp) by (by rewrite Hretry).
  rewrite Hretry, Hbody. reflexivity.
Qed.

Lemma update_file_calls file_id local_path mime_type w :
  List.filter (is_call "update_file") (trace (update_file file_id local_path mime_type w))
  = [EvCall "update_file" [file_id; PStr local_path; py_opt mime_type]].
Proof.
  unfold update_file. rewrite pycall_trace.
  cbn [List.filter is_call String.eqb Ascii.eqb Bool.eqb]. f_equal.
  rewrite List.filter_app, filter_quiet.
  - by destruct (outcome _).
  - apply emits_retry; try done. unfold update_file_body. emits_auto.
Qed.

Lemma update_file_never_uploads file_id local_path mime_type :
  emits (λ ev, negb (is_call "upload_file" ev)) (update_file file_id local_path mime_type).
Proof. unfold update_file, update_file_body. emits_auto. Qed.

(** ** [sync_folder] *)

Lemma upsert_body_never_raises_upsert local_path drive_parent_id conflict_policy dry_run w :
  count (is_raised "upsert_file_by_path")
    (trace (upsert_file_by_path local_path drive_parent_id conflict_policy dry_run w))
  = match outcome (upsert_file_by_path local_path drive_parent_id conflict_policy dry_run w) with
    | inl _ => 1%nat
    | inr _ => 0%nat
    end.
Proof.
  unfold upsert_file_by_path. rewrite pycall_trace, pycall_outcome.
  match goal with |- context [outcome (?b w)] => set (body := b) end.
  assert (Hbody : emits (λ ev, negb (is_raised "upsert_file_by_path" ev)) body).
  { subst body. cbv zeta.
    unfold find_file_by_name, list_files, list_files_body, upload_file, upload_file_body,
      update_file, update_file_body.
    emits_auto. }
  change (EvCall ?f ?a :: ?t) with ([EvCall f a] ++ t).
  rewrite !count_app, (count_quiet _ _ (Hbody w)).
  by destruct (outcome (body w)).
Qed.

Section SyncFacts.
Variable drive_parent_id : option string.
Variable mode : string.
Variable filters : option (string -> exn + bool).
Variable dry_run : bool.

Lemma sync_file_run p results w ru :
  upsert_file_by_path p drive_parent_id "overwrite" dry_run w = ru ->
  sync_file drive_parent_id mode dry_run p results w
  = if String.eqb mode "upsert" then
      match outcome ru with
      | inr res =>
          MkRun (inr (results ++ [PDict {[ "path" := PStr p; "result" := res ]}]))
            (final ru) (trace ru)
      | inl exc =>
          MkRun (inr (results
                      ++ [PDict {[ "path" := PStr p; "error" := PStr (exn_repr E exc) ]}]))
            (final ru) (trace ru ++ [EvLog "error" "sync_folder:file_error"])
      end
    else MkRun (inr results) w [EvLog "warning" "sync_folder:unknown_mode"].
Proof.
  intros Hru. unfold sync_file, try_except.
  destruct (String.eqb mode "upsert"); [|reflexivity].
  unfold bind. rewrite Hru.
  destruct ru as [[exc|res] wf t]; cbn [outcome final trace any_exception].
  - reflexivity.
  - unfold ret. cbn [outcome final trace]. by rewrite app_nil_r.
Qed.

(** The [try] statement never raises. *)
Lemma sync_file_returns p results w :
  ∃ out, outcome (sync_file drive_parent_id mode dry_run p results w) = inr out.
Proof.
  rewrite (sync_file_run p results w _ eq_refl).
  destruct (String.eqb mode "upsert"); [|by eexists].
  destruct (outcome (upsert_file_by_path p drive_parent_id "overwrite" dry_run w));
    eexists; reflexivity.
Qed.

(** One pass of the loop on a file the filter lets through *)
Lemma sync_loop_regular p ps results w out :
  path_is_dir E p = false ->
  passes filters p ->
  outcome (sync_file drive_parent_id mode dry_run p results w) = inr out ->
  sync_loop drive_parent_id mode filters dry_run (p :: ps) results w
  = MkRun
      (outcome (sync_loop drive_parent_id mode filters dry_run ps out
                  (final (sync_file drive_parent_id mode dry_run p results w))))
      (final (sync_loop drive_parent_id mode filters dry_run ps out
                (final (sync_file drive_parent_id mode dry_run p results w))))
      (trace (sync_file drive_parent_id mode dry_run p results w)
         ++ trace (sync_loop drive_parent_id mode filters dry_run ps out
                     (final (sync_file drive_parent_id mode dry_run p results w)))).
Proof.
  intros Hdir Hpass Hout. cbn [sync_loop]. rewrite Hdir.
  assert (Hex : excluded filters p w = MkRun (inr false) w []).
  { unfold excluded, passes in *. destruct filters as [f|]; [|reflexivity].
    rewrite Hpass. reflexivity. }
  rewrite (bind_returned _ _ _ false) by (by rewrite Hex).
  rewrite Hex. cbn [outcome final trace app].
  rewrite (bind_returned _ _ _ out) by exact Hout.
  reflexivity.
Qed.

Lemma sync_loop_directory p ps results w :
  path_is_dir E p = true ->
  sync_loop drive_parent_id mode filters dry_run (p :: ps) results w
  = sync_loop drive_parent_id mode filters dry_run ps results w.
Proof. intros Hdir. cbn [sync_loop]. by rewrite Hdir. Qed.

Lemma sync_loop_skipped f p ps results w :
  filters = Some f ->
  path_is_dir E p = false ->
  f p = inr false ->
  sync_loop drive_parent_id mode filters dry_run (p :: ps) results w
  = MkRun (outcome (sync_loop drive_parent_id mode filters dry_run ps results w))
      (final (sync_loop drive_parent_id mode filters dry_run ps results w))
      (EvLog "info" "sync_folder:skipped_by_filter"
         :: trace (sync_loop drive_parent_id mode filters dry_run ps results w)).
Proof.
  intros Hf Hdir Hp. cbn [sync_loop]. rewrite Hdir.
  assert (Hex : excluded filters p w = MkRun (inr true) w []).
  { unfold excluded. rewrite Hf, Hp. reflexivity. }
  rewrite (bind_returned _ _ _ true) by (by rewrite Hex).
  rewrite Hex. cbn [outcome final trace app].
  unfold bind at 1 2 3, log_event, emit. cbn [outcome final trace app].
  reflexivity.
Qed.

Lemma sync_loop_filter_raised f p ps results w e :
  filters = Some f ->
  path_is_dir E p = false ->
  f p = inl e ->
  outcome (sync_loop drive_parent_id mode filters dry_run (p :: ps) results w) = inl e.
Proof.
  intros Hf Hdir Hp. cbn [sync_loop]. rewrite Hdir.
  assert (Hex : excluded filters p w = MkRun (inl e) w []).
  { unfold excluded. rewrite Hf, Hp. reflexivity. }
  rewrite (bind_raised _ _ _ e) by (by rewrite Hex).
  reflexivity.
Qed.

Lemma entries_app P l1 l2 : entries P (l1 ++ l2) = (entries P l1 + entries P l2)%nat.
Proof. unfold entries. by rewrite List.filter_app, length_app. Qed.

Lemma entries_singleton P v : entries P [v] = if P v then 1%nat else 0%nat.
Proof. unfold entries. cbn [List.filter]. by destruct (P v). Qed.

Lemma error_entry_kind (a b : pyval) :
  is_error_entry (PDict {[ "path" := a; "error" := b ]}) = true
  ∧ is_success_entry (PDict {[ "path" := a; "error" := b ]}) = false.
Proof. split; vm_compute; reflexivity. Qed.

Lemma success_entry_kind (a b : pyval) :
  is_success_entry (PDict {[ "path" := a; "result" := b ]}) = true
  ∧ is_error_entry (PDict {[ "path" := a; "result" := b ]}) = false.
Proof. split; vm_compute; reflexivity. Qed.

(** What the [try] statement adds to the results *)
Lemma sync_file_effect p results w rs :
  sync_file drive_parent_id mode dry_run p results w = rs ->
  ∃ out,
    outcome rs = inr out
    ∧ entries is_error_entry out
      = (entries is_error_entry results
         + count (is_raised "upsert_file_by_path") (trace rs))%nat
    ∧ (mode = "upsert" ->
       length out = S (length results)
       ∧ (entries is_success_entry out + count (is_raised "upsert_file_by_path") (trace rs)
          = S (entries is_success_entry results))%nat)
    ∧ (mode ≠ "upsert" -> count (is_raised "upsert_file_by_path") (trace rs) = 0%nat).
Proof.
  intros <-. rewrite (sync_file_run p results w _ eq_refl).
  pose proof (upsert_body_never_raises_upsert p drive_parent_id "overwrite" dry_run w)
    as Hcount.
  revert Hcount.
  generalize (upsert_file_by_path p drive_parent_id "overwrite" dry_run w). intros ru Hcount.
  destruct (String.eqb_spec mode "upsert") as [Hmode|Hmode].
  - destruct (outcome ru) as [exc|res]; cbn [outcome final trace];
      eexists; (split; [reflexivity|]).
    + rewrite !entries_app, !entries_singleton, count_app, Hcount, length_app.
      destruct (error_entry_kind (PStr p) (PStr (exn_repr E exc))) as [-> ->].
      repeat split; try done; cbn; lia.
    + rewrite !entries_app, !entries_singleton, Hcount, length_app.
      destruct (success_entry_kind (PStr p) res) as [-> ->].
      repeat split; try done; cbn; lia.
  - eexists. cbn [outcome final trace]. split; [reflexivity|].
    repeat split; try done; cbn; lia.
Qed.

(** The loop never raises when the filter lets every file through;
    its error records are the failures of [upsert_file_by_path]. *)
Lemma sync_loop_counts ps : ∀ results w rl,
  Forall (λ p, path_is_dir E p = false -> passes filters p) ps ->
  sync_loop drive_parent_id mode filters dry_run ps results w = rl ->
  ∃ out,
    outcome rl = inr out
    ∧ entries is_error_entry out
      = (entries is_error_entry results
         + count (is_raised "upsert_file_by_path") (trace rl))%nat
    ∧ (mode = "upsert" ->
       length out = (length results + length (regular_files ps))%nat
       ∧ (entries is_success_entry out + count (is_raised "upsert_file_by_path") (trace rl)
          = entries is_success_entry results + length (regular_files ps))%nat)
    ∧ (mode ≠ "upsert" -> count (is_raised "upsert_file_by_path") (trace rl) = 0%nat).
Proof.
  induction ps as [|p ps IH]; intros results w rl Hpass <-.
  - exists results. cbn. repeat split; lia.
  - apply Forall_cons in Hpass as [Hp Hps].
    destruct (path_is_dir E p) eqn:Hdir.
    + rewrite (sync_loop_directory _ _ _ _ Hdir).
      unfold regular_files. cbn [List.filter]. rewrite Hdir. cbn [negb].
      apply (IH results w _ Hps eq_refl).
    + destruct (sync_file_effect p results w _ eq_refl)
        as (out1 & Hout1 & Herr1 & Hup1 & Hother1).
      rewrite (sync_loop_regular _ _ _ _ out1 Hdir (Hp eq_refl) Hout1).
      revert Herr1 Hup1 Hother1.
      generalize (trace (sync_file drive_parent_id mode dry_run p results w)).
      generalize (final (sync_file drive_parent_id mode dry_run p results w)).
      intros w1 t1 Herr1 Hup1 Hother1.
      destruct (IH out1 w1 _ Hps eq_refl) as (out & Hout & Herr & Hup & Hother).
      revert Hout Herr Hup Hother.
      generalize (sync_loop drive_parent_id mode filters dry_run ps out1 w1).
      intros rl Hout Herr Hup Hother.
      exists out. cbn [outcome final trace]. split; [exact Hout|].
      rewrite count_app.
      unfold regular_files in *. cbn [List.filter]. rewrite Hdir. cbn [negb length].
      split; [lia|]. split.
      * intros Hmode. destruct (Hup1 Hmode), (Hup Hmode). lia.
      * intros Hmode. rewrite (Hother1 Hmode), (Hother Hmode). reflexivity.
Qed.

(** An exception of the filter leaves the loop. *)
Lemma sync_loop_filter_aborts f pre p post e :
  filters = Some f ->
  path_is_dir E p = false ->
  f p = inl e ->
  Forall (λ q, path_is_dir E q = false -> ∃ b, f q = inr b) pre ->
  ∀ results w,
    outcome (sync_loop drive_parent_id mode filters dry_run (pre ++ p :: post) results w)
    = inl e.
Proof.
  intros Hf Hdir Hp Hpre.
  induction Hpre as [|q pre Hq Hpre IH]; intros results w.
  - by apply (sync_loop_filter_raised f).
  - cbn [app]. destruct (path_is_dir E q) eqn:Hqdir.
    + rewrite (sync_loop_directory _ _ _ _ Hqdir). apply IH.
    + destruct (Hq eq_refl) as [[|] Hb].
      * destruct (sync_file_returns q results w) as [out Hout].
        rewrite (sync_loop_regular _ _ _ _ out Hqdir); [|by rewrite Hf|exact Hout].
        cbn [outcome]. apply IH.
      * rewrite (sync_loop_skipped f _ _ _ _ Hf Hqdir Hb). cbn [outcome]. apply IH.
Qed.

(** [sync_folder] around its loop *)
Lemma sync_folder_run local_dir w rl :
  path_exists E local_dir = true ->
  path_is_dir E local_dir = true ->
  sync_loop drive_parent_id mode filters dry_run (sorted (path_rglob E local_dir)) [] w = rl ->
  outcome (sync_folder drive_parent_id mode filters dry_run local_dir w) = outcome rl
  ∧ trace (sync_folder drive_parent_id mode filters dry_run local_dir w)
    = EvCall "sync_folder"
        [PStr local_dir; py_opt drive_parent_id; PStr mode; PBool dry_run]
        :: EvLog "info" "sync_folder:start"
        :: trace rl
        ++ match outcome rl with
           | inl e => [EvRaised "sync_folder" e]
           | inr _ => [EvLog "info" "sync_folder:done"]
           end.
Proof.
  intros Hexists Hdir Hrl. unfold sync_folder.
  rewrite pycall_outcome, pycall_trace, Hexists, Hdir. cbn [negb orb].
  match goal with |- context [outcome (?b w)] => set (body := b) end.
  assert (Hbody : body w
                  = match outcome rl with
                    | inl e =>
                        MkRun (inl e) (final rl) (EvLog "info" "sync_folder:start" :: trace rl)
                    | inr results =>
                        MkRun (inr results) (final rl)
                          (EvLog "info" "sync_folder:start"
                             :: trace rl ++ [EvLog "info" "sync_folder:done"])
                    end).
  { unfold body, bind, log_event, emit, ret. cbn [outcome final trace]. rewrite Hrl.
    destruct rl as [[e|results] wl tl]; reflexivity. }
  rewrite Hbody.
  destruct (outcome rl); cbn [outcome final trace]; split; try reflexivity.
  cbn [app]. by rewrite <- app_assoc, app_nil_r.
Qed.
End SyncFacts.

(** Sorting keeps the entries. *)
Lemma insert_sorted_regular p l :
  length (regular_files (insert_sorted p l)) = length (regular_files (p :: l)).
Proof.
  unfold regular_files. induction l as [|q l IH]; [done|].
  cbn [insert_sorted]. destruct (path_leb p q); [done|].
  cbn [List.filter] in *.
  destruct (negb (path_is_dir E q)), (negb (path_is_dir E p)); cbn [length] in *; lia.
Qed.

Lemma sorted_regular l :
  length (regular_files (sorted l)) = length (regular_files l).
Proof.
  induction l as [|p l IH]; [done|].
  cbn [sorted foldr]. fold (sorted l). rewrite insert_sorted_regular.
  unfold regular_files in *. cbn [List.filter].
  destruct (negb (path_is_dir E p)); cbn [length]; lia.
Qed.

Lemma insert_sorted_Forall (P : string -> Prop) p l :
  P p -> Forall P l -> Forall P (insert_sorted p l).
Proof.
  intros Hp Hl. induction Hl as [|q l Hq Hl IH]; cbn [insert_sorted].
  - by constructor.
  - destruct (path_leb p q); repeat constructor; done.
Qed.

Lemma sorted_Forall (P : string -> Prop) l : Forall P l -> Forall P (sorted l).
Proof.
  induction 1 as [|p l Hp Hl IH]; [constructor|].
  cbn [sorted foldr]. by apply insert_sorted_Forall.
Qed.

(** * The properties *)

(** C1. For every local path, parent id and conflict policy, a dry run of
    [upsert_file_by_path] produces read-only events only: the calls are
    those of [upsert_file_by_path], [find_file_by_name] and [list_files],
    every request to the service is a [list] request; so [upload_file],
    [update_file], [create_folder] and [delete_file] are never called
    and no create, update or delete request is sent. *)
Theorem upsert_dry_run_never_mutates
    (local_path : string) (drive_parent_id : option string) (conflict_policy : string)
    (w : World E) :
  let t := trace (upsert_file_by_path local_path drive_parent_id conflict_policy true w) in
  forallb read_only t = true ∧ forallb (λ ev, negb (mutating ev)) t = true.
Proof.
  cbv zeta.
  pose proof (upsert_dry_run_read_only local_path drive_parent_id conflict_policy w) as H.
  split; [done|]. by apply forallb_read_only_not_mutating.
Qed.

(** C4. For every [k >= 1], under a policy with [max_attempts = k] and
    non-negative backoff parameters, a body that always raises an
    exception the policy retries is executed exactly [k] times, each time
    in the world the execution before and its pause left, with [k - 1]
    sleeps in between (none when [k = 1]); the wrapper then raises
    [DriveAPIError] reporting [k] attempts, whose cause is the exception
    the body raised at its last execution. *)
Theorem retry_exhausted_after_max_attempts {A}
    (policy : RetryPolicy) (fn_name : string) (fn : M A) (k : Z) (w : World E) :
  (1 <= k)%Z ->
  max_attempts policy = k ->
  (0 <= initial_backoff policy)%Q ->
  (0 <= multiplier policy)%Q ->
  (0 <= max_backoff policy)%Q ->
  (∀ w', ∃ e, outcome (fn w') = inl e ∧ retry_on_exceptions policy e = true) ->
  emits (λ ev, negb (retry_event fn_name ev)) fn ->
  let r := retry_on_transient policy fn_name fn w in
  count (is_attempt fn_name) (trace r) = Z.to_nat k
  ∧ count is_sleep (trace r) = Z.to_nat (k - 1)
  ∧ ∃ elast wlast,
      failed_executions policy fn_name fn (Z.to_nat k) 0 w (trace r) wlast elast
      ∧ outcome (fn wlast) = inl elast
      ∧ final r = final (fn wlast)
      ∧ (∃ pre,
           List.filter (retry_event fn_name) (trace r)
           = pre ++ [EvAttemptFailed fn_name k elast])
      ∧ outcome r
        = inl (Exn DriveAPIError
                 ("Function " +:+ fn_name +:+ " failed after " +:+ pretty k +:+ " attempts")
                 (Some elast)).
Proof.
  intros Hk Hmax Hi Hm HM Hfails Hquiet r.
  destruct (failing_run policy fn_name fn Hfails Hquiet Hm HM
              (Z.to_nat (max_attempts policy)) 0%Z (initial_backoff policy) None w)
    as (elast & Hview & Hout & _); [done|lia|lia|].
  destruct (exhausted_run policy fn_name fn Hfails Hm HM
              (Z.to_nat (max_attempts policy)) 0%Z (initial_backoff policy) None w)
    as (wlast & elast' & Hruns & Hlast & Hfinal & Hout'); [done|lia|lia|].
  fold (retry_on_transient policy fn_name fn w) in Hview, Hout, Hruns, Hfinal, Hout'.
  fold r in Hview, Hout, Hruns, Hfinal, Hout'.
  assert (elast' = elast) as -> by congruence.
  rewrite Z.sub_0_r, Hmax in Hruns.
  split; [|split].
  - unfold count. rewrite <- (filter_filter_sub _ (retry_event fn_name)).
    + fold (count (is_attempt fn_name) (List.filter (retry_event fn_name) (trace r))).
      rewrite (failing_view_attempts _ _ _ _ _ _ Hview) by lia. f_equal. lia.
    + by intros [].
  - unfold count. rewrite <- (filter_filter_sub _ (retry_event fn_name)).
    + fold (count is_sleep (List.filter (retry_event fn_name) (trace r))).
      rewrite count_is_sleep, (failing_view_sleeps _ _ _ _ _ _ Hview) by lia.
      f_equal. lia.
    + by intros [].
  - destruct (failing_view_last _ _ _ _ _ _ Hview) as [pre Hpre]; [lia|].
    exists elast, wlast. split; [exact Hruns|]. split; [exact Hlast|].
    split; [exact Hfinal|]. split; [by exists pre; rewrite Hpre, Hmax|].
    rewrite Hout. by rewrite Hmax.
Qed.

(** C5, as the code has it. Whenever the wrapper sleeps after attempt
    [n], the backoff before jitter is the initial backoff grown [n - 1]
    times by [backoff = min(backoff * multiplier, max_backoff)], the
    product being the machine's; the sleep never exceeds [max_backoff];
    with jitter it is what [random.uniform(0, backoff)] gave, capped, a
    number of [0, backoff] when the backoff is not negative, and without
    jitter the backoff, capped.  The backoff is not negative when the
    parameters of the policy are not.  When
    [initial_backoff <= max_backoff] and [multiplier >= 0] and the
    products computed so far are exact, the backoff is
    [min(initial_backoff * multiplier^(n-1), max_backoff)]. *)
Theorem retry_backoff_schedule {A}
    (policy : RetryPolicy) (fn_name : string) (fn : M A) (w : World E) (n : nat) (s : Q) :
  emits (λ ev, negb (retry_event fn_name ev)) fn ->
  (1 <= n)%nat ->
  let t := trace (retry_on_transient policy fn_name fn w) in
  sleeps t !! (n - 1)%nat = Some s ->
  let backoff := backoff_after policy (n - 1) in
  (s <= max_backoff policy)%Q
  ∧ (if jitter policy
     then ∃ r, draws t !! (n - 1)%nat = Some (0%Q, backoff, r)
               ∧ s = Qmin r (max_backoff policy)
               ∧ ((0 <= backoff)%Q -> (0 <= r)%Q ∧ (r <= backoff)%Q)
     else s = Qmin backoff (max_backoff policy))
  ∧ ((0 <= initial_backoff policy)%Q -> (0 <= multiplier policy)%Q ->
     (0 <= max_backoff policy)%Q -> (0 <= backoff)%Q)
  ∧ ((initial_backoff policy <= max_backoff policy)%Q ->
     (0 <= multiplier policy)%Q ->
     (∀ i, (i < n - 1)%nat ->
        (fmul E (backoff_after policy i) (multiplier policy)
         == backoff_after policy i * multiplier policy)%Q) ->
     (backoff == Qmin (initial_backoff policy * multiplier policy ^ (Z.of_nat n - 1))
                   (max_backoff policy))%Q).
Proof.
  intros Hquiet Hn t Hs backoff.
  apply (retry_loop_pause policy fn_name fn Hquiet) in Hs. destruct Hs as [HsM Hj].
  fold (backoff_after policy (n - 1)) in Hj. fold backoff in Hj.
  split; [exact HsM|]. split; [exact Hj|]. split.
  - intros Hi Hm HM. by apply backoff_after_nonneg.
  - intros HiM Hm Hexact. unfold backoff.
    rewrite (backoff_after_closed_form policy (n - 1) HiM Hm Hexact).
    by replace (Z.of_nat (n - 1)) with (Z.of_nat n - 1)%Z by lia.
Qed.


Lemma count_pycall {A} P fn args (body : M A) w :
  P (EvCall fn args) = false -> (∀ e, P (EvRaised fn e) = false) ->
  count P (trace (pycall fn args body w)) = count P (trace (body w)).
Proof.
  intros Hc Hr. rewrite pycall_trace. unfold count. simpl. rewrite Hc.
  rewrite List.filter_app, length_app.
  destruct (outcome (body w)); simpl; [rewrite Hr|]; simpl; lia.
Qed.


(** C7, as the code has it. Under the [overwrite] policy without dry
    run, when the lookup returns a list whose first match has id
    [file_id], [update_file] is called exactly once, with that id and the
    local path, and [upload_file] is not called; [upsert_file_by_path]
    returns what [update_file] returns.  When the local file exists and
    the update request succeeds, that is the response of the service,
    unchanged, after exactly one request. *)
Theorem upsert_overwrite_updates_first_match
    (local_path : string) (drive_parent_id : option string) (w : World E)
    (first : pyval) (rest : list pyval) (file_id : pyval)
    (rf ru r : Run (World E) pyval) :
  find_file_by_name (path_name local_path) drive_parent_id w = rf ->
  outcome rf = inr (PList (first :: rest)) ->
  py_item first "id" = inr file_id ->
  update_file file_id local_path None (final rf) = ru ->
  upsert_file_by_path local_path drive_parent_id "overwrite" false w = r ->
  List.filter (is_call "update_file") (trace r)
  = [EvCall "update_file" [file_id; PStr local_path; PNone]]
  ∧ count (is_call "upload_file") (trace r) = 0%nat
  ∧ outcome r = outcome ru
  ∧ final r = final ru
  ∧ ∀ resp w',
      path_exists E local_path = true ->
      remote_exec E (FilesUpdate file_id (MediaFileUpload local_path None true)
                       "id,name,modifiedTime") (final rf) = (inr resp, w') ->
      outcome r = inr resp ∧ final r = w'
      ∧ List.filter is_remote (trace ru)
        = [EvRemote (FilesUpdate file_id (MediaFileUpload local_path None true)
                       "id,name,modifiedTime")].
Proof.
  intros Hfind Hrf Hid Hupdate Hupsert.
  assert ("overwrite" ≠ "skip") as Hskip by (intros [=]).
  assert ("overwrite" ≠ "new") as Hnew by (intros [=]).
  rewrite (upsert_update _ _ _ _ Hfind _ _ _ _ _ Hskip Hnew Hrf Hid Hupdate) in Hupsert.
  subst r. cbn [outcome final trace].
  pose proof (find_file_by_name_read_only (path_name local_path) drive_parent_id w) as Hro.
  rewrite Hfind in Hro.
  assert (Hraised : ∀ fn, List.filter (is_call fn)
                            match outcome ru with
                            | inl e => [EvRaised "upsert_file_by_path" e]
                            | inr _ => []
                            end = []).
  { intros fn. by destruct (outcome ru). }
  split; [|split; [|split; [|split]]].
  - cbn [List.filter is_call String.eqb Ascii.eqb Bool.eqb].
    rewrite !List.filter_app, Hraised, app_nil_r.
    rewrite (filter_quiet (is_call "update_file") (trace rf)).
    + rewrite <- Hupdate. apply update_file_calls.
    + revert Hro. apply forallb_impl. intros ev. by apply read_only_not_call.
  - unfold count. cbn [List.filter is_call String.eqb Ascii.eqb Bool.eqb].
    rewrite !List.filter_app, Hraised, app_nil_r.
    rewrite (filter_quiet (is_call "upload_file") (trace rf)).
    + rewrite filter_quiet; [reflexivity|].
      rewrite <- Hupdate. apply update_file_never_uploads.
    + revert Hro. apply forallb_impl. intros ev. by apply read_only_not_call.
  - reflexivity.
  - reflexivity.
  - intros resp w' Hexists Hexec.
    rewrite (update_file_succeeds _ _ _ _ _ _ Hexists Hexec) in Hupdate.
    subst ru. repeat split; reflexivity.
Qed.

(** C8. Whenever the lookup returns a non-empty list whose first match
    has id [file_id], any number of calls of [upsert_file_by_path] under
    the [skip] policy, with or without dry run, all return
    [{action: skip, file_id: file_id}], and the calls produce read-only
    events only: nothing is uploaded, updated, created or deleted. *)
Theorem upsert_skip_idempotent
    (local_path : string) (drive_parent_id : option string) (dry_run : bool)
    (file_id : pyval) (stable : World E -> Prop) (n : nat) (w : World E) :
  stable w ->
  (∀ w', stable w' ->
     stable (final (find_file_by_name (path_name local_path) drive_parent_id w'))
     ∧ ∃ first rest,
         outcome (find_file_by_name (path_name local_path) drive_parent_id w')
         = inr (PList (first :: rest))
         ∧ py_item first "id" = inr file_id) ->
  outcome (repeat_call n (upsert_file_by_path local_path drive_parent_id "skip" dry_run) w)
  = inr (replicate n (PDict {[ "action" := PStr "skip"; "file_id" := file_id ]}))
  ∧ forallb read_only
      (trace (repeat_call n (upsert_file_by_path local_path drive_parent_id "skip" dry_run) w))
    = true
  ∧ forallb (λ ev, negb (mutating ev))
      (trace (repeat_call n (upsert_file_by_path local_path drive_parent_id "skip" dry_run) w))
    = true.
Proof.
  intros Hw Hstable.
  set (skipped := PDict {[ "action" := PStr "skip"; "file_id" := file_id ]}).
  set (call := upsert_file_by_path local_path drive_parent_id "skip" dry_run).
  assert (H : outcome (repeat_call n call w) = inr (replicate n skipped)
              ∧ forallb read_only (trace (repeat_call n call w)) = true).
  { revert w Hw. induction n as [|n IH]; intros w Hw; [split; reflexivity|].
    destruct (Hstable w Hw) as (Hw' & first & rest & Hrf & Hid).
    pose proof (upsert_skip local_path drive_parent_id w _ eq_refl
                  dry_run first rest file_id Hrf Hid) as Hrun.
    fold call skipped in Hrun.
    pose proof (find_file_by_name_read_only (path_name local_path) drive_parent_id w) as Hro.
    revert Hw' Hrun Hro.
    generalize (find_file_by_name (path_name local_path) drive_parent_id w).
    intros rf Hw' Hrun Hro.
    destruct (IH _ Hw') as [Hout Htr].
    cbn [repeat_call].
    rewrite (bind_returned _ _ _ skipped) by (rewrite Hrun; reflexivity).
    rewrite Hrun. cbn [outcome final trace].
    rewrite (bind_returned _ _ _ (replicate n skipped)) by exact Hout.
    cbn [outcome final trace ret replicate]. split; [reflexivity|].
    cbn [forallb read_only existsb String.eqb Ascii.eqb Bool.eqb orb andb app].
    rewrite !forallb_app, Hro, Htr. reflexivity. }
  destruct H as [Hout Htr]. split; [exact Hout|]. split; [exact Htr|].
  by apply forallb_read_only_not_mutating.
Qed.

(** C10. For every conflict policy other than [skip] and [new],
    [upsert_file_by_path] has the outcome, the final world and, after
    the event of its own call, the events it has under [overwrite]: the
    value is never rejected.  With an existing match it reports
    [{action: update, file_id}] in a dry run and otherwise returns what
    [update_file] returns for the first match. *)
Theorem unknown_policy_behaves_as_overwrite
    (local_path : string) (drive_parent_id : option string) (conflict_policy : string)
    (dry_run : bool) (w : World E) (r r' rf : Run (World E) pyval) :
  conflict_policy ≠ "skip" ->
  conflict_policy ≠ "new" ->
  upsert_file_by_path local_path drive_parent_id conflict_policy dry_run w = r ->
  upsert_file_by_path local_path drive_parent_id "overwrite" dry_run w = r' ->
  find_file_by_name (path_name local_path) drive_parent_id w = rf ->
  (outcome r = outcome r' ∧ final r = final r' ∧ tail (trace r) = tail (trace r'))
  ∧ ∀ first rest file_id ru,
      outcome rf = inr (PList (first :: rest)) ->
      py_item first "id" = inr file_id ->
      update_file file_id local_path None (final rf) = ru ->
      if dry_run
      then outcome r = inr (PDict {[ "action" := PStr "update"; "file_id" := file_id ]})
           ∧ final r = final rf
      else outcome r = outcome ru ∧ final r = final ru.
Proof.
  intros Hskip Hnew Hr Hr' Hrf. split.
  - subst r r'. unfold upsert_file_by_path.
    rewrite !pycall_outcome, !pycall_final, !pycall_trace.
    destruct (String.eqb_spec conflict_policy "skip") as [|_]; [contradiction|].
    destruct (String.eqb_spec conflict_policy "new") as [|_]; [contradiction|].
    change ("overwrite" =? "skip")%string with false.
    change ("overwrite" =? "new")%string with false.
    repeat split; reflexivity.
  - intros first rest file_id ru Hout Hid Hru. destruct dry_run.
    + rewrite (upsert_update_dry_run _ _ _ _ Hrf _ _ _ _ Hskip Hnew Hout Hid) in Hr.
      subst r. split; reflexivity.
    + rewrite (upsert_update _ _ _ _ Hrf _ _ _ _ _ Hskip Hnew Hout Hid Hru) in Hr.
      subst r. split; reflexivity.
Qed.

(** C2. For an existing directory whose regular files all pass the
    filter, a run of [sync_folder] in which [upsert_file_by_path] raises
    for exactly one file returns, without raising, one record per
    regular file: exactly one error record [{path, error}], all the
    others success records [{path, result}]. *)
Theorem sync_folder_isolates_single_failure
    (drive_parent_id : option string) (mode : string)
    (filters : option (string -> exn + bool)) (dry_run : bool)
    (local_dir : string) (w : World E) (r : Run (World E) (list pyval)) :
  path_exists E local_dir = true ->
  path_is_dir E local_dir = true ->
  Forall (λ p, path_is_dir E p = false -> passes filters p) (path_rglob E local_dir) ->
  sync_folder drive_parent_id mode filters dry_run local_dir w = r ->
  count (is_raised "upsert_file_by_path") (trace r) = 1%nat ->
  ∃ results,
    outcome r = inr results
    ∧ length results = length (regular_files (path_rglob E local_dir))
    ∧ entries is_error_entry results = 1%nat
    ∧ entries is_success_entry results
      = (length (regular_files (path_rglob E local_dir)) - 1)%nat.
Proof.
  intros Hexists Hdir Hpass <- Hone.
  destruct (sync_folder_run drive_parent_id mode filters dry_run local_dir w _
              Hexists Hdir eq_refl) as [Hout Htrace].
  destruct (sync_loop_counts drive_parent_id mode filters dry_run
              (sorted (path_rglob E local_dir)) [] w _
              (sorted_Forall _ _ Hpass) eq_refl)
    as (results & Hloop & Herr & Hup & Hother).
  rewrite Htrace in Hone. rewrite Hout. clear Hout Htrace.
  revert Hone Hloop Herr Hup Hother.
  generalize (sync_loop drive_parent_id mode filters dry_run
                (sorted (path_rglob E local_dir)) [] w).
  intros rl Hone Hloop Herr Hup Hother.
  rewrite Hloop in Hone.
  change (EvCall ?f ?a :: EvLog ?l ?m :: ?t) with ([EvCall f a; EvLog l m] ++ t) in Hone.
  rewrite !count_app in Hone. cbn in Hone.
  assert (Hraised : count (is_raised "upsert_file_by_path") (trace rl) = 1%nat) by lia.
  exists results. split; [exact Hloop|].
  destruct (String.eqb_spec mode "upsert") as [Hmode|Hmode].
  - destruct (Hup Hmode) as [Hlen Hsucc].
    rewrite sorted_regular in Hlen, Hsucc. cbn in *. lia.
  - rewrite (Hother Hmode) in Hraised. discriminate.
Qed.

(** C6, as the code has it. A dry run of [sync_folder] over a
    directory whose only entry is one regular file, when the lookup
    finds no match, returns exactly one success record, whose result
    is [{action: create, name}]: the action is the label [create]; the
    label [dry_run_create] is that of the log record written on the
    way. *)
Theorem sync_dry_run_reports_create
    (drive_parent_id : option string) (filters : option (string -> exn + bool))
    (local_dir p : string) (w : World E) (rf : Run (World E) pyval) (matches : pyval)
    (r : Run (World E) (list pyval)) :
  path_exists E local_dir = true ->
  path_is_dir E local_dir = true ->
  path_rglob E local_dir = [p] ->
  path_is_dir E p = false ->
  passes filters p ->
  find_file_by_name (path_name p) drive_parent_id w = rf ->
  outcome rf = inr matches ->
  py_truthy matches = false ->
  sync_folder drive_parent_id "upsert" filters true local_dir w = r ->
  outcome r
  = inr [PDict {[ "path" := PStr p;
                  "result" := PDict {[ "action" := PStr "create";
                                       "name" := PStr (path_name p) ]} ]}]
  ∧ EvLog "info" "upsert:dry_run_create" ∈ trace r.
Proof.
  intros Hexists Hdir Hls Hp Hpass Hfind Hrf Hm <-.
  destruct (sync_folder_run drive_parent_id "upsert" filters true local_dir w _
              Hexists Hdir eq_refl) as [Hout Htrace].
  rewrite Hout, Htrace, Hls. clear Hout Htrace.
  change (sorted [p]) with [p].
  pose proof (upsert_dry_run_create p drive_parent_id w rf Hfind "overwrite" matches Hrf Hm)
    as Hupsert.
  pose proof (sync_file_run drive_parent_id "upsert" true p [] w _ Hupsert) as Hfile.
  cbn [String.eqb Ascii.eqb Bool.eqb outcome final trace app] in Hfile.
  rewrite (sync_loop_regular drive_parent_id "upsert" filters true p [] [] w _ Hp Hpass)
    by (rewrite Hfile; reflexivity).
  rewrite Hfile. cbn [sync_loop ret outcome final trace].
  split; [reflexivity|].
  do 2 apply list_elem_of_further. rewrite app_nil_r.
  apply elem_of_app. left.
  do 2 apply list_elem_of_further.
  apply elem_of_app. right. apply list_elem_of_here.
Qed.

(** * Further properties *)

Lemma count_cons P ev t :
  count P (ev :: t) = ((if P ev then 1 else 0) + count P t)%nat.
Proof. unfold count. simpl. by destruct (P ev). Qed.

Lemma bind_trace {A B} (m : M A) (k : A -> M B) w :
  trace (bind m k w)
  = trace (m w) ++ match outcome (m w) with
                   | inr a => trace (k a (final (m w)))
                   | inl _ => []
                   end.
Proof. unfold bind. destruct (outcome (m w)); simpl; [by rewrite app_nil_r|done]. Qed.

Lemma bind_outcome {A B} (m : M A) (k : A -> M B) w :
  outcome (bind m k w)
  = match outcome (m w) with
    | inr a => outcome (k a (final (m w)))
    | inl e => inl e
    end.
Proof. unfold bind. by destruct (outcome (m w)). Qed.

Lemma bind_final {A B} (m : M A) (k : A -> M B) w :
  final (bind m k w)
  = match outcome (m w) with
    | inr a => final (k a (final (m w)))
    | inl e => final (m w)
    end.
Proof. unfold bind. by destruct (outcome (m w)). Qed.

(** ** Any run of the retry loop *)

Section RetryRuns.
Local Open Scope Q_scope.
Context {A : Type}.
Variable policy : RetryPolicy.
Variable fn_name : string.
Variable fn : M A.

(** The sleep between two attempts either happens, once and capped, or
    is refused for its negative length. *)
Lemma backoff_sleep_cases backoff w :
  ∃ o w' tp,
    backoff_sleep policy backoff w = MkRun o w' tp
    ∧ forallb is_pause tp = true
    ∧ match o with
      | inr b => b = next_backoff policy backoff
                 ∧ ∃ s, sleeps tp = [s] ∧ s <= max_backoff policy
                        ∧ w' = elapse E s (if jitter policy then (random_random E w).2 else w)
      | inl e => sleeps tp = []
                 ∧ e = Exn ValueError "sleep length must be non-negative" None
      end.
Proof.
  unfold backoff_sleep, random_uniform, time_sleep, bind, ret.
  destruct (jitter policy).
  - destruct (random_random E w) as [u w1]. cbn [outcome final trace snd].
    destruct (Qle_bool 0 (Qmin (0 + fmul E (backoff - 0) (draw u)) (max_backoff policy)));
      cbn [outcome final trace app]; do 3 eexists; (split; [reflexivity|]);
      (split; [reflexivity|]).
    + split; [reflexivity|]. eexists. split; [reflexivity|].
      split; [apply Q.le_min_r|reflexivity].
    + split; reflexivity.
  - cbn [outcome final trace].
    destruct (Qle_bool 0 (Qmin backoff (max_backoff policy)));
      cbn [outcome final trace app]; do 3 eexists; (split; [reflexivity|]);
      (split; [reflexivity|]).
    + split; [reflexivity|]. eexists. split; [reflexivity|].
      split; [apply Q.le_min_r|reflexivity].
    + split; reflexivity.
Qed.

(** A sleep of negative length is refused. *)
Lemma backoff_sleep_refused backoff w :
  max_backoff policy < 0 ->
  ∃ tp, backoff_sleep policy backoff w
        = MkRun (inl (Exn ValueError "sleep length must be non-negative" None))
            (if jitter policy then (random_random E w).2 else w) tp
        ∧ forallb is_pause tp = true ∧ sleeps tp = [].
Proof.
  intros HM.
  assert (Hneg : ∀ x, Qle_bool 0 (Qmin x (max_backoff policy)) = false).
  { intros x. apply not_true_is_false. intros H%Qle_bool_iff.
    pose proof (Q.le_min_r x (max_backoff policy)). lra. }
  unfold backoff_sleep, random_uniform, time_sleep, bind, ret.
  destruct (jitter policy).
  - destruct (random_random E w) as [u w1]. cbn [outcome final trace snd].
    rewrite Hneg. cbn [outcome final trace app]. by eexists.
  - cbn [outcome final trace]. rewrite Hneg. cbn [outcome final trace app]. by eexists.
Qed.

(** Every run of the loop with enough fuel has the shape [loop_view]. *)
Lemma retry_loop_view fuel : ∀ attempt backoff last_exc w,
  (Z.to_nat (max_attempts policy - attempt) <= fuel)%nat ->
  loop_view policy fn_name (λ tb, ∃ w', tb = trace (fn w')) attempt
    (trace (retry_loop policy fn_name fn fuel attempt backoff last_exc w)).
Proof.
  induction fuel as [|fuel IH]; intros attempt backoff last_exc w Hfuel.
  { cbn [retry_loop]. apply view_exit. lia. }
  destruct (Z.ltb_spec attempt (max_attempts policy)) as [Hlt|Hge]; cycle 1.
  { cbn [retry_loop]. destruct (Z.ltb_spec attempt (max_attempts policy)); [lia|].
    by apply view_exit. }
  destruct (outcome (fn w)) as [e|a] eqn:Hfn.
  - destruct (retry_on_exceptions policy e) eqn:Hre.
    + rewrite (retry_loop_failed _ _ _ _ _ _ _ _ _ Hlt Hfn Hre). cbn zeta.
      destruct (Z.geb_spec (attempt + 1) (max_attempts policy)) as [Hlast|Hmore].
      * cbn [trace]. apply view_last; [done|by eexists|constructor].
      * cbn [trace]. rewrite bind_trace.
        destruct (backoff_sleep_cases backoff (final (fn w)))
          as (o & w' & tp & Hrun & Hpause & Ho).
        rewrite Hrun. cbn [outcome final trace].
        change (EvAttempt fn_name (attempt + 1) :: ?t) with ([EvAttempt fn_name (attempt + 1)] ++ t).
        rewrite <- !app_assoc. cbn [app].
        destruct o as [e'|b'].
        -- destruct Ho as [Hs _]. rewrite app_nil_r.
           apply (view_sleep_failed policy fn_name _ attempt (trace (fn w)) e tp);
             [lia|by eexists|done|done].
        -- destruct Ho as (-> & s & Hs & HsM & _).
           apply (view_step policy fn_name _ attempt (trace (fn w)) e tp s);
             [lia|by eexists|done|done|done|].
           apply IH. lia.
    + rewrite (retry_loop_uncaught _ _ _ _ _ _ _ _ _ Hlt Hfn Hre). cbn [trace].
      apply view_last; [done|by eexists|constructor].
  - rewrite (retry_loop_returned _ _ _ _ _ _ _ _ _ Hlt Hfn). cbn [trace].
    apply view_last; [done|by eexists|constructor].
Qed.

Lemma attempt_end_counts n l :
  attempt_end fn_name n l ->
  count (is_attempt fn_name) l = 0%nat ∧ sleeps l = [].
Proof. by intros []. Qed.

Lemma pause_counts tp :
  forallb is_pause tp = true -> count (is_attempt fn_name) tp = 0%nat.
Proof.
  intros H. apply count_quiet. revert H. apply forallb_impl. by intros [].
Qed.

Hypothesis fn_quiet : emits (λ ev, negb (retry_event fn_name ev)) fn.

Lemma quiet_attempts w : count (is_attempt fn_name) (trace (fn w)) = 0%nat.
Proof.
  apply count_quiet. generalize (fn_quiet w). apply forallb_impl. by intros [].
Qed.

(** The attempts and the sleeps of a run *)
Lemma loop_view_bounds attempt t :
  loop_view policy fn_name (λ tb, ∃ w', tb = trace (fn w')) attempt t ->
  (count (is_attempt fn_name) t <= Z.to_nat (max_attempts policy - attempt))%nat
  ∧ ((attempt < max_attempts policy)%Z ->
     (length (sleeps t) < count (is_attempt fn_name) t)%nat)
  ∧ ((max_attempts policy <= attempt)%Z -> t = [])
  ∧ Forall (λ s, s <= max_backoff policy) (sleeps t).
Proof.
  induction 1 as [a Ha | a tb l Ha [w' ->] Hl | a tb e tp Ha [w' ->] Hp Hs
                  | a tb e tp s rest Ha [w' ->] Hp Hs HsM Hrest IH].
  - repeat split; try done; try (cbn; lia).
  - destruct (attempt_end_counts _ _ Hl) as [Hl1 Hl2].
    rewrite count_cons, count_app, quiet_attempts, Hl1.
    change (EvAttempt fn_name (a + 1) :: ?t) with ([EvAttempt fn_name (a + 1)] ++ t).
    rewrite !sleeps_app, (sleeps_quiet fn_name _ (fn_quiet w')), Hl2.
    cbn [is_attempt]. rewrite String.eqb_refl. cbn.
    repeat split; try done; try lia; try (intros; lia).
  - rewrite count_cons, !count_app, quiet_attempts, (pause_counts _ Hp).
    change (EvAttempt fn_name (a + 1) :: ?t) with ([EvAttempt fn_name (a + 1)] ++ t).
    rewrite !sleeps_app, (sleeps_quiet fn_name _ (fn_quiet w')), Hs.
    cbn [is_attempt]. rewrite String.eqb_refl. cbn.
    repeat split; try done; try lia; try (intros; lia).
  - destruct IH as (IH1 & IH2 & IH3 & IH4).
    rewrite count_cons, !count_app, quiet_attempts, (pause_counts _ Hp).
    change (EvAttempt fn_name (a + 1) :: ?t) with ([EvAttempt fn_name (a + 1)] ++ t).
    rewrite !sleeps_app, (sleeps_quiet fn_name _ (fn_quiet w')), Hs.
    cbn [is_attempt]. rewrite String.eqb_refl. cbn [app length sleeps omap].
    rewrite length_app. cbn [length].
    split; [|split; [|split]].
    + cbn. lia.
    + intros _. specialize (IH2 Ha). cbn. lia.
    + intros; lia.
    + cbn. constructor; done.
Qed.
End RetryRuns.

(** ** Runs that recover, and runs that are cut short *)

Section RetryOutcomes.
Local Open Scope Q_scope.
Context {A : Type}.
Variable policy : RetryPolicy.
Variable fn_name : string.
Variable fn : M A.
Hypothesis fn_quiet : emits (λ ev, negb (retry_event fn_name ev)) fn.

Lemma quiet_sleeps w : sleeps (trace (fn w)) = [].
Proof. apply (sleeps_quiet fn_name), fn_quiet. Qed.

Lemma attempt_counts n w l :
  count (is_attempt fn_name) (EvAttempt fn_name n :: trace (fn w) ++ l)
  = S (count (is_attempt fn_name) l)
  ∧ sleeps (EvAttempt fn_name n :: trace (fn w) ++ l) = sleeps l.
Proof.
  rewrite count_cons, count_app, (quiet_attempts fn_name fn fn_quiet).
  cbn [is_attempt]. rewrite String.eqb_refl. split; [done|].
  change (EvAttempt fn_name n :: ?t) with ([EvAttempt fn_name n] ++ t).
  by rewrite !sleeps_app, quiet_sleeps.
Qed.

Section Recovery.
Variable left : World E -> nat.
Hypothesis fails : ∀ w n, left w = S n ->
  ∃ e, outcome (fn w) = inl e ∧ retry_on_exceptions policy e = true
       ∧ left (final (fn w)) = n.
Hypothesis returns : ∀ w, left w = 0%nat -> ∃ a, outcome (fn w) = inr a.
Hypothesis draw_left : ∀ w, left (random_random E w).2 = left w.
Hypothesis elapse_left : ∀ s w, left (elapse E s w) = left w.
Hypothesis multiplier_nonneg : 0 <= multiplier policy.
Hypothesis max_backoff_nonneg : 0 <= max_backoff policy.

Lemma recovering_run fuel : ∀ attempt backoff last_exc w,
  0 <= backoff ->
  (attempt + Z.of_nat (left w) < max_attempts policy)%Z ->
  (left w < fuel)%nat ->
  let r := retry_loop policy fn_name fn fuel attempt backoff last_exc w in
  ∃ w' a,
    left w' = 0%nat ∧ outcome (fn w') = inr a
    ∧ outcome r = inr a ∧ final r = final (fn w')
    ∧ count (is_attempt fn_name) (trace r) = S (left w)
    ∧ length (sleeps (trace r)) = left w.
Proof.
  induction fuel as [|fuel IH]; intros attempt backoff last_exc w Hb Hlt Hfuel; [lia|].
  destruct (left w) as [|n] eqn:Hw.
  - destruct (returns w Hw) as [a Ha]. cbv zeta.
    rewrite (retry_loop_returned _ _ _ _ _ _ _ _ a) by (done || lia).
    cbn [outcome final trace]. exists w, a.
    destruct (attempt_counts (attempt + 1) w [EvLog "debug" "retry_success"]) as [-> ->].
    done.
  - destruct (fails w n Hw) as (e & He & Hre & Hn). cbv zeta.
    rewrite (retry_loop_failed _ _ _ _ _ _ _ _ e) by (done || lia).
    cbn zeta.
    destruct (Z.geb_spec (attempt + 1) (max_attempts policy)) as [?|_]; [lia|].
    destruct (backoff_sleep_run policy backoff (final (fn w)) Hb max_backoff_nonneg)
      as (pause & w1 & Hrun & _).
    destruct (backoff_sleep_cases policy backoff (final (fn w)))
      as (o & w2 & tp & Hrun' & Hpause & Ho).
    rewrite Hrun in Hrun'. injection Hrun' as <- <- <-.
    destruct Ho as (_ & s & Hs & _ & Hw1).
    rewrite (bind_returned _ _ _ (next_backoff policy backoff)) by (by rewrite Hrun).
    rewrite Hrun. cbn [outcome final trace].
    assert (Hleft : left w1 = n).
    { rewrite Hw1, elapse_left. destruct (jitter policy); [by rewrite draw_left|done]. }
    destruct (IH (attempt + 1)%Z (next_backoff policy backoff) (Some e) w1)
      as (w' & a & H0 & Ha & Hout & Hfin & Hatt & Hsl).
    { by apply next_backoff_nonneg. }
    { lia. }
    { lia. }
    exists w', a. rewrite Hleft in Hatt, Hsl.
    split; [done|]. split; [done|]. split; [done|]. split; [done|].
    rewrite count_app, count_app, sleeps_app, sleeps_app.
    destruct (attempt_counts (attempt + 1) w
                [EvAttemptFailed fn_name (attempt + 1) e; EvLog "warning" "retry_error"])
      as [-> ->].
    rewrite (pause_counts fn_name _ Hpause), Hatt, Hs, !length_app, Hsl. cbn. split; lia.
Qed.
End Recovery.

Lemma refused_run fuel attempt backoff last_exc w e :
  (attempt + 1 < max_attempts policy)%Z ->
  outcome (fn w) = inl e ->
  retry_on_exceptions policy e = true ->
  max_backoff policy < 0 ->
  let r := retry_loop policy fn_name fn (S fuel) attempt backoff last_exc w in
  outcome r = inl (Exn ValueError "sleep length must be non-negative" None)
  ∧ count (is_attempt fn_name) (trace r) = 1%nat
  ∧ sleeps (trace r) = [].
Proof.
  intros Hlt He Hre HM. cbv zeta.
  rewrite (retry_loop_failed _ _ _ _ _ _ _ _ e) by (done || lia).
  cbn zeta.
  destruct (Z.geb_spec (attempt + 1) (max_attempts policy)) as [?|_]; [lia|].
  destruct (backoff_sleep_refused policy backoff (final (fn w)) HM) as (tp & Hrun & Hp & Hs).
  rewrite (bind_raised _ _ _ (Exn ValueError "sleep length must be non-negative" None))
    by (by rewrite Hrun).
  rewrite Hrun. cbn [outcome final trace]. split; [done|].
  rewrite count_app, sleeps_app.
  destruct (attempt_counts (attempt + 1) w
              [EvAttemptFailed fn_name (attempt + 1) e; EvLog "warning" "retry_error"])
    as [-> ->].
  by rewrite (pause_counts fn_name _ Hp), Hs.
Qed.
End RetryOutcomes.

(** X1. In every run of a wrapped function, whatever the body does, the
    body is executed at most [max_attempts] times and, when
    [max_attempts >= 1], at least once; the sleeps are fewer than the
    attempts; and no sleep is longer than [max_backoff]. *)
Theorem retry_attempts_bounded {A}
    (policy : RetryPolicy) (fn_name : string) (fn : M A) (w : World E) :
  emits (λ ev, negb (retry_event fn_name ev)) fn ->
  let t := trace (retry_on_transient policy fn_name fn w) in
  (count (is_attempt fn_name) t <= Z.to_nat (max_attempts policy))%nat
  ∧ ((1 <= max_attempts policy)%Z ->
     (1 <= count (is_attempt fn_name) t)%nat
     ∧ (length (sleeps t) < count (is_attempt fn_name) t)%nat)
  ∧ Forall (λ s, (s <= max_backoff policy)%Q) (sleeps t).
Proof.
  intros Hquiet t.
  pose proof (retry_loop_view policy fn_name fn (Z.to_nat (max_attempts policy)) 0
                (initial_backoff policy) None w) as Hview.
  fold (retry_on_transient policy fn_name fn w) in Hview. fold t in Hview.
  destruct (loop_view_bounds policy fn_name fn Hquiet 0 t) as (H1 & H2 & _ & H4).
  { apply Hview. lia. }
  split; [|split; [|done]].
  - by rewrite Z.sub_0_r in H1.
  - intros Hmax. specialize (H2 ltac:(lia)). lia.
Qed.

(** X2. When the body fails [j] times with exceptions the policy retries
    and then returns, and [j < max_attempts], the wrapper returns what the
    body returned at its last execution, after [j + 1] attempts and [j]
    sleeps.  The failures still to come are counted by [left], which the
    random generator and the clock do not change. *)
Theorem retry_recovers_after_failures {A}
    (policy : RetryPolicy) (fn_name : string) (fn : M A)
    (left : World E -> nat) (w : World E) :
  emits (λ ev, negb (retry_event fn_name ev)) fn ->
  (∀ w' n, left w' = S n ->
     ∃ e, outcome (fn w') = inl e ∧ retry_on_exceptions policy e = true
          ∧ left (final (fn w')) = n) ->
  (∀ w', left w' = 0%nat -> ∃ a, outcome (fn w') = inr a) ->
  (∀ w', left (random_random E w').2 = left w') ->
  (∀ s w', left (elapse E s w') = left w') ->
  (0 <= initial_backoff policy)%Q ->
  (0 <= multiplier policy)%Q ->
  (0 <= max_backoff policy)%Q ->
  (Z.of_nat (left w) < max_attempts policy)%Z ->
  let r := retry_on_transient policy fn_name fn w in
  ∃ w' a,
    left w' = 0%nat ∧ outcome (fn w') = inr a
    ∧ outcome r = inr a ∧ final r = final (fn w')
    ∧ count (is_attempt fn_name) (trace r) = S (left w)
    ∧ length (sleeps (trace r)) = left w.
Proof.
  intros Hquiet Hfails Hreturns Hdraw Helapse Hi Hm HM Hlt.
  apply (recovering_run policy fn_name fn Hquiet left Hfails Hreturns Hdraw Helapse Hm HM);
    [done|lia|lia].
Qed.

(** X3. With [max_attempts <= 0] the body is never executed: the wrapper
    raises [DriveAPIError] reporting 0 attempts, without a cause, and the
    run has no event. *)
Theorem retry_without_attempts {A}
    (policy : RetryPolicy) (fn_name : string) (fn : M A) (w : World E) :
  (max_attempts policy <= 0)%Z ->
  retry_on_transient policy fn_name fn w
  = MkRun (inl (Exn DriveAPIError ("Function " +:+ fn_name +:+ " failed after 0 attempts") None))
      w [].
Proof.
  intros Hmax. unfold retry_on_transient.
  destruct (Z.to_nat (max_attempts policy)) eqn:Hn; [reflexivity|lia].
Qed.

(** X4. An exception the policy does not retry leaves the wrapper as it
    is, after the one attempt: it is not wrapped in [DriveAPIError],
    nothing is logged by the wrapper and there is no sleep. *)
Theorem retry_unmatched_exception_propagates {A}
    (policy : RetryPolicy) (fn_name : string) (fn : M A) (w : World E) (e : exn) :
  (1 <= max_attempts policy)%Z ->
  outcome (fn w) = inl e ->
  retry_on_exceptions policy e = false ->
  retry_on_transient policy fn_name fn w
  = MkRun (inl e) (final (fn w))
      (EvAttempt fn_name 1 :: trace (fn w) ++ [EvAttemptFailed fn_name 1 e]).
Proof.
  intros Hmax He Hre. unfold retry_on_transient.
  destruct (Z.to_nat (max_attempts policy)) as [|fuel] eqn:Hn; [lia|].
  by rewrite (retry_loop_uncaught policy fn_name fn fuel 0 _ None w e) by (done || lia).
Qed.

(** X5. Under a policy with a negative [max_backoff] and room for a
    second attempt, a first failure ends the run: [time.sleep] refuses
    the negative length, and its [ValueError] leaves the wrapper after one
    attempt and no sleep, in place of the [DriveAPIError]. *)
Theorem retry_negative_backoff_raises {A}
    (policy : RetryPolicy) (fn_name : string) (fn : M A) (w : World E) (e : exn) :
  emits (λ ev, negb (retry_event fn_name ev)) fn ->
  (2 <= max_attempts policy)%Z ->
  (max_backoff policy < 0)%Q ->
  outcome (fn w) = inl e ->
  retry_on_exceptions policy e = true ->
  let r := retry_on_transient policy fn_name fn w in
  outcome r = inl (Exn ValueError "sleep length must be non-negative" None)
  ∧ count (is_attempt fn_name) (trace r) = 1%nat
  ∧ sleeps (trace r) = [].
Proof.
  intros Hquiet Hmax HM He Hre. unfold retry_on_transient.
  destruct (Z.to_nat (max_attempts policy)) as [|fuel] eqn:Hn; [lia|].
  apply (refused_run policy fn_name fn Hquiet fuel 0 _ None w e); done || lia.
Qed.

(** ** The decorated operations *)

Lemma try_except_trace {A} catches (m : M A) handler w :
  trace (try_except catches m handler w)
  = trace (m w) ++ match outcome (m w) with
                   | inl e => if catches e then trace (handler e (final (m w))) else []
                   | inr _ => []
                   end.
Proof.
  unfold try_except. destruct (outcome (m w)) as [e|a]; [|by rewrite app_nil_r].
  destruct (catches e); [done|by rewrite app_nil_r].
Qed.

Lemma remote_trace c w : trace (remote c w) = [EvRemote c].
Proof. unfold remote. by destruct (remote_exec E c w). Qed.

Lemma remote_outcome c w : outcome (remote c w) = (remote_exec E c w).1.
Proof. unfold remote. by destruct (remote_exec E c w). Qed.

Lemma remote_final c w : final (remote c w) = (remote_exec E c w).2.
Proof. unfold remote. by destruct (remote_exec E c w). Qed.

(** A body that logs, sends one request and handles its failure sends
    that request and no other. *)
Lemma request_block_requests {A} level message c (k : pyval -> M A) (h : exn -> M A) w :
  (∀ v, emits (λ ev, negb (is_remote ev)) (k v)) ->
  (∀ e, emits (λ ev, negb (is_remote ev)) (h e)) ->
  List.filter is_remote
    (trace (bind (log_event level message)
              (λ _, try_except any_exception (bind (remote c) k) h) w))
  = [EvRemote c].
Proof.
  intros Hk Hh. rewrite bind_trace. cbn [log_event emit outcome final trace app].
  rewrite try_except_trace, bind_trace, remote_trace.
  cbn [app List.filter is_remote]. f_equal.
  rewrite List.filter_app.
  assert (H1 : List.filter is_remote
                 (match outcome (remote c w) with
                  | inl _ => []
                  | inr a => trace (k a (final (remote c w)))
                  end) = []).
  { destruct (outcome (remote c w)); [done|]. apply filter_quiet, Hk. }
  rewrite H1. cbn [app].
  destruct (outcome (bind (remote c) k w)) as [e|]; [|done].
  cbn [any_exception]. apply filter_quiet, Hh.
Qed.

Lemma concat_replicate_singleton {X} n (x : X) : concat (replicate n [x]) = replicate n x.
Proof. induction n as [|n IH]; simpl; [done|]. by rewrite IH. Qed.

Section RetryBody.
Context {A : Type}.
Variable policy : RetryPolicy.
Variable fn_name : string.
Variable fn : M A.

(** What the wrapper returns, the body returned at its last execution. *)
Lemma retry_loop_returns_body fuel : ∀ attempt backoff last_exc w a,
  outcome (retry_loop policy fn_name fn fuel attempt backoff last_exc w) = inr a ->
  ∃ w', outcome (fn w') = inr a
        ∧ final (retry_loop policy fn_name fn fuel attempt backoff last_exc w)
          = final (fn w').
Proof.
  induction fuel as [|fuel IH]; intros attempt backoff last_exc w a; [done|].
  destruct (Z.ltb_spec attempt (max_attempts policy)) as [Hlt|Hge]; cycle 1.
  { cbn [retry_loop]. destruct (Z.ltb_spec attempt (max_attempts policy)); [lia|done]. }
  destruct (outcome (fn w)) as [e|a'] eqn:Hfn.
  - destruct (retry_on_exceptions policy e) eqn:Hre.
    + rewrite (retry_loop_failed _ _ _ _ _ _ _ _ _ Hlt Hfn Hre). cbn zeta.
      destruct (attempt + 1 >=? max_attempts policy)%Z; [done|].
      cbn [outcome final]. rewrite bind_outcome, bind_final.
      destruct (backoff_sleep_cases policy backoff (final (fn w)))
        as (o & w' & tp & Hrun & _ & _).
      rewrite Hrun. cbn [outcome final]. destruct o; [done|]. apply IH.
    + by rewrite (retry_loop_uncaught _ _ _ _ _ _ _ _ _ Hlt Hfn Hre).
  - rewrite (retry_loop_returned _ _ _ _ _ _ _ _ _ Hlt Hfn). cbn [outcome final].
    intros [= <-]. by exists w.
Qed.

Hypothesis fn_quiet : emits (λ ev, negb (retry_event fn_name ev)) fn.

(** What the attempts of a run produce, when each execution of the
    body produces [l] *)
Lemma loop_view_filter (P : event -> bool) l attempt t :
  (∀ ev, retry_event fn_name ev = true -> P ev = false) ->
  (∀ level message, P (EvLog level message) = false) ->
  (∀ w, List.filter P (trace (fn w)) = l) ->
  loop_view policy fn_name (λ tb, ∃ w', tb = trace (fn w')) attempt t ->
  List.filter P t = concat (replicate (count (is_attempt fn_name) t) l).
Proof.
  intros Hretry Hlog Hbody.
  assert (Hpause : ∀ tp, forallb is_pause tp = true -> List.filter P tp = []).
  { intros tp Htp. apply filter_quiet. revert Htp. apply forallb_impl.
    intros ev Hev. rewrite Hretry; [done|]. by destruct ev. }
  assert (Hend : ∀ n l', attempt_end fn_name n l' -> List.filter P l' = []).
  { intros n l' []; cbn [List.filter];
      rewrite ?Hlog, ?Hretry; try done; cbn; by rewrite String.eqb_refl. }
  assert (Hatt : ∀ n, P (EvAttempt fn_name n) = false).
  { intros n. apply Hretry. cbn. by rewrite String.eqb_refl. }
  assert (Hfail : ∀ n e, P (EvAttemptFailed fn_name n e) = false).
  { intros n e. apply Hretry. cbn. by rewrite String.eqb_refl. }
  induction 1 as [a Ha | a tb l' Ha [w' ->] Hl | a tb e tp Ha [w' ->] Hp Hs
                  | a tb e tp s rest Ha [w' ->] Hp Hs HsM Hrest IH].
  - done.
  - destruct (attempt_end_counts fn_name _ _ Hl) as [Hl1 _].
    rewrite count_cons, count_app, (quiet_attempts fn_name fn fn_quiet), Hl1.
    cbn [is_attempt List.filter]. rewrite String.eqb_refl, Hatt.
    rewrite List.filter_app, Hbody, (Hend _ _ Hl). cbn. by rewrite !app_nil_r.
  - rewrite count_cons, !count_app, (quiet_attempts fn_name fn fn_quiet),
      (pause_counts fn_name _ Hp).
    cbn [is_attempt List.filter]. rewrite String.eqb_refl, Hatt.
    rewrite !List.filter_app, Hbody, (Hpause _ Hp). cbn [List.filter].
    rewrite Hfail, Hlog. cbn. by rewrite !app_nil_r.
  - rewrite count_cons, !count_app, (quiet_attempts fn_name fn fn_quiet),
      (pause_counts fn_name _ Hp).
    cbn [is_attempt List.filter]. rewrite String.eqb_refl, Hatt.
    rewrite !List.filter_app, Hbody, (Hpause _ Hp), IH. cbn [List.filter].
    rewrite Hfail, Hlog. cbn. done.
Qed.
End RetryBody.

(** A decorated operation makes one to six attempts. *)
Lemma decorated_attempts {A} fn_name args (body : M A) w :
  emits (λ ev, negb (retry_event fn_name ev)) body ->
  let t := trace (pycall fn_name args (retry_on_transient default_policy fn_name body) w) in
  (1 <= count (is_attempt fn_name) t <= 6)%nat.
Proof.
  intros Hquiet t.
  pose proof (retry_loop_view default_policy fn_name body 6 0 1%Q None w ltac:(simpl; lia))
    as Hview.
  change (retry_loop default_policy fn_name body 6 0 1%Q None)
    with (retry_on_transient default_policy fn_name body) in Hview.
  unfold t. rewrite count_pycall by done.
  destruct (loop_view_bounds default_policy fn_name body Hquiet 0 _ Hview)
    as (H1 & H2 & _).
  specialize (H2 ltac:(done)). simpl in H1. lia.
Qed.

(** A decorated operation whose body sends the request [c] once: one
    request per attempt, and one to six attempts. *)
Lemma decorated_requests {A} fn_name args (body : M A) c w :
  emits (λ ev, negb (retry_event fn_name ev)) body ->
  (∀ w', List.filter is_remote (trace (body w')) = [EvRemote c]) ->
  let t := trace (pycall fn_name args (retry_on_transient default_policy fn_name body) w) in
  List.filter is_remote t = replicate (count (is_attempt fn_name) t) (EvRemote c)
  ∧ (1 <= count (is_attempt fn_name) t <= 6)%nat.
Proof.
  intros Hquiet Hbody t.
  pose proof (retry_loop_view default_policy fn_name body 6 0 1%Q None w ltac:(simpl; lia))
    as Hview.
  change (retry_loop default_policy fn_name body 6 0 1%Q None)
    with (retry_on_transient default_policy fn_name body) in Hview.
  assert (Hatt : count (is_attempt fn_name) t
                 = count (is_attempt fn_name)
                     (trace (retry_on_transient default_policy fn_name body w))).
  { unfold t. by rewrite count_pycall. }
  split.
  - rewrite Hatt. unfold t. rewrite pycall_trace.
    cbn [List.filter is_remote]. rewrite List.filter_app.
    rewrite (loop_view_filter default_policy fn_name body Hquiet is_remote [EvRemote c] 0 _
               ltac:(by intros []) ltac:(done) Hbody Hview).
    rewrite concat_replicate_singleton.
    destruct (outcome _); by rewrite app_nil_r.
  - rewrite Hatt.
    destruct (loop_view_bounds default_policy fn_name body Hquiet 0 _ Hview)
      as (H1 & H2 & _).
    specialize (H2 ltac:(done)). simpl in H1. lia.
Qed.

Lemma list_files_body_quiet q page_size :
  emits (λ ev, negb (retry_event "list_files" ev)) (list_files_body q page_size).
Proof. unfold list_files_body. emits_auto. Qed.

Lemma list_files_body_requests q page_size w :
  List.filter is_remote (trace (list_files_body q page_size w))
  = [EvRemote (list_request q page_size)].
Proof.
  unfold list_files_body. apply request_block_requests; intros ?; emits_auto.
Qed.

Lemma create_folder_body_quiet name parent_id :
  emits (λ ev, negb (retry_event "create_folder" ev)) (create_folder_body name parent_id).
Proof. unfold create_folder_body. emits_auto. Qed.

Lemma create_folder_body_requests name parent_id w :
  List.filter is_remote (trace (create_folder_body name parent_id w))
  = [EvRemote (folder_request name parent_id "id,name,parents")].
Proof.
  unfold create_folder_body. cbv zeta.
  apply request_block_requests; intros ?; emits_auto.
Qed.

Lemma delete_file_body_quiet file_id :
  emits (λ ev, negb (retry_event "delete_file" ev)) (delete_file_body file_id).
Proof. unfold delete_file_body. emits_auto. Qed.

Lemma delete_file_body_requests file_id w :
  List.filter is_remote (trace (delete_file_body file_id w))
  = [EvRemote (FilesDelete file_id)].
Proof.
  unfold delete_file_body. apply request_block_requests; intros ?; emits_auto.
Qed.

Lemma upload_file_body_quiet local_path parent_id mime_type resumable :
  emits (λ ev, negb (retry_event "upload_file" ev))
    (upload_file_body local_path parent_id mime_type resumable).
Proof. unfold upload_file_body. emits_auto. Qed.

Lemma upload_file_body_requests local_path parent_id mime_type resumable w :
  path_exists E local_path = true ->
  List.filter is_remote (trace (upload_file_body local_path parent_id mime_type resumable w))
  = [EvRemote (upload_request local_path parent_id mime_type resumable)].
Proof.
  intros Hexists. unfold upload_file_body. rewrite Hexists. cbv zeta. cbn [negb].
  apply request_block_requests; intros ?; emits_auto.
Qed.

Lemma update_file_body_quiet file_id local_path mime_type :
  emits (λ ev, negb (retry_event "update_file" ev))
    (update_file_body file_id local_path mime_type).
Proof. unfold update_file_body. emits_auto. Qed.

Lemma update_file_body_requests file_id local_path mime_type w :
  path_exists E local_path = true ->
  List.filter is_remote (trace (update_file_body file_id local_path mime_type w))
  = [EvRemote (update_request file_id local_path mime_type)].
Proof.
  intros Hexists. unfold update_file_body. rewrite Hexists. cbv zeta. cbn [negb].
  apply request_block_requests; intros ?; emits_auto.
Qed.

(** X6. [list_files], [create_folder] and [delete_file] send one request
    per attempt, the same each time, and make one to six attempts: a
    call sends its request at most six times. *)
Theorem one_request_per_attempt
    (q : option string) (page_size : Z) (name : string) (parent_id : option string)
    (file_id : pyval) (w : World E) :
  let t1 := trace (list_files q page_size w) in
  let t2 := trace (create_folder name parent_id w) in
  let t3 := trace (delete_file file_id w) in
  (List.filter is_remote t1
   = replicate (count (is_attempt "list_files") t1) (EvRemote (list_request q page_size))
   ∧ (1 <= count (is_attempt "list_files") t1 <= 6)%nat)
  ∧ (List.filter is_remote t2
     = replicate (count (is_attempt "create_folder") t2)
         (EvRemote (folder_request name parent_id "id,name,parents"))
     ∧ (1 <= count (is_attempt "create_folder") t2 <= 6)%nat)
  ∧ (List.filter is_remote t3
     = replicate (count (is_attempt "delete_file") t3) (EvRemote (FilesDelete file_id))
     ∧ (1 <= count (is_attempt "delete_file") t3 <= 6)%nat).
Proof.
  cbv zeta. split; [|split].
  - apply decorated_requests; [apply list_files_body_quiet|].
    intros w'. apply list_files_body_requests.
  - apply decorated_requests; [apply create_folder_body_quiet|].
    intros w'. apply create_folder_body_requests.
  - apply decorated_requests; [apply delete_file_body_quiet|].
    intros w'. apply delete_file_body_requests.
Qed.

(** ** What the operations make of the answers *)

Lemma try_except_outcome {A} catches (m : M A) handler w :
  outcome (try_except catches m handler w)
  = match outcome (m w) with
    | inl e => if catches e then outcome (handler e (final (m w))) else inl e
    | inr a => inr a
    end.
Proof.
  unfold try_except. destruct (outcome (m w)) as [e|a] eqn:H; [|done].
  by destruct (catches e).
Qed.

(** The outcome of a body that logs, sends one request and re-raises
    what fails *)
Lemma request_block_outcome {A} level message c (k : pyval -> M A) (h : exn -> M A) w :
  (∀ e w', outcome (h e w') = inl e) ->
  outcome (bind (log_event level message)
             (λ _, try_except any_exception (bind (remote c) k) h) w)
  = match (remote_exec E c w).1 with
    | inl e => inl e
    | inr resp => outcome (k resp (remote_exec E c w).2)
    end.
Proof.
  intros Hh. rewrite bind_outcome. cbn [log_event emit outcome final].
  rewrite try_except_outcome, bind_outcome, remote_outcome, remote_final.
  destruct (remote_exec E c w).1 as [e|resp]; [apply Hh|].
  destruct (outcome (k resp (remote_exec E c w).2)) as [e|a]; [apply Hh|done].
Qed.

Lemma log_raise_outcome {A} level message e w :
  outcome (bind (log_event level message) (λ _, @raise A e) w) = inl e.
Proof. reflexivity. Qed.

Lemma list_files_body_outcome q page_size w :
  outcome (list_files_body q page_size w)
  = match (remote_exec E (list_request q page_size) w).1 with
    | inl e => inl e
    | inr resp =>
        match py_get resp "files" (PList []) with
        | inl e => inl e
        | inr files => match py_len files with inl e => inl e | inr _ => inr files end
        end
    end.
Proof.
  unfold list_files_body. rewrite request_block_outcome by (intros; apply log_raise_outcome).
  fold (list_request q page_size).
  destruct (remote_exec E (list_request q page_size) w).1 as [e|resp]; [done|].
  generalize (remote_exec E (list_request q page_size) w).2. intros w'.
  unfold bind, lift, log_event, emit, ret, raise.
  destruct (py_get resp "files" (PList [])) as [e|files]; cbn [outcome final trace]; [done|].
  by destruct (py_len files).
Qed.

Lemma upload_file_body_outcome local_path parent_id mime_type resumable w :
  outcome (upload_file_body local_path parent_id mime_type resumable w)
  = if path_exists E local_path then
      match (remote_exec E (upload_request local_path parent_id mime_type resumable) w).1 with
      | inl e => inl e
      | inr resp => match py_get resp "id" PNone with inl e => inl e | inr _ => inr resp end
      end
    else inl (Exn DriveAPIError ("Local file not found: " +:+ local_path) None).
Proof.
  unfold upload_file_body. destruct (path_exists E local_path); cbn [negb]; [|reflexivity].
  cbv zeta. rewrite request_block_outcome by (intros; apply log_raise_outcome).
  fold (upload_request local_path parent_id mime_type resumable).
  destruct (remote_exec E _ w).1 as [e|resp]; [done|].
  generalize (remote_exec E (upload_request local_path parent_id mime_type resumable) w).2.
  intros w'. unfold bind, lift, log_event, emit, ret, raise.
  by destruct (py_get resp "id" PNone).
Qed.

Lemma update_file_body_outcome file_id local_path mime_type w :
  outcome (update_file_body file_id local_path mime_type w)
  = if path_exists E local_path then
      (remote_exec E (update_request file_id local_path mime_type) w).1
    else inl (Exn DriveAPIError ("Local file not found: " +:+ local_path) None).
Proof.
  unfold update_file_body. destruct (path_exists E local_path); cbn [negb]; [|reflexivity].
  cbv zeta. rewrite request_block_outcome by (intros; apply log_raise_outcome).
  fold (update_request file_id local_path mime_type).
  destruct (remote_exec E _ w).1 as [e|resp]; [done|].
  generalize (remote_exec E (update_request file_id local_path mime_type) w).2.
  intros w'. reflexivity.
Qed.

Lemma create_folder_body_outcome name parent_id w :
  outcome (create_folder_body name parent_id w)
  = match (remote_exec E (folder_request name parent_id "id,name,parents") w).1 with
    | inl e => inl e
    | inr resp => match py_get resp "id" PNone with inl e => inl e | inr _ => inr resp end
    end.
Proof.
  unfold create_folder_body. cbv zeta.
  rewrite request_block_outcome by (intros; apply log_raise_outcome).
  fold (folder_request name parent_id "id,name,parents").
  destruct (remote_exec E _ w).1 as [e|resp]; [done|].
  generalize (remote_exec E (folder_request name parent_id "id,name,parents") w).2.
  intros w'. unfold bind, lift, log_event, emit, ret, raise.
  by destruct (py_get resp "id" PNone).
Qed.

Lemma delete_file_body_outcome file_id w :
  outcome (delete_file_body file_id w)
  = match (remote_exec E (FilesDelete file_id) w).1 with
    | inl e => inl e
    | inr _ => inr PNone
    end.
Proof.
  unfold delete_file_body.
  rewrite request_block_outcome by (intros; apply log_raise_outcome).
  by destruct (remote_exec E _ w).1.
Qed.

Lemma py_get_not_dict v key default :
  (∀ d, v ≠ PDict d) ->
  py_get v key default = inl (Exn AttributeError "object has no attribute 'get'" None).
Proof. intros Hv. destruct v as [| | | | |d]; try done. by destruct (Hv d). Qed.

(** A body that always fails, under the default policy: six attempts,
    then [DriveAPIError] from the exception of one of its executions. *)
Lemma retry_default_always_fails {A} fn_name (body : M A) w :
  (∀ w', ∃ e, outcome (body w') = inl e) ->
  emits (λ ev, negb (retry_event fn_name ev)) body ->
  let r := retry_on_transient default_policy fn_name body w in
  count (is_attempt fn_name) (trace r) = 6%nat
  ∧ ∃ elast w',
      outcome (body w') = inl elast
      ∧ outcome r
        = inl (Exn DriveAPIError ("Function " +:+ fn_name +:+ " failed after 6 attempts")
                 (Some elast)).
Proof.
  intros Hfails Hquiet r.
  assert (Hfails' : ∀ w', ∃ e, outcome (body w') = inl e
                               ∧ retry_on_exceptions default_policy e = true).
  { intros w'. destruct (Hfails w') as [e He]. by exists e. }
  destruct (failing_run default_policy fn_name body Hfails' Hquiet
              ltac:(done) ltac:(done) 6 0%Z 1%Q None w)
    as (elast & Hview & Hout & w' & Hlast); [done|done|done|].
  change (retry_loop default_policy fn_name body 6 0 1 None w) with r in Hview, Hout.
  split.
  - unfold count. rewrite <- (filter_filter_sub _ (retry_event fn_name)).
    + fold (count (is_attempt fn_name) (List.filter (retry_event fn_name) (trace r))).
      by rewrite (failing_view_attempts _ _ _ _ _ _ Hview).
    + by intros [].
  - by exists elast, w'.
Qed.

(** What a decorated operation returns, its body returned. *)
Lemma decorated_returns {A} policy fn_name args (body : M A) w a :
  outcome (pycall fn_name args (retry_on_transient policy fn_name body) w) = inr a ->
  ∃ w', outcome (body w') = inr a.
Proof.
  rewrite pycall_outcome. unfold retry_on_transient. intros Hv.
  destruct (retry_loop_returns_body policy fn_name body _ _ _ _ _ _ Hv) as (w' & Hbody & _).
  by exists w'.
Qed.

(** A body that logs and sends one request, when the request is answered
    and what follows returns *)
Lemma request_block_returned {A} level message c (k : pyval -> M A) (h : exn -> M A)
    w resp w' a w'' tk :
  remote_exec E c w = (inr resp, w') ->
  k resp w' = MkRun (inr a) w'' tk ->
  bind (log_event level message) (λ _, try_except any_exception (bind (remote c) k) h) w
  = MkRun (inr a) w'' (EvLog level message :: EvRemote c :: tk).
Proof.
  intros Hexec Hk.
  assert (Hremote : remote c w = MkRun (inr resp) w' [EvRemote c]).
  { unfold remote. by rewrite Hexec. }
  assert (Hbind : bind (remote c) k w = MkRun (inr a) w'' (EvRemote c :: tk)).
  { rewrite (bind_returned _ _ _ resp) by (by rewrite Hremote).
    rewrite Hremote. cbn [outcome final trace]. by rewrite Hk. }
  unfold bind at 1, log_event, emit, try_except. cbn [outcome final trace].
  by rewrite Hbind.
Qed.

(** A decorated operation whose body returns at the first attempt *)
Lemma decorated_first_attempt {A} fn_name args (body : M A) w a w' tb :
  body w = MkRun (inr a) w' tb ->
  pycall fn_name args (retry_on_transient default_policy fn_name body) w
  = MkRun (inr a) w'
      (EvCall fn_name args :: EvAttempt fn_name 1 :: tb ++ [EvLog "debug" "retry_success"]).
Proof.
  intros Hbody.
  assert (Hretry : retry_on_transient default_policy fn_name body w
                   = MkRun (inr a) w'
                       (EvAttempt fn_name 1 :: tb ++ [EvLog "debug" "retry_success"])).
  { change (retry_on_transient default_policy fn_name body)
      with (retry_loop default_policy fn_name body 6 0 1 None).
    rewrite (retry_loop_returned default_policy fn_name body 5 0 1%Q None w a)
      by (done || by rewrite Hbody).
    by rewrite Hbody. }
  rewrite (pycall_returned _ _ _ _ a) by (by rewrite Hretry).
  by rewrite Hretry.
Qed.

(** The requests of a transfer: the same request, at most once per
    attempt, and at least once when the call returns *)
Lemma transfer_requests fn_name args (body : M pyval) c (exists_ : bool) w :
  emits (λ ev, negb (retry_event fn_name ev)) body ->
  (exists_ = true -> ∀ w', List.filter is_remote (trace (body w')) = [EvRemote c]) ->
  (exists_ = false -> emits (λ ev, negb (is_remote ev)) body) ->
  (∀ w' v, outcome (body w') = inr v -> exists_ = true) ->
  let r := pycall fn_name args (retry_on_transient default_policy fn_name body) w in
  ∃ m,
    List.filter is_remote (trace r) = replicate m (EvRemote c)
    ∧ (m <= count (is_attempt fn_name) (trace r))%nat
    ∧ (1 <= count (is_attempt fn_name) (trace r) <= 6)%nat
    ∧ match outcome r with inr _ => (1 <= m)%nat | inl _ => True end.
Proof.
  intros Hquiet Hyes Hno Hreturns r.
  pose proof (decorated_attempts fn_name args body w Hquiet) as Hatt. cbv zeta in Hatt.
  fold r in Hatt.
  destruct exists_.
  - destruct (decorated_requests fn_name args body c w Hquiet (Hyes eq_refl)) as [Hreq _].
    fold r in Hreq. exists (count (is_attempt fn_name) (trace r)).
    split; [exact Hreq|]. split; [lia|]. split; [exact Hatt|].
    destruct (outcome r); [done|lia].
  - exists 0%nat. split; [|split; [lia|split; [exact Hatt|]]].
    + cbn [replicate]. apply filter_quiet. unfold r.
      apply emits_pycall; [done|done|]. apply emits_retry; try done. by apply Hno.
    + destruct (outcome r) as [e|v] eqn:Hout; [done|].
      destruct (decorated_returns _ _ _ _ _ _ Hout) as (w' & Hbody).
      by specialize (Hreturns _ _ Hbody).
Qed.

(** X7. In every run, [upload_file] and [update_file] send the same
    request each time, at most once per attempt, and make one to six
    attempts; a call that returns has sent its request at least once. *)
Theorem transfer_request_per_attempt
    (local_path : string) (parent_id mime_type : option string) (resumable : bool)
    (file_id : pyval) (w : World E) :
  let r1 := upload_file local_path parent_id mime_type resumable w in
  let r2 := update_file file_id local_path mime_type w in
  (∃ m,
     List.filter is_remote (trace r1)
     = replicate m (EvRemote (upload_request local_path parent_id mime_type resumable))
     ∧ (m <= count (is_attempt "upload_file") (trace r1))%nat
     ∧ (1 <= count (is_attempt "upload_file") (trace r1) <= 6)%nat
     ∧ match outcome r1 with inr _ => (1 <= m)%nat | inl _ => True end)
  ∧ (∃ m,
       List.filter is_remote (trace r2)
       = replicate m (EvRemote (update_request file_id local_path mime_type))
       ∧ (m <= count (is_attempt "update_file") (trace r2))%nat
       ∧ (1 <= count (is_attempt "update_file") (trace r2) <= 6)%nat
       ∧ match outcome r2 with inr _ => (1 <= m)%nat | inl _ => True end).
Proof.
  cbv zeta. split.
  - apply (transfer_requests "upload_file" _ _ _ (path_exists E local_path)).
    + apply upload_file_body_quiet.
    + intros Hexists w'. by apply upload_file_body_requests.
    + intros Hexists. unfold upload_file_body. rewrite Hexists. cbn [negb]. emits_auto.
    + intros w' v. rewrite upload_file_body_outcome. by destruct (path_exists E local_path).
  - apply (transfer_requests "update_file" _ _ _ (path_exists E local_path)).
    + apply update_file_body_quiet.
    + intros Hexists w'. by apply update_file_body_requests.
    + intros Hexists. unfold update_file_body. rewrite Hexists. cbn [negb]. emits_auto.
    + intros w' v. rewrite update_file_body_outcome. by destruct (path_exists E local_path).
Qed.

(** X8. What [list_files] returns is the [files] entry of a dict the
    service answered to its request, or the empty list when the dict has
    no such entry; and it has a length. *)
Theorem list_files_returns_files_entry
    (q : option string) (page_size : Z) (w : World E) (v : pyval) :
  outcome (list_files q page_size w) = inr v ->
  ∃ w' d,
    (remote_exec E (list_request q page_size) w').1 = inr (PDict d)
    ∧ v = from_option id (PList []) (d !! "files")
    ∧ ∃ n, py_len v = inr n.
Proof.
  unfold list_files. intros Hv.
  destruct (decorated_returns _ _ _ (list_files_body q page_size) _ _ Hv) as (w' & Hbody).
  rewrite list_files_body_outcome in Hbody. exists w'.
  destruct (remote_exec E (list_request q page_size) w').1 as [e|resp]; [done|].
  destruct resp as [| | | | |d]; try done. exists d. cbn [py_get] in Hbody.
  destruct (py_len (from_option id (PList []) (d !! "files"))) as [e|n] eqn:Hlen; [done|].
  injection Hbody as <-. eauto.
Qed.

(** X9. When the first request is answered by a dict, [list_files]
    returns its [files] entry, or the empty list when there is none,
    after that one request and without sleeping. *)
Theorem list_files_first_answer
    (q : option string) (page_size : Z) (w w' : World E) (d : gmap string pyval) (n : Z) :
  remote_exec E (list_request q page_size) w = (inr (PDict d), w') ->
  py_len (from_option id (PList []) (d !! "files")) = inr n ->
  list_files q page_size w
  = MkRun (inr (from_option id (PList []) (d !! "files"))) w'
      [EvCall "list_files" [py_opt q; PInt page_size];
       EvAttempt "list_files" 1;
       EvLog "info" "list_files:start";
       EvRemote (list_request q page_size);
       EvLog "info" "list_files:returned";
       EvLog "debug" "retry_success"].
Proof.
  intros Hexec Hlen. unfold list_files.
  apply (decorated_first_attempt "list_files" [py_opt q; PInt page_size]
           (list_files_body q page_size) w (from_option id (PList []) (d !! "files")) w'
           [EvLog "info" "list_files:start"; EvRemote (list_request q page_size);
            EvLog "info" "list_files:returned"]).
  unfold list_files_body. fold (list_request q page_size).
  apply (request_block_returned _ _ _ _ _ w (PDict d) w'); [exact Hexec|].
  unfold bind, lift, log_event, emit, ret. cbn [py_get outcome final trace].
  rewrite Hlen. reflexivity.
Qed.

(** X10. [delete_file] returns nothing but [None]. *)
Theorem delete_file_returns_none (file_id : pyval) (w : World E) (v : pyval) :
  outcome (delete_file file_id w) = inr v -> v = PNone.
Proof.
  unfold delete_file. intros Hv.
  destruct (decorated_returns _ _ _ (delete_file_body file_id) _ _ Hv) as (w' & Hbody).
  rewrite delete_file_body_outcome in Hbody.
  destruct (remote_exec E (FilesDelete file_id) w').1; congruence.
Qed.

(** X11. What [upload_file] returns is a dict the service answered to its
    create request, and the local file exists. *)
Theorem upload_file_returns_answer
    (local_path : string) (parent_id mime_type : option string) (resumable : bool)
    (w : World E) (v : pyval) :
  outcome (upload_file local_path parent_id mime_type resumable w) = inr v ->
  path_exists E local_path = true
  ∧ ∃ w' d,
      v = PDict d
      ∧ (remote_exec E (upload_request local_path parent_id mime_type resumable) w').1 = inr v.
Proof.
  unfold upload_file. intros Hv.
  destruct (decorated_returns _ _ _
              (upload_file_body local_path parent_id mime_type resumable) _ _ Hv)
    as (w' & Hbody).
  rewrite upload_file_body_outcome in Hbody.
  destruct (path_exists E local_path); [|done]. split; [done|]. exists w'.
  destruct (remote_exec E _ w').1 as [e|resp]; [done|].
  destruct resp as [| | | | |d]; try done. exists d.
  cbn [py_get] in Hbody. by injection Hbody as <-.
Qed.

(** X12. When the service answers the create requests with something
    that is not a dict, reading the id of the answer fails inside the
    retried body: [upload_file] (of an existing file) and [create_folder]
    send their create request six times, and raise [DriveAPIError] from
    an [AttributeError]. *)
Theorem creation_repeated_after_bad_answer
    (local_path : string) (parent_id mime_type : option string) (resumable : bool)
    (name : string) (w : World E) :
  path_exists E local_path = true ->
  (∀ c w', ∃ v, (remote_exec E c w').1 = inr v ∧ ∀ d, v ≠ PDict d) ->
  let r1 := upload_file local_path parent_id mime_type resumable w in
  let r2 := create_folder name parent_id w in
  ((∃ message,
      outcome r1
      = inl (Exn DriveAPIError "Function upload_file failed after 6 attempts"
               (Some (Exn AttributeError message None))))
   ∧ List.filter is_remote (trace r1)
     = replicate 6 (EvRemote (upload_request local_path parent_id mime_type resumable)))
  ∧ ((∃ message,
        outcome r2
        = inl (Exn DriveAPIError "Function create_folder failed after 6 attempts"
                 (Some (Exn AttributeError message None))))
     ∧ List.filter is_remote (trace r2)
       = replicate 6 (EvRemote (folder_request name parent_id "id,name,parents"))).
Proof.
  intros Hexists Hbad. cbv zeta.
  assert (H1 : ∀ w', outcome (upload_file_body local_path parent_id mime_type resumable w')
                     = inl (Exn AttributeError "object has no attribute 'get'" None)).
  { intros w'. rewrite upload_file_body_outcome, Hexists.
    destruct (Hbad (upload_request local_path parent_id mime_type resumable) w')
      as (v & -> & Hv).
    by rewrite (py_get_not_dict _ _ _ Hv). }
  assert (H2 : ∀ w', outcome (create_folder_body name parent_id w')
                     = inl (Exn AttributeError "object has no attribute 'get'" None)).
  { intros w'. rewrite create_folder_body_outcome.
    destruct (Hbad (folder_request name parent_id "id,name,parents") w') as (v & -> & Hv).
    by rewrite (py_get_not_dict _ _ _ Hv). }
  split.
  - destruct (retry_default_always_fails "upload_file"
                (upload_file_body local_path parent_id mime_type resumable) w)
      as (Hatt & elast & w' & Hlast & Hout).
    { intros w'. eexists. apply H1. }
    { apply upload_file_body_quiet. }
    rewrite H1 in Hlast. injection Hlast as <-.
    destruct (decorated_requests "upload_file"
                [PStr local_path; py_opt parent_id; py_opt mime_type; PBool resumable]
                (upload_file_body local_path parent_id mime_type resumable)
                (upload_request local_path parent_id mime_type resumable) w)
      as [Hreq _].
    { apply upload_file_body_quiet. }
    { intros w''. by apply upload_file_body_requests. }
    unfold upload_file. rewrite pycall_outcome. split; [eexists; exact Hout|].
    rewrite Hreq, count_pycall by done. by rewrite Hatt.
  - destruct (retry_default_always_fails "create_folder"
                (create_folder_body name parent_id) w)
      as (Hatt & elast & w' & Hlast & Hout).
    { intros w'. eexists. apply H2. }
    { apply create_folder_body_quiet. }
    rewrite H2 in Hlast. injection Hlast as <-.
    destruct (decorated_requests "create_folder" [PStr name; py_opt parent_id]
                (create_folder_body name parent_id)
                (folder_request name parent_id "id,name,parents") w)
      as [Hreq _].
    { apply create_folder_body_quiet. }
    { intros w''. apply create_folder_body_requests. }
    unfold create_folder. rewrite pycall_outcome. split; [eexists; exact Hout|].
    rewrite Hreq, count_pycall by done. by rewrite Hatt.
Qed.

(** ** [upsert_file_by_path]: the other branches *)

Lemma pycall_log_bind_raised {A B} fn args level message (m : M A) (k : A -> M B) w e :
  outcome (m w) = inl e ->
  pycall fn args (bind (log_event level message) (λ _, bind m k)) w
  = MkRun (inl e) (final (m w))
      (EvCall fn args :: EvLog level message :: trace (m w) ++ [EvRaised fn e]).
Proof.
  intros Hm.
  set (body := bind (log_event level message) (λ _, bind m k)).
  assert (Hbody : body w = MkRun (inl e) (final (m w)) (EvLog level message :: trace (m w))).
  { unfold body, bind at 1, log_event, emit. cbn [outcome final trace].
    by rewrite (bind_raised _ _ _ _ Hm). }
  rewrite (pycall_raised _ _ _ _ e) by (by rewrite Hbody).
  by rewrite Hbody.
Qed.

Lemma bind_lift_raised {A B} (x : exn + A) (k : A -> M B) w e :
  x = inl e -> bind (lift x) k w = MkRun (inl e) w [].
Proof. by intros ->. Qed.

(** The first match and its id can be read from a non-empty list only. *)
Lemma first_match_id matches first file_id :
  py_item0 matches = inr first ->
  py_item first "id" = inr file_id ->
  ∃ rest, matches = PList (first :: rest).
Proof.
  destruct matches as [| | |s|l|d]; try done.
  - destruct s; [done|]. by intros [= <-].
  - destruct l as [|x l]; [done|]. intros [= <-] _. by exists l.
Qed.

Section UpsertBranches.
Variable local_path : string.
Variable drive_parent_id : option string.
Variable w : World E.
Variable rf : Run (World E) pyval.
Hypothesis lookup : find_file_by_name (path_name local_path) drive_parent_id w = rf.

(** The lookup fails. *)
Lemma upsert_lookup_raised conflict_policy dry_run e :
  outcome rf = inl e ->
  upsert_file_by_path local_path drive_parent_id conflict_policy dry_run w
  = MkRun (inl e) (final rf)
      (EvCall "upsert_file_by_path"
         [PStr local_path; py_opt drive_parent_id; PStr conflict_policy; PBool dry_run]
         :: EvLog "info" "upsert:start"
         :: trace rf ++ [EvRaised "upsert_file_by_path" e]).
Proof.
  intros Hrf. rewrite <- lookup in Hrf. unfold upsert_file_by_path. cbv zeta.
  rewrite (pycall_log_bind_raised _ _ _ _
             (find_file_by_name (path_name local_path) drive_parent_id) _ w e Hrf).
  by rewrite lookup.
Qed.

(** No match, no dry run: the file is uploaded. *)
Lemma upsert_create conflict_policy matches ru :
  outcome rf = inr matches ->
  py_truthy matches = false ->
  upload_file local_path drive_parent_id None true (final rf) = ru ->
  upsert_file_by_path local_path drive_parent_id conflict_policy false w
  = MkRun (outcome ru) (final ru)
      (EvCall "upsert_file_by_path"
         [PStr local_path; py_opt drive_parent_id; PStr conflict_policy; PBool false]
         :: EvLog "info" "upsert:start"
         :: trace rf ++ trace ru
         ++ match outcome ru with
            | inl e => [EvRaised "upsert_file_by_path" e]
            | inr _ => []
            end).
Proof.
  intros Hrf Hm Hru. rewrite <- lookup in Hrf. unfold upsert_file_by_path. cbv zeta.
  rewrite (pycall_log_bind _ _ _ _
             (find_file_by_name (path_name local_path) drive_parent_id) _ w matches ru Hrf).
  - rewrite lookup. reflexivity.
  - rewrite lookup. cbv beta. rewrite Hm. exact Hru.
Qed.

(** A match whose id cannot be read *)
Lemma upsert_bad_match conflict_policy dry_run matches e :
  outcome rf = inr matches ->
  py_truthy matches = true ->
  match py_item0 matches with
  | inl e' => inl e'
  | inr first => py_item first "id"
  end = inl e ->
  upsert_file_by_path local_path drive_parent_id conflict_policy dry_run w
  = MkRun (inl e) (final rf)
      (EvCall "upsert_file_by_path"
         [PStr local_path; py_opt drive_parent_id; PStr conflict_policy; PBool dry_run]
         :: EvLog "info" "upsert:start"
         :: trace rf ++ [EvRaised "upsert_file_by_path" e]).
Proof.
  intros Hrf Hm Hbad. rewrite <- lookup in Hrf. unfold upsert_file_by_path. cbv zeta.
  rewrite (pycall_log_bind _ _ _ _
             (find_file_by_name (path_name local_path) drive_parent_id) _ w matches
             (MkRun (inl e) (final rf) []) Hrf).
  - rewrite lookup. reflexivity.
  - rewrite lookup. cbv beta. rewrite Hm. cbn [negb].
    destruct (py_item0 matches) as [e'|first] eqn:Hfirst.
    + injection Hbad as ->. by rewrite (bind_lift_raised _ _ _ e).
    + rewrite (bind_lift_returned _ _ _ first) by reflexivity.
      by rewrite (bind_lift_raised _ _ _ e).
Qed.

(** A match under the [new] policy *)
Lemma upsert_new_dry_run first rest file_id :
  outcome rf = inr (PList (first :: rest)) ->
  py_item first "id" = inr file_id ->
  upsert_file_by_path local_path drive_parent_id "new" true w
  = MkRun (inr (PDict {[ "action" := PStr "create_new";
                         "name" := PStr (path_name local_path) ]}))
      (final rf)
      (EvCall "upsert_file_by_path"
         [PStr local_path; py_opt drive_parent_id; PStr "new"; PBool true]
         :: EvLog "info" "upsert:start"
         :: trace rf ++ [EvLog "info" "upsert:dry_run_create_new"]).
Proof.
  intros Hrf Hid. rewrite <- lookup in Hrf. unfold upsert_file_by_path. cbv zeta.
  rewrite (pycall_log_bind _ _ _ _
             (find_file_by_name (path_name local_path) drive_parent_id) _ w
             (PList (first :: rest))
             (MkRun (inr (PDict {[ "action" := PStr "create_new";
                                   "name" := PStr (path_name local_path) ]}))
                (final rf) [EvLog "info" "upsert:dry_run_create_new"]) Hrf).
  - rewrite lookup. reflexivity.
  - rewrite lookup. cbv beta. cbn [py_truthy negb].
    rewrite (bind_lift_returned _ _ _ first) by reflexivity.
    rewrite (bind_lift_returned _ _ _ file_id) by exact Hid.
    reflexivity.
Qed.

Lemma upsert_new_upload first rest file_id ru :
  outcome rf = inr (PList (first :: rest)) ->
  py_item first "id" = inr file_id ->
  upload_file local_path drive_parent_id None true (final rf) = ru ->
  upsert_file_by_path local_path drive_parent_id "new" false w
  = MkRun (outcome ru) (final ru)
      (EvCall "upsert_file_by_path"
         [PStr local_path; py_opt drive_parent_id; PStr "new"; PBool false]
         :: EvLog "info" "upsert:start"
         :: trace rf ++ trace ru
         ++ match outcome ru with
            | inl e => [EvRaised "upsert_file_by_path" e]
            | inr _ => []
            end).
Proof.
  intros Hrf Hid Hru. rewrite <- lookup in Hrf. unfold upsert_file_by_path. cbv zeta.
  rewrite (pycall_log_bind _ _ _ _
             (find_file_by_name (path_name local_path) drive_parent_id) _ w
             (PList (first :: rest)) ru Hrf).
  - rewrite lookup. reflexivity.
  - rewrite lookup. cbv beta. cbn [py_truthy negb].
    rewrite (bind_lift_returned _ _ _ first) by reflexivity.
    rewrite (bind_lift_returned _ _ _ file_id) by exact Hid.
    exact Hru.
Qed.
End UpsertBranches.

(** *** The mutating calls of a run *)

Lemma read_only_not_mutating_call ev : read_only ev = true -> is_mutating_call ev = false.
Proof.
  destruct ev as [f args| | | | | | |]; try reflexivity.
  exact (name_of_three_not_of_four f).
Qed.

Lemma read_only_mutating_calls t :
  forallb read_only t = true -> List.filter is_mutating_call t = [].
Proof.
  intros H. apply filter_quiet. revert H. apply forallb_impl.
  intros ev Hev. by rewrite (read_only_not_mutating_call _ Hev).
Qed.

Lemma upload_file_mutating_calls local_path parent_id mime_type resumable w :
  List.filter is_mutating_call (trace (upload_file local_path parent_id mime_type resumable w))
  = [EvCall "upload_file"
       [PStr local_path; py_opt parent_id; py_opt mime_type; PBool resumable]].
Proof.
  unfold upload_file. rewrite pycall_trace.
  cbn [List.filter is_mutating_call existsb String.eqb Ascii.eqb Bool.eqb orb]. f_equal.
  rewrite List.filter_app, filter_quiet.
  - by destruct (outcome _).
  - apply emits_retry; try done. unfold upload_file_body. emits_auto.
Qed.

Lemma update_file_mutating_calls file_id local_path mime_type w :
  List.filter is_mutating_call (trace (update_file file_id local_path mime_type w))
  = [EvCall "update_file" [file_id; PStr local_path; py_opt mime_type]].
Proof.
  unfold update_file. rewrite pycall_trace.
  cbn [List.filter is_mutating_call existsb String.eqb Ascii.eqb Bool.eqb orb]. f_equal.
  rewrite List.filter_app, filter_quiet.
  - by destruct (outcome _).
  - apply emits_retry; try done. unfold update_file_body. emits_auto.
Qed.

(** The mutating calls of a run of [upsert_file_by_path] are those of
    what follows the lookup. *)
Lemma upsert_frame_mutating_calls args trf tk (o : exn + pyval) :
  forallb read_only trf = true ->
  List.filter is_mutating_call
    (EvCall "upsert_file_by_path" args :: EvLog "info" "upsert:start"
       :: trf ++ tk ++ match o with
                       | inl e => [EvRaised "upsert_file_by_path" e]
                       | inr _ => []
                       end)
  = List.filter is_mutating_call tk.
Proof.
  intros Hro.
  cbn [List.filter is_mutating_call existsb String.eqb Ascii.eqb Bool.eqb orb].
  rewrite !List.filter_app, (read_only_mutating_calls _ Hro).
  destruct o; by rewrite app_nil_r.
Qed.

(** X13. When the lookup fails, [upsert_file_by_path] raises the
    exception of the lookup, whatever the policy and with or without dry
    run; the run is read-only. *)
Theorem upsert_lookup_failure_propagates
    (local_path : string) (drive_parent_id : option string) (conflict_policy : string)
    (dry_run : bool) (w : World E) (e : exn) (rf r : Run (World E) pyval) :
  find_file_by_name (path_name local_path) drive_parent_id w = rf ->
  outcome rf = inl e ->
  upsert_file_by_path local_path drive_parent_id conflict_policy dry_run w = r ->
  outcome r = inl e ∧ final r = final rf
  ∧ forallb read_only (trace r) = true
  ∧ forallb (λ ev, negb (mutating ev)) (trace r) = true.
Proof.
  intros Hfind Hrf Hupsert.
  rewrite (upsert_lookup_raised _ _ _ _ Hfind _ _ _ Hrf) in Hupsert. subst r.
  cbn [outcome final trace].
  pose proof (find_file_by_name_read_only (path_name local_path) drive_parent_id w) as Hro.
  rewrite Hfind in Hro.
  assert (Ht : forallb read_only
                 (EvCall "upsert_file_by_path"
                    [PStr local_path; py_opt drive_parent_id; PStr conflict_policy;
                     PBool dry_run]
                    :: EvLog "info" "upsert:start"
                    :: trace rf ++ [EvRaised "upsert_file_by_path" e]) = true).
  { cbn [forallb read_only existsb String.eqb Ascii.eqb Bool.eqb orb andb].
    rewrite forallb_app, Hro. reflexivity. }
  split; [done|]. split; [done|]. split; [exact Ht|].
  by apply forallb_read_only_not_mutating.
Qed.

(** X14. Without dry run, when the lookup finds nothing,
    [upsert_file_by_path] calls [upload_file] once, with the local path,
    the parent and the defaults, whatever the policy; its outcome is that
    of the upload, and it makes no other mutating call. *)
Theorem upsert_uploads_when_absent
    (local_path : string) (drive_parent_id : option string) (conflict_policy : string)
    (w : World E) (matches : pyval) (rf ru r : Run (World E) pyval) :
  find_file_by_name (path_name local_path) drive_parent_id w = rf ->
  outcome rf = inr matches ->
  py_truthy matches = false ->
  upload_file local_path drive_parent_id None true (final rf) = ru ->
  upsert_file_by_path local_path drive_parent_id conflict_policy false w = r ->
  outcome r = outcome ru ∧ final r = final ru
  ∧ List.filter is_mutating_call (trace r)
    = [EvCall "upload_file" [PStr local_path; py_opt drive_parent_id; PNone; PBool true]].
Proof.
  intros Hfind Hrf Hm Hupload Hupsert.
  rewrite (upsert_create _ _ _ _ Hfind _ _ _ Hrf Hm Hupload) in Hupsert. subst r.
  cbn [outcome final trace]. split; [done|]. split; [done|].
  pose proof (find_file_by_name_read_only (path_name local_path) drive_parent_id w) as Hro.
  rewrite Hfind in Hro.
  rewrite (upsert_frame_mutating_calls _ _ _ _ Hro), <- Hupload.
  apply upload_file_mutating_calls.
Qed.

(** X15. Under the [new] policy, a match whose id can be read is left
    alone: a dry run returns the action [create_new] with the file name,
    and a real run calls [upload_file] once, as for a file that is not
    there, and never [update_file]. *)
Theorem upsert_new_uploads_beside_match
    (local_path : string) (drive_parent_id : option string) (w : World E)
    (first : pyval) (rest : list pyval) (file_id : pyval)
    (rf ru : Run (World E) pyval) :
  find_file_by_name (path_name local_path) drive_parent_id w = rf ->
  outcome rf = inr (PList (first :: rest)) ->
  py_item first "id" = inr file_id ->
  upload_file local_path drive_parent_id None true (final rf) = ru ->
  (∀ r, upsert_file_by_path local_path drive_parent_id "new" true w = r ->
        outcome r = inr (PDict {[ "action" := PStr "create_new";
                                  "name" := PStr (path_name local_path) ]})
        ∧ final r = final rf
        ∧ List.filter is_mutating_call (trace r) = [])
  ∧ (∀ r, upsert_file_by_path local_path drive_parent_id "new" false w = r ->
          outcome r = outcome ru ∧ final r = final ru
          ∧ List.filter is_mutating_call (trace r)
            = [EvCall "upload_file"
                 [PStr local_path; py_opt drive_parent_id; PNone; PBool true]]).
Proof.
  intros Hfind Hrf Hid Hupload.
  pose proof (find_file_by_name_read_only (path_name local_path) drive_parent_id w) as Hro.
  rewrite Hfind in Hro.
  split; intros r Hupsert.
  - rewrite (upsert_new_dry_run _ _ _ _ Hfind _ _ _ Hrf Hid) in Hupsert. subst r.
    cbn [outcome final trace]. split; [done|]. split; [done|].
    cbn [List.filter is_mutating_call existsb String.eqb Ascii.eqb Bool.eqb orb].
    by rewrite List.filter_app, (read_only_mutating_calls _ Hro).
  - rewrite (upsert_new_upload _ _ _ _ Hfind _ _ _ _ Hrf Hid Hupload) in Hupsert. subst r.
    cbn [outcome final trace]. split; [done|]. split; [done|].
    rewrite (upsert_frame_mutating_calls _ _ _ _ Hro), <- Hupload.
    apply upload_file_mutating_calls.
Qed.

(** X16. When the lookup returns something non-empty whose first match
    or its id cannot be read, [upsert_file_by_path] raises the exception
    of the failed read under every policy, [skip] and [new] included, and
    with or without dry run; the run is read-only. *)
Theorem upsert_unreadable_match_raises
    (local_path : string) (drive_parent_id : option string) (conflict_policy : string)
    (dry_run : bool) (w : World E) (matches : pyval) (e : exn)
    (rf r : Run (World E) pyval) :
  find_file_by_name (path_name local_path) drive_parent_id w = rf ->
  outcome rf = inr matches ->
  py_truthy matches = true ->
  match py_item0 matches with
  | inl e' => inl e'
  | inr first => py_item first "id"
  end = inl e ->
  upsert_file_by_path local_path drive_parent_id conflict_policy dry_run w = r ->
  outcome r = inl e ∧ final r = final rf
  ∧ forallb read_only (trace r) = true
  ∧ forallb (λ ev, negb (mutating ev)) (trace r) = true.
Proof.
  intros Hfind Hrf Hm Hbad Hupsert.
  rewrite (upsert_bad_match _ _ _ _ Hfind _ _ _ _ Hrf Hm Hbad) in Hupsert. subst r.
  cbn [outcome final trace].
  pose proof (find_file_by_name_read_only (path_name local_path) drive_parent_id w) as Hro.
  rewrite Hfind in Hro.
  assert (Ht : forallb read_only
                 (EvCall "upsert_file_by_path"
                    [PStr local_path; py_opt drive_parent_id; PStr conflict_policy;
                     PBool dry_run]
                    :: EvLog "info" "upsert:start"
                    :: trace rf ++ [EvRaised "upsert_file_by_path" e]) = true).
  { cbn [forallb read_only existsb String.eqb Ascii.eqb Bool.eqb orb andb].
    rewrite forallb_app, Hro. reflexivity. }
  split; [done|]. split; [done|]. split; [exact Ht|].
  by apply forallb_read_only_not_mutating.
Qed.

(** X17. In every run of [upsert_file_by_path], the calls of operations
    that change the remote store are at most one: none in a dry run, and
    otherwise none, or one [upload_file] of the local path under the
    parent, or one [update_file] with the local path. [create_folder] and
    [delete_file] are never called. *)
Theorem upsert_at_most_one_mutating_call
    (local_path : string) (drive_parent_id : option string) (conflict_policy : string)
    (dry_run : bool) (w : World E) :
  let calls := List.filter is_mutating_call
                 (trace (upsert_file_by_path local_path drive_parent_id conflict_policy
                           dry_run w)) in
  if dry_run then calls = []
  else calls = []
       ∨ calls = [EvCall "upload_file"
                    [PStr local_path; py_opt drive_parent_id; PNone; PBool true]]
       ∨ ∃ file_id, calls = [EvCall "update_file" [file_id; PStr local_path; PNone]].
Proof.
  cbv zeta. destruct dry_run.
  { apply read_only_mutating_calls, upsert_dry_run_read_only. }
  pose proof (find_file_by_name_read_only (path_name local_path) drive_parent_id w) as Hro.
  pose proof (upsert_lookup_raised local_path drive_parent_id w _ eq_refl
                conflict_policy false) as Hraised.
  pose proof (upsert_create local_path drive_parent_id w _ eq_refl conflict_policy)
    as Hcreate.
  pose proof (upsert_bad_match local_path drive_parent_id w _ eq_refl conflict_policy false)
    as Hbad.
  pose proof (upsert_skip local_path drive_parent_id w _ eq_refl false) as Hskip.
  pose proof (upsert_new_upload local_path drive_parent_id w _ eq_refl) as Hnew.
  pose proof (upsert_update local_path drive_parent_id w _ eq_refl conflict_policy)
    as Hupdate.
  revert Hro Hraised Hcreate Hbad Hskip Hnew Hupdate.
  generalize (find_file_by_name (path_name local_path) drive_parent_id w).
  intros rf Hro Hraised Hcreate Hbad Hskip Hnew Hupdate.
  assert (Hfail : ∀ args e,
            List.filter is_mutating_call
              (EvCall "upsert_file_by_path" args :: EvLog "info" "upsert:start"
                 :: trace rf ++ [EvRaised "upsert_file_by_path" e]) = []).
  { intros args e.
    cbn [List.filter is_mutating_call existsb String.eqb Ascii.eqb Bool.eqb orb].
    by rewrite List.filter_app, (read_only_mutating_calls _ Hro). }
  destruct (outcome rf) as [e|matches] eqn:Hrf.
  { rewrite (Hraised e eq_refl). left. apply Hfail. }
  destruct (py_truthy matches) eqn:Hm; cycle 1.
  { rewrite (Hcreate matches _ eq_refl Hm eq_refl). cbn [trace]. right; left.
    rewrite (upsert_frame_mutating_calls _ _ _ _ Hro).
    apply upload_file_mutating_calls. }
  destruct (py_item0 matches) as [e|first] eqn:Hfirst.
  { rewrite (Hbad matches e eq_refl Hm) by (by rewrite Hfirst). left. apply Hfail. }
  destruct (py_item first "id") as [e|file_id] eqn:Hid.
  { rewrite (Hbad matches e eq_refl Hm) by (by rewrite Hfirst). left. apply Hfail. }
  destruct (first_match_id _ _ _ Hfirst Hid) as [rest ->].
  destruct (String.eqb_spec conflict_policy "skip") as [->|Hns].
  { rewrite (Hskip first rest file_id eq_refl Hid). cbn [trace]. left.
    cbn [List.filter is_mutating_call existsb String.eqb Ascii.eqb Bool.eqb orb].
    by rewrite List.filter_app, (read_only_mutating_calls _ Hro). }
  destruct (String.eqb_spec conflict_policy "new") as [->|Hnn].
  { rewrite (Hnew first rest file_id _ eq_refl Hid eq_refl). cbn [trace]. right; left.
    rewrite (upsert_frame_mutating_calls _ _ _ _ Hro).
    apply upload_file_mutating_calls. }
  rewrite (Hupdate first rest file_id _ Hns Hnn eq_refl Hid eq_refl). cbn [trace].
  right; right. exists file_id.
  rewrite (upsert_frame_mutating_calls _ _ _ _ Hro).
  apply update_file_mutating_calls.
Qed.

(** ** [sync_folder]: every run *)

Lemma emits_impl {A} (P Q : event -> bool) (m : M A) :
  (∀ ev, P ev = true -> Q ev = true) -> emits P m -> emits Q m.
Proof. intros HPQ Hm w. by apply (forallb_impl P Q), Hm. Qed.

(** The events of [sync_folder] are its own call, log records and the
    events of the calls of [upsert_file_by_path]. *)
Lemma sync_folder_emits P drive_parent_id mode filters dry_run local_dir :
  (∀ level message, P (EvLog level message) = true) ->
  (∀ args, P (EvCall "sync_folder" args) = true) ->
  (∀ e, P (EvRaised "sync_folder" e) = true) ->
  (∀ p, emits P (upsert_file_by_path p drive_parent_id "overwrite" dry_run)) ->
  emits P (sync_folder drive_parent_id mode filters dry_run local_dir).
Proof.
  intros Hlog Hcall Hraised Hupsert. unfold sync_folder.
  apply emits_pycall; [apply Hcall|apply Hraised|].
  destruct (negb _ || negb _); [apply emits_raise|].
  apply emits_bind; [by apply emits_log|]. intros _.
  apply emits_bind;
    [|intros results; apply emits_bind; [by apply emits_log|intros _; apply emits_ret]].
  generalize (@nil pyval).
  induction (sorted (path_rglob E local_dir)) as [|p ps IH]; intros results;
    cbn [sync_loop]; [apply emits_ret|].
  destruct (path_is_dir E p); [apply IH|].
  apply emits_bind.
  - unfold excluded. destruct filters; [|apply emits_ret].
    apply emits_bind; [apply emits_lift|intros keep; apply emits_ret].
  - intros [|].
    + apply emits_bind; [by apply emits_log|intros _; apply IH].
    + apply emits_bind; [|intros results'; apply IH].
      unfold sync_file. apply emits_try_except.
      * destruct (String.eqb mode "upsert").
        -- apply emits_bind; [apply Hupsert|intros res; apply emits_ret].
        -- apply emits_bind; [by apply emits_log|intros _; apply emits_ret].
      * intros e. apply emits_bind; [by apply emits_log|intros _; apply emits_ret].
Qed.

Lemma upsert_never_restructures local_path drive_parent_id conflict_policy dry_run :
  emits (λ ev, negb (restructures ev))
    (upsert_file_by_path local_path drive_parent_id conflict_policy dry_run).
Proof.
  unfold upsert_file_by_path. cbv zeta.
  unfold find_file_by_name, list_files, list_files_body, upload_file, upload_file_body,
    update_file, update_file_body.
  emits_auto.
Qed.

Lemma upsert_calls_once local_path drive_parent_id conflict_policy dry_run w :
  count (is_call "upsert_file_by_path")
    (trace (upsert_file_by_path local_path drive_parent_id conflict_policy dry_run w))
  = 1%nat.
Proof.
  unfold upsert_file_by_path. rewrite pycall_trace.
  match goal with |- context [outcome (?b w)] => set (body := b) end.
  assert (Hbody : emits (λ ev, negb (is_call "upsert_file_by_path" ev)) body).
  { subst body. cbv zeta.
    unfold find_file_by_name, list_files, list_files_body, upload_file, upload_file_body,
      update_file, update_file_body.
    emits_auto. }
  rewrite count_cons, count_app, (count_quiet _ _ (Hbody w)).
  by destruct (outcome (body w)).
Qed.

Section SyncRuns.
Variable drive_parent_id : option string.
Variable filters : option (string -> exn + bool).
Variable dry_run : bool.

Lemma excluded_run p w :
  answers filters p ->
  excluded filters p w = MkRun (inr (negb (kept filters p))) w [].
Proof.
  unfold answers, excluded, kept. destruct filters as [f|]; [|done].
  by intros [b ->].
Qed.

Lemma sync_loop_kept mode p ps results w out :
  path_is_dir E p = false ->
  answers filters p ->
  kept filters p = true ->
  outcome (sync_file drive_parent_id mode dry_run p results w) = inr out ->
  sync_loop drive_parent_id mode filters dry_run (p :: ps) results w
  = MkRun
      (outcome (sync_loop drive_parent_id mode filters dry_run ps out
                  (final (sync_file drive_parent_id mode dry_run p results w))))
      (final (sync_loop drive_parent_id mode filters dry_run ps out
                (final (sync_file drive_parent_id mode dry_run p results w))))
      (trace (sync_file drive_parent_id mode dry_run p results w)
         ++ trace (sync_loop drive_parent_id mode filters dry_run ps out
                     (final (sync_file drive_parent_id mode dry_run p results w)))).
Proof.
  intros Hdir Hans Hkept Hout. cbn [sync_loop]. rewrite Hdir.
  pose proof (excluded_run p w Hans) as Hex. rewrite Hkept in Hex. cbn [negb] in Hex.
  rewrite (bind_returned _ _ _ false) by (by rewrite Hex).
  rewrite Hex. cbn [outcome final trace app].
  rewrite (bind_returned _ _ _ out) by exact Hout.
  reflexivity.
Qed.

Lemma sync_loop_dropped mode p ps results w :
  path_is_dir E p = false ->
  answers filters p ->
  kept filters p = false ->
  sync_loop drive_parent_id mode filters dry_run (p :: ps) results w
  = MkRun (outcome (sync_loop drive_parent_id mode filters dry_run ps results w))
      (final (sync_loop drive_parent_id mode filters dry_run ps results w))
      (EvLog "info" "sync_folder:skipped_by_filter"
         :: trace (sync_loop drive_parent_id mode filters dry_run ps results w)).
Proof.
  intros Hdir Hans Hkept. cbn [sync_loop]. rewrite Hdir.
  pose proof (excluded_run p w Hans) as Hex. rewrite Hkept in Hex. cbn [negb] in Hex.
  rewrite (bind_returned _ _ _ true) by (by rewrite Hex).
  rewrite Hex. cbn [outcome final trace app].
  unfold bind at 1 2 3, log_event, emit. cbn [outcome final trace app].
  reflexivity.
Qed.

(** Under a mode other than [upsert] the loop only logs. *)
Lemma sync_loop_unknown_mode mode ps : ∀ results w,
  String.eqb mode "upsert" = false ->
  Forall (λ p, path_is_dir E p = false -> answers filters p) ps ->
  ∃ t,
    sync_loop drive_parent_id mode filters dry_run ps results w = MkRun (inr results) w t
    ∧ forallb (λ ev, match ev with EvLog _ _ => true | _ => false end) t = true
    ∧ count (is_log "warning" "sync_folder:unknown_mode") t
      = length (List.filter (kept filters) (regular_files ps)).
Proof.
  intros results w Hmode Hans.
  induction Hans as [|p ps Hp Hps IH].
  { by exists []. }
  destruct IH as (t & Hrun & Hlogs & Hcount).
  destruct (path_is_dir E p) eqn:Hdir.
  { rewrite (sync_loop_directory _ _ _ _ _ _ _ _ Hdir).
    unfold regular_files in *. cbn [List.filter]. rewrite Hdir. cbn [negb]. by exists t. }
  unfold regular_files in *. cbn [List.filter]. rewrite Hdir. cbn [negb List.filter].
  destruct (kept filters p) eqn:Hkept.
  - assert (Hfile : sync_file drive_parent_id mode dry_run p results w
                    = MkRun (inr results) w [EvLog "warning" "sync_folder:unknown_mode"]).
    { rewrite (sync_file_run _ _ _ _ _ _ _ eq_refl). by rewrite Hmode. }
    rewrite (sync_loop_kept mode p ps results w results Hdir (Hp eq_refl) Hkept)
      by (by rewrite Hfile).
    rewrite Hfile. cbn [outcome final trace]. rewrite Hrun. cbn [outcome final trace app].
    eexists. split; [reflexivity|]. split; [exact Hlogs|].
    rewrite count_cons. cbn [is_log String.eqb Ascii.eqb Bool.eqb andb length]. by rewrite Hcount.
  - rewrite (sync_loop_dropped mode p ps results w Hdir (Hp eq_refl) Hkept).
    rewrite Hrun. cbn [outcome final trace].
    eexists. split; [reflexivity|]. split; [exact Hlogs|].
    rewrite count_cons. cbn [is_log String.eqb Ascii.eqb Bool.eqb andb]. exact Hcount.
Qed.

(** What the [try] statement adds under the mode [upsert]: one record
    for the path, after one call of [upsert_file_by_path] *)
Lemma sync_file_record p results w rs :
  sync_file drive_parent_id "upsert" dry_run p results w = rs ->
  ∃ entry,
    outcome rs = inr (results ++ [entry])
    ∧ entry_path entry = Some (PStr p)
    ∧ is_success_entry entry || is_error_entry entry = true
    ∧ count (is_call "upsert_file_by_path") (trace rs) = 1%nat.
Proof.
  intros <-. rewrite (sync_file_run _ _ _ _ _ _ _ eq_refl). cbn [String.eqb Ascii.eqb Bool.eqb].
  pose proof (upsert_calls_once p drive_parent_id "overwrite" dry_run w) as Hcount.
  revert Hcount.
  generalize (upsert_file_by_path p drive_parent_id "overwrite" dry_run w). intros ru Hcount.
  destruct (outcome ru) as [exc|res]; cbn [outcome final trace]; eexists;
    (split; [reflexivity|]).
  - destruct (error_entry_kind (PStr p) (PStr (exn_repr E exc))) as [-> ->].
    split; [by vm_compute|]. split; [done|].
    rewrite count_app, Hcount. reflexivity.
  - destruct (success_entry_kind (PStr p) res) as [-> ->].
    split; [by vm_compute|]. done.
Qed.

(** The records of the loop: one per regular file that the filter
    keeps, in the order of the listing *)
Lemma sync_loop_records ps : ∀ results w rl,
  Forall (λ p, path_is_dir E p = false -> answers filters p) ps ->
  sync_loop drive_parent_id "upsert" filters dry_run ps results w = rl ->
  ∃ new,
    outcome rl = inr (results ++ new)
    ∧ map entry_path new
      = map (λ p, Some (PStr p)) (List.filter (kept filters) (regular_files ps))
    ∧ Forall (λ v, is_success_entry v || is_error_entry v = true) new
    ∧ count (is_call "upsert_file_by_path") (trace rl) = length new.
Proof.
  induction ps as [|p ps IH]; intros results w rl Hans <-.
  { exists []. cbn. by rewrite app_nil_r. }
  apply Forall_cons in Hans as [Hp Hps].
  destruct (path_is_dir E p) eqn:Hdir.
  { rewrite (sync_loop_directory _ _ _ _ _ _ _ _ Hdir).
    unfold regular_files. cbn [List.filter]. rewrite Hdir. cbn [negb].
    apply (IH results w _ Hps eq_refl). }
  unfold regular_files in *. cbn [List.filter]. rewrite Hdir. cbn [negb List.filter].
  destruct (kept filters p) eqn:Hkept.
  - destruct (sync_file_record p results w _ eq_refl) as (entry & Hout1 & Hpath & Hkind & Hc1).
    rewrite (sync_loop_kept "upsert" p ps results w _ Hdir (Hp eq_refl) Hkept Hout1).
    revert Hc1.
    generalize (trace (sync_file drive_parent_id "upsert" dry_run p results w)).
    generalize (final (sync_file drive_parent_id "upsert" dry_run p results w)).
    intros w1 t1 Hc1.
    destruct (IH (results ++ [entry]) w1 _ Hps eq_refl) as (new & Hout & Hpaths & Hkinds & Hc).
    revert Hout Hc.
    generalize (sync_loop drive_parent_id "upsert" filters dry_run ps (results ++ [entry]) w1).
    intros rl Hout Hc.
    exists (entry :: new). cbn [outcome final trace].
    split; [by rewrite Hout, <- app_assoc|].
    split; [cbn [map]; by rewrite Hpath, Hpaths|].
    split; [by constructor|].
    rewrite count_app, Hc1, Hc. reflexivity.
  - rewrite (sync_loop_dropped "upsert" p ps results w Hdir (Hp eq_refl) Hkept).
    destruct (IH results w _ Hps eq_refl) as (new & Hout & Hpaths & Hkinds & Hc).
    revert Hout Hc.
    generalize (sync_loop drive_parent_id "upsert" filters dry_run ps results w).
    intros rl Hout Hc.
    exists new. cbn [outcome final trace]. split; [exact Hout|].
    split; [exact Hpaths|]. split; [exact Hkinds|].
    rewrite count_cons. exact Hc.
Qed.

(** When the filter raises on [p], the loop has run as on the files
    before [p], and nothing follows. *)
Lemma sync_loop_aborted mode f pre p post e :
  filters = Some f ->
  path_is_dir E p = false ->
  f p = inl e ->
  Forall (λ q, path_is_dir E q = false -> answers filters q) pre ->
  ∀ results w,
    sync_loop drive_parent_id mode filters dry_run (pre ++ p :: post) results w
    = MkRun (inl e)
        (final (sync_loop drive_parent_id mode filters dry_run pre results w))
        (trace (sync_loop drive_parent_id mode filters dry_run pre results w)).
Proof.
  intros Hf Hdir Hp Hpre.
  induction Hpre as [|q pre Hq Hpre IH]; intros results w.
  - cbn [app sync_loop]. rewrite Hdir.
    assert (Hex : excluded filters p w = MkRun (inl e) w []).
    { unfold excluded. rewrite Hf, Hp. reflexivity. }
    rewrite (bind_raised _ _ _ e) by (by rewrite Hex).
    by rewrite Hex.
  - cbn [app]. destruct (path_is_dir E q) eqn:Hqdir.
    { rewrite !(sync_loop_directory _ _ _ _ _ _ _ _ Hqdir). apply IH. }
    destruct (kept filters q) eqn:Hkept.
    + destruct (sync_file_returns drive_parent_id mode dry_run q results w) as [out Hout].
      rewrite (sync_loop_kept mode q (pre ++ p :: post) results w out Hqdir (Hq eq_refl)
                 Hkept Hout).
      rewrite (sync_loop_kept mode q pre results w out Hqdir (Hq eq_refl) Hkept Hout).
      generalize (final (sync_file drive_parent_id mode dry_run q results w)).
      generalize (trace (sync_file drive_parent_id mode dry_run q results w)).
      intros t1 w1. rewrite (IH out w1). reflexivity.
    + rewrite (sync_loop_dropped mode q (pre ++ p :: post) results w Hqdir (Hq eq_refl) Hkept).
      rewrite (sync_loop_dropped mode q pre results w Hqdir (Hq eq_refl) Hkept).
      rewrite (IH results w). reflexivity.
Qed.

(** The calls of [upsert_file_by_path] of the loop: one per regular
    file that the filter keeps under the mode [upsert], none under
    another mode *)
Lemma sync_loop_calls mode ps results w :
  Forall (λ p, path_is_dir E p = false -> answers filters p) ps ->
  count (is_call "upsert_file_by_path")
    (trace (sync_loop drive_parent_id mode filters dry_run ps results w))
  = if String.eqb mode "upsert"
    then length (List.filter (kept filters) (regular_files ps))
    else 0%nat.
Proof.
  intros Hans. destruct (String.eqb_spec mode "upsert") as [->|Hmode].
  - destruct (sync_loop_records ps results w _ Hans eq_refl)
      as (new & _ & Hpaths & _ & Hcount).
    rewrite Hcount. apply (f_equal length) in Hpaths. by rewrite !length_map in Hpaths.
  - apply String.eqb_neq in Hmode.
    destruct (sync_loop_unknown_mode mode ps results w Hmode Hans) as (t & -> & Hlogs & _).
    cbn [trace]. apply count_quiet. revert Hlogs. apply forallb_impl. by intros [].
Qed.
End SyncRuns.

(** C9. The isolation of failures does not cover the filter: when the
    filter raises for a regular file [p], and did not raise for the files
    before it, the exception leaves [sync_folder] and no result is
    returned; the run is that of the files before [p] and ends there:
    [upsert_file_by_path] has been called for the regular files before
    [p] that the filter keeps, and is called neither for [p] nor for any
    file after it.  The [try] statement around [upsert_file_by_path]
    never raises, and records an exception of the upsert as an error
    record. *)
Theorem sync_folder_filter_error_aborts
    (drive_parent_id : option string) (mode : string) (f : string -> exn + bool)
    (dry_run : bool) (local_dir : string) (w : World E)
    (pre : list string) (p : string) (post : list string) (e : exn) :
  path_exists E local_dir = true ->
  path_is_dir E local_dir = true ->
  sorted (path_rglob E local_dir) = pre ++ p :: post ->
  path_is_dir E p = false ->
  f p = inl e ->
  Forall (λ q, path_is_dir E q = false -> ∃ b, f q = inr b) pre ->
  let r := sync_folder drive_parent_id mode (Some f) dry_run local_dir w in
  let before := sync_loop drive_parent_id mode (Some f) dry_run pre [] w in
  outcome r = inl e
  ∧ trace r
    = EvCall "sync_folder" [PStr local_dir; py_opt drive_parent_id; PStr mode; PBool dry_run]
        :: EvLog "info" "sync_folder:start"
        :: trace before ++ [EvRaised "sync_folder" e]
  ∧ count (is_call "upsert_file_by_path") (trace r)
    = (if String.eqb mode "upsert"
       then length (List.filter (kept (Some f)) (regular_files pre))
       else 0%nat)
  ∧ (∀ q results w',
       ∃ results', outcome (sync_file drive_parent_id mode dry_run q results w') = inr results')
  ∧ (∀ q results w' exc,
       mode = "upsert" ->
       outcome (upsert_file_by_path q drive_parent_id "overwrite" dry_run w') = inl exc ->
       outcome (sync_file drive_parent_id mode dry_run q results w')
       = inr (results ++ [PDict {[ "path" := PStr q; "error" := PStr (exn_repr E exc) ]}])).
Proof.
  intros Hexists Hdir Hsorted Hp Hraise Hpre r before.
  pose proof (sync_loop_aborted drive_parent_id (Some f) dry_run mode f pre p post e
                eq_refl Hp Hraise Hpre [] w) as Hloop.
  pose proof (sync_loop_calls drive_parent_id (Some f) dry_run mode pre [] w Hpre) as Hcalls.
  fold before in Hloop, Hcalls. rewrite <- Hsorted in Hloop.
  destruct (sync_folder_run drive_parent_id mode (Some f) dry_run local_dir w _
              Hexists Hdir Hloop) as [Hout Htrace].
  fold r in Hout, Htrace. cbn [outcome trace] in Hout, Htrace.
  split; [exact Hout|]. split; [exact Htrace|]. split; [|split].
  - rewrite Htrace, !count_cons, count_app, Hcalls. cbn. lia.
  - intros q results w'. apply sync_file_returns.
  - intros q results w' exc -> Hexc.
    rewrite (sync_file_run drive_parent_id "upsert" dry_run q results w' _ eq_refl).
    cbn [String.eqb Ascii.eqb Bool.eqb]. rewrite Hexc. reflexivity.
Qed.

(** X18. When the local directory does not exist or is not a directory,
    [sync_folder] raises [DriveAPIError] "Local dir not found" at once:
    nothing is listed, logged or requested. *)
Theorem sync_folder_missing_dir
    (drive_parent_id : option string) (mode : string)
    (filters : option (string -> exn + bool)) (dry_run : bool) (local_dir : string)
    (w : World E) :
  path_exists E local_dir = false ∨ path_is_dir E local_dir = false ->
  let e := Exn DriveAPIError ("Local dir not found: " +:+ local_dir) None in
  sync_folder drive_parent_id mode filters dry_run local_dir w
  = MkRun (inl e) w
      [EvCall "sync_folder" [PStr local_dir; py_opt drive_parent_id; PStr mode; PBool dry_run];
       EvRaised "sync_folder" e].
Proof.
  intros Hmissing e. unfold sync_folder.
  assert (Hc : negb (path_exists E local_dir) || negb (path_is_dir E local_dir) = true).
  { destruct Hmissing as [-> | ->]; [done|by rewrite orb_true_r]. }
  rewrite Hc. by rewrite (pycall_raised _ _ _ _ e).
Qed.

(** X19. A dry run of [sync_folder] changes nothing on the drive, under
    every mode and filter: no event of the run is a call or an attempt of
    [upload_file], [update_file], [create_folder] or [delete_file], or a
    create, update or delete request. *)
Theorem sync_folder_dry_run_never_mutates
    (drive_parent_id : option string) (mode : string)
    (filters : option (string -> exn + bool)) (local_dir : string) (w : World E) :
  forallb (λ ev, negb (mutating ev))
    (trace (sync_folder drive_parent_id mode filters true local_dir w)) = true.
Proof.
  apply (sync_folder_emits (λ ev, negb (mutating ev))); try done.
  intros p. apply (emits_impl read_only).
  - intros ev Hev. by rewrite (read_only_not_mutating _ Hev).
  - apply upsert_dry_run_read_only.
Qed.

(** X20. No run of [sync_folder] deletes anything or creates a folder:
    [delete_file], [create_folder] and [_ensure_parent_folder] are never
    called, and no delete request or create request without media is
    sent. The files of subdirectories are sent under the one parent. *)
Theorem sync_folder_never_restructures
    (drive_parent_id : option string) (mode : string)
    (filters : option (string -> exn + bool)) (dry_run : bool) (local_dir : string)
    (w : World E) :
  forallb (λ ev, negb (restructures ev))
    (trace (sync_folder drive_parent_id mode filters dry_run local_dir w)) = true.
Proof.
  apply (sync_folder_emits (λ ev, negb (restructures ev))); try done.
  intros p. apply upsert_never_restructures.
Qed.

(** X21. Under a mode other than [upsert], [sync_folder] of an existing
    directory returns the empty list and leaves the world as it was: it
    sends no request and calls no operation, and logs one
    [sync_folder:unknown_mode] warning per regular file that the filter
    keeps. *)
Theorem sync_folder_unknown_mode
    (drive_parent_id : option string) (mode : string)
    (filters : option (string -> exn + bool)) (dry_run : bool) (local_dir : string)
    (w : World E) :
  mode ≠ "upsert" ->
  path_exists E local_dir = true ->
  path_is_dir E local_dir = true ->
  Forall (λ p, path_is_dir E p = false -> answers filters p) (path_rglob E local_dir) ->
  let r := sync_folder drive_parent_id mode filters dry_run local_dir w in
  outcome r = inr []
  ∧ count is_remote (trace r) = 0%nat
  ∧ count (is_call "upsert_file_by_path") (trace r) = 0%nat
  ∧ count (is_log "warning" "sync_folder:unknown_mode") (trace r)
    = length (List.filter (kept filters) (regular_files (sorted (path_rglob E local_dir)))).
Proof.
  intros Hmode%String.eqb_neq Hexists Hdir Hans r.
  destruct (sync_loop_unknown_mode drive_parent_id filters dry_run mode
              (sorted (path_rglob E local_dir)) [] w Hmode)
    as (t & Hrun & Hlogs & Hcount).
  { by apply sorted_Forall. }
  destruct (sync_folder_run drive_parent_id mode filters dry_run local_dir w _
              Hexists Hdir Hrun) as [Hout Htrace].
  fold r in Hout, Htrace. rewrite Hout, Htrace. cbn [outcome trace].
  assert (Hquiet : ∀ P, (∀ l m, P (EvLog l m) = false) -> count P t = 0%nat).
  { intros P HP. apply count_quiet. revert Hlogs. apply forallb_impl.
    intros [] ?; try done. by rewrite HP. }
  split; [done|]. split; [|split].
  - rewrite !count_cons, count_app, (Hquiet is_remote) by done. reflexivity.
  - rewrite !count_cons, count_app, (Hquiet (is_call "upsert_file_by_path")) by done.
    reflexivity.
  - rewrite !count_cons, count_app, Hcount. cbn. lia.
Qed.

(** X22. Under the mode [upsert], when the filter returns on every
    regular file, [sync_folder] of an existing directory returns one
    record per regular file that the filter keeps, in the sorted order of
    the listing, each with the path of its file and either a result or an
    error; [upsert_file_by_path] is called once per record, and a file
    the filter rejects is not looked up. *)
Theorem sync_folder_records_in_order
    (drive_parent_id : option string) (filters : option (string -> exn + bool))
    (dry_run : bool) (local_dir : string) (w : World E) :
  path_exists E local_dir = true ->
  path_is_dir E local_dir = true ->
  Forall (λ p, path_is_dir E p = false -> answers filters p) (path_rglob E local_dir) ->
  let r := sync_folder drive_parent_id "upsert" filters dry_run local_dir w in
  ∃ results,
    outcome r = inr results
    ∧ map entry_path results
      = map (λ p, Some (PStr p))
          (List.filter (kept filters) (regular_files (sorted (path_rglob E local_dir))))
    ∧ Forall (λ v, is_success_entry v || is_error_entry v = true) results
    ∧ count (is_call "upsert_file_by_path") (trace r) = length results.
Proof.
  intros Hexists Hdir Hans r.
  destruct (sync_loop_records drive_parent_id filters dry_run
              (sorted (path_rglob E local_dir)) [] w _ (sorted_Forall _ _ Hans) eq_refl)
    as (results & Hout & Hpaths & Hkinds & Hcount).
  destruct (sync_folder_run drive_parent_id "upsert" filters dry_run local_dir w _
              Hexists Hdir eq_refl) as [Hout' Htrace].
  fold r in Hout', Htrace. revert Hout Hcount Hout' Htrace.
  generalize (sync_loop drive_parent_id "upsert" filters dry_run
                (sorted (path_rglob E local_dir)) [] w).
  intros rl Hout Hcount Hout' Htrace.
  exists results. rewrite Hout', Htrace, Hout. cbn [app].
  split; [done|]. split; [exact Hpaths|]. split; [exact Hkinds|].
  rewrite !count_cons, count_app, Hcount. cbn. lia.
Qed.

(** ** [_ensure_parent_folder] *)

Lemma pycall_bind {A B} fn args (m : M A) (k : A -> M B) w a rk :
  outcome (m w) = inr a ->
  k a (final (m w)) = rk ->
  pycall fn args (bind m k) w
  = MkRun (outcome rk) (final rk)
      (EvCall fn args :: trace (m w) ++ trace rk
         ++ match outcome rk with inl e => [EvRaised fn e] | inr _ => [] end).
Proof.
  intros Hm <-.
  assert (Hbody : bind m k w
                  = MkRun (outcome (k a (final (m w)))) (final (k a (final (m w))))
                      (trace (m w) ++ trace (k a (final (m w)))))
    by (by rewrite (bind_returned _ _ _ _ Hm)).
  destruct (outcome (k a (final (m w)))) as [e|b] eqn:Hk.
  - rewrite (pycall_raised _ _ _ _ e) by (by rewrite Hbody).
    rewrite Hbody. cbn [outcome final trace]. by rewrite <- app_assoc.
  - rewrite (pycall_returned _ _ _ _ b) by (by rewrite Hbody).
    rewrite Hbody. cbn [outcome final trace]. by rewrite app_nil_r.
Qed.

Lemma list_files_read_only q page_size : emits read_only (list_files q page_size).
Proof. unfold list_files, list_files_body. emits_auto. Qed.

Lemma read_only_mutating t :
  forallb read_only t = true -> List.filter mutating t = [].
Proof.
  intros H. apply filter_quiet. revert H. apply forallb_impl.
  intros ev Hev. by rewrite (read_only_not_mutating _ Hev).
Qed.

Section EnsureParentFolder.
Variable parent_id : option string.
Variable folder_name : string.
Variable w : World E.
Variable rl : Run (World E) pyval.
Hypothesis lookup : list_files (Some (folder_query parent_id folder_name)) 100 w = rl.

(** The folder is there: the id of the first match. *)
Lemma ensure_parent_folder_found first rest file_id :
  outcome rl = inr (PList (first :: rest)) ->
  py_item first "id" = inr file_id ->
  _ensure_parent_folder parent_id folder_name w
  = MkRun (inr file_id) (final rl)
      (EvCall "_ensure_parent_folder" [py_opt parent_id; PStr folder_name] :: trace rl).
Proof.
  intros Hrl Hid. rewrite <- lookup in Hrl. unfold _ensure_parent_folder. cbv zeta.
  rewrite (pycall_bind _ _ (list_files (Some (folder_query parent_id folder_name)) 100) _ w
             (PList (first :: rest)) (MkRun (inr file_id) (final rl) []) Hrl).
  - rewrite lookup. cbn [outcome final trace]. by rewrite !app_nil_r.
  - rewrite lookup. cbv beta. cbn [py_truthy].
    rewrite (bind_lift_returned _ _ _ first) by reflexivity.
    rewrite Hid. reflexivity.
Qed.

(** The folder is not there: one create request, sent as it is. *)
Lemma ensure_parent_folder_created matches :
  outcome rl = inr matches ->
  py_truthy matches = false ->
  _ensure_parent_folder parent_id folder_name w
  = let answer := remote_exec E (folder_request folder_name parent_id "id") (final rl) in
    let result := match answer.1 with
                  | inl e => inl e
                  | inr resp => py_item resp "id"
                  end in
    MkRun result answer.2
      (EvCall "_ensure_parent_folder" [py_opt parent_id; PStr folder_name]
         :: trace rl ++ [EvRemote (folder_request folder_name parent_id "id")]
         ++ match result with
            | inl e => [EvRaised "_ensure_parent_folder" e]
            | inr _ => []
            end).
Proof.
  intros Hrl Hm. rewrite <- lookup in Hrl. unfold _ensure_parent_folder. cbv zeta.
  set (c := folder_request folder_name parent_id "id").
  rewrite (pycall_bind _ _ (list_files (Some (folder_query parent_id folder_name)) 100) _ w
             matches
             (MkRun match (remote_exec E c (final rl)).1 with
                    | inl e => inl e
                    | inr resp => py_item resp "id"
                    end
                (remote_exec E c (final rl)).2 [EvRemote c]) Hrl).
  - rewrite lookup. reflexivity.
  - rewrite lookup. cbv beta. rewrite Hm.
    change (FilesCreate _ None "id") with c.
    unfold bind, remote, lift. destruct (remote_exec E c (final rl)) as [[e|resp] w'];
      cbn [outcome final trace fst snd]; [reflexivity|].
    destruct (py_item resp "id"); cbn [outcome final trace raise ret];
      by rewrite ?app_nil_r.
Qed.
End EnsureParentFolder.

(** X23. When the lookup finds folders of that name,
    [_ensure_parent_folder] returns the id of the first one and sends no
    request beyond those of the lookup: nothing is created. *)
Theorem ensure_parent_folder_returns_existing
    (parent_id : option string) (folder_name : string) (w : World E)
    (first : pyval) (rest : list pyval) (file_id : pyval) (rl r : Run (World E) pyval) :
  list_files (Some (folder_query parent_id folder_name)) 100 w = rl ->
  outcome rl = inr (PList (first :: rest)) ->
  py_item first "id" = inr file_id ->
  _ensure_parent_folder parent_id folder_name w = r ->
  outcome r = inr file_id ∧ final r = final rl
  ∧ List.filter is_remote (trace r) = List.filter is_remote (trace rl)
  ∧ forallb (λ ev, negb (mutating ev)) (trace r) = true.
Proof.
  intros Hlookup Hrl Hid Hr.
  rewrite (ensure_parent_folder_found _ _ _ _ Hlookup _ _ _ Hrl Hid) in Hr. subst r.
  cbn [outcome final trace]. split; [done|]. split; [done|]. split; [done|].
  pose proof (list_files_read_only (Some (folder_query parent_id folder_name)) 100 w) as Hro.
  rewrite Hlookup in Hro.
  cbn [forallb mutating existsb String.eqb Ascii.eqb Bool.eqb orb negb andb].
  by apply forallb_read_only_not_mutating.
Qed.

(** X24. When the lookup finds nothing, [_ensure_parent_folder] sends one
    create request for the folder (its name, the folder type, the parent
    if there is one; the field [id]), outside [create_folder] and any
    retry: an exception of the request is raised as it is, and an answer
    gives its [id], or the exception of reading it. *)
Theorem ensure_parent_folder_creates_unretried
    (parent_id : option string) (folder_name : string) (w : World E)
    (matches : pyval) (rl r : Run (World E) pyval) :
  list_files (Some (folder_query parent_id folder_name)) 100 w = rl ->
  outcome rl = inr matches ->
  py_truthy matches = false ->
  _ensure_parent_folder parent_id folder_name w = r ->
  outcome r
  = match (remote_exec E (folder_request folder_name parent_id "id") (final rl)).1 with
    | inl e => inl e
    | inr resp => py_item resp "id"
    end
  ∧ List.filter mutating (trace r) = [EvRemote (folder_request folder_name parent_id "id")]
  ∧ sleeps (trace r) = sleeps (trace rl).
Proof.
  intros Hlookup Hrl Hm Hr.
  rewrite (ensure_parent_folder_created _ _ _ _ Hlookup _ Hrl Hm) in Hr. subst r.
  cbv zeta. cbn [outcome final trace]. split; [done|].
  pose proof (list_files_read_only (Some (folder_query parent_id folder_name)) 100 w) as Hro.
  rewrite Hlookup in Hro.
  split.
  - cbn [List.filter mutating existsb String.eqb Ascii.eqb Bool.eqb orb].
    rewrite !List.filter_app, (read_only_mutating _ Hro). cbn [app List.filter mutating].
    unfold folder_request at 1. cbn [List.filter mutating]. 
    match goal with |- context [List.filter mutating (match ?o with _ => _ end)] =>
      by destruct o end.
  - change (EvCall ?f ?a :: ?t) with ([EvCall f a] ++ t).
    rewrite !sleeps_app. cbn [sleeps omap app].
    match goal with |- context [match ?o with inl _ => _ | inr _ => _ end] =>
      destruct o end; by rewrite ?app_nil_r.
Qed.

(** ** The queries *)

Lemma string_app_cons x (a b : string) : String x a +:+ b = String x (a +:+ b).
Proof. reflexivity. Qed.

Lemma string_app_assoc (a b c : string) : (a +:+ b) +:+ c = a +:+ b +:+ c.
Proof. induction a as [|x a IH]; [done|]. by rewrite !string_app_cons, IH. Qed.

Lemma string_app_length (a b : string) :
  String.length (a +:+ b) = (String.length a + String.length b)%nat.
Proof.
  induction a as [|x a IH]; [done|]. rewrite string_app_cons. cbn [String.length].
  by rewrite IH.
Qed.

Lemma string_app_inv_tail (a b s : string) : a +:+ s = b +:+ s -> a = b.
Proof.
  revert b. induction a as [|x a IH]; intros [|y b] H.
  - done.
  - apply (f_equal String.length) in H.
    rewrite (string_app_length (String y b)) in H. cbn [String.length] in H.
    change (String.length ("" +:+ s)) with (String.length s) in H. lia.
  - apply (f_equal String.length) in H.
    rewrite (string_app_length (String x a)) in H. cbn [String.length] in H.
    change (String.length ("" +:+ s)) with (String.length s) in H. lia.
  - rewrite !string_app_cons in H. injection H as -> H. by rewrite (IH _ H).
Qed.

(** An escaped name does not start with a bare quote. *)
Lemma escape_quotes_head s t : escape_quotes s ≠ String "'" t.
Proof.
  destruct s as [|c s]; [done|]. cbn [escape_quotes].
  destruct (Ascii.eqb_spec c "'"%char) as [->|Hc]; [done|].
  intros [= ? _]. done.
Qed.

Lemma escape_quotes_inj s1 : ∀ s2, escape_quotes s1 = escape_quotes s2 -> s1 = s2.
Proof.
  induction s1 as [|c1 s1 IH]; intros [|c2 s2]; cbn [escape_quotes].
  - done.
  - by destruct (Ascii.eqb c2 "'"%char).
  - by destruct (Ascii.eqb c1 "'"%char).
  - destruct (Ascii.eqb_spec c1 "'"%char) as [->|H1],
      (Ascii.eqb_spec c2 "'"%char) as [->|H2].
    + intros [= H]. by rewrite (IH _ H).
    + intros [= <- H]. symmetry in H. by destruct (escape_quotes_head _ _ H).
    + intros [= -> H]. by destruct (escape_quotes_head _ _ H).
    + intros [= -> H]. by rewrite (IH _ H).
Qed.

(** X25. Two names that differ are looked up with queries that differ,
    under the same parent: the escaping of the quotes loses nothing. *)
Theorem find_query_injective (name1 name2 : string) (parent_id : option string) :
  find_query name1 parent_id = find_query name2 parent_id -> name1 = name2.
Proof.
  unfold find_query. cbv zeta.
  assert (Hname : ∀ s, "name = '" +:+ escape_quotes name1 +:+ s
                       = "name = '" +:+ escape_quotes name2 +:+ s -> name1 = name2).
  { intros s H. apply (inj (String.append "name = '")) in H.
    by apply string_app_inv_tail, escape_quotes_inj in H. }
  destruct parent_id as [pid|]; [destruct (opt_truthy (Some pid))|];
    cbn [app String.concat]; rewrite ?string_app_assoc; apply Hname.
Qed.

(** X26. The query of [_ensure_parent_folder] is the query of
    [find_file_by_name] for the folder name and the parent, restricted to
    folders. *)
Theorem folder_query_restricts_find_query (parent_id : option string) (folder_name : string) :
  folder_query parent_id folder_name
  = find_query folder_name parent_id
      +:+ " and mimeType = 'application/vnd.google-apps.folder'".
Proof.
  unfold folder_query, find_query. cbv zeta.
  destruct parent_id as [pid|]; [destruct (opt_truthy (Some pid))|];
    cbn [app String.concat]; rewrite !string_app_assoc; reflexivity.
Qed.

(** ** The number of requests *)

Lemma sends_at_most_mono {A} n n' (m : M A) :
  (n <= n')%nat -> sends_at_most n m -> sends_at_most n' m.
Proof. intros Hn Hm w. specialize (Hm w). lia. Qed.

Lemma sends_nothing {A} (m : M A) :
  emits (λ ev, negb (is_remote ev)) m -> sends_at_most 0 m.
Proof. intros Hm w. by rewrite (count_quiet _ _ (Hm w)). Qed.

Lemma sends_at_most_bind {A B} n n' (m : M A) (k : A -> M B) :
  sends_at_most n m -> (∀ a, sends_at_most n' (k a)) -> sends_at_most (n + n') (bind m k).
Proof.
  intros Hm Hk w. rewrite bind_trace, count_app. specialize (Hm w).
  destruct (outcome (m w)) as [e|a]; [cbn; lia|].
  specialize (Hk a (final (m w))). lia.
Qed.

Lemma sends_at_most_pycall {A} n fn args (body : M A) :
  sends_at_most n body -> sends_at_most n (pycall fn args body).
Proof. intros Hb w. rewrite count_pycall by done. apply Hb. Qed.

Lemma list_files_sends_at_most q page_size : sends_at_most 6 (list_files q page_size).
Proof.
  intros w. unfold list_files.
  destruct (decorated_requests "list_files" [py_opt q; PInt page_size]
              (list_files_body q page_size) (list_request q page_size) w
              (list_files_body_quiet q page_size)
              (list_files_body_requests q page_size)) as [Hreq Hn].
  unfold count at 1. rewrite Hreq, length_replicate. lia.
Qed.

Lemma upload_file_sends_at_most local_path parent_id mime_type resumable :
  sends_at_most 6 (upload_file local_path parent_id mime_type resumable).
Proof.
  intros w. destruct (path_exists E local_path) eqn:Hexists.
  - unfold upload_file.
    destruct (decorated_requests "upload_file"
                [PStr local_path; py_opt parent_id; py_opt mime_type; PBool resumable]
                (upload_file_body local_path parent_id mime_type resumable)
                (upload_request local_path parent_id mime_type resumable) w
                (upload_file_body_quiet _ _ _ _)
                (λ w', upload_file_body_requests _ _ _ _ w' Hexists)) as [Hreq Hn].
    unfold count at 1. rewrite Hreq, length_replicate. lia.
  - apply (sends_at_most_mono 0); [lia|]. apply sends_nothing.
    unfold upload_file, upload_file_body. rewrite Hexists. cbn [negb]. emits_auto.
Qed.

Lemma update_file_sends_at_most file_id local_path mime_type :
  sends_at_most 6 (update_file file_id local_path mime_type).
Proof.
  intros w. destruct (path_exists E local_path) eqn:Hexists.
  - unfold update_file.
    destruct (decorated_requests "update_file" [file_id; PStr local_path; py_opt mime_type]
                (update_file_body file_id local_path mime_type)
                (update_request file_id local_path mime_type) w
                (update_file_body_quiet _ _ _)
                (λ w', update_file_body_requests _ _ _ w' Hexists)) as [Hreq Hn].
    unfold count at 1. rewrite Hreq, length_replicate. lia.
  - apply (sends_at_most_mono 0); [lia|]. apply sends_nothing.
    unfold update_file, update_file_body. rewrite Hexists. cbn [negb]. emits_auto.
Qed.

(** X27. One call of [upsert_file_by_path] sends at most twelve requests
    to the service, six for the lookup and six for the upload or the
    update, and at most six in a dry run. *)
Theorem upsert_request_bound
    (local_path : string) (drive_parent_id : option string) (conflict_policy : string)
    (dry_run : bool) (w : World E) :
  (count is_remote
     (trace (upsert_file_by_path local_path drive_parent_id conflict_policy dry_run w))
   <= if dry_run then 6 else 12)%nat.
Proof.
  revert w. change (sends_at_most (if dry_run then 6 else 12)%nat
                      (upsert_file_by_path local_path drive_parent_id conflict_policy dry_run)).
  unfold upsert_file_by_path. cbv zeta.
  apply sends_at_most_pycall.
  apply (sends_at_most_bind 0); [apply sends_nothing; emits_auto|]. intros _.
  replace (if dry_run then 6 else 12)%nat with (6 + (if dry_run then 0 else 6))%nat
    by (destruct dry_run; lia).
  apply sends_at_most_bind.
  { unfold find_file_by_name. apply sends_at_most_pycall, list_files_sends_at_most. }
  intros matches.
  assert (Hquiet : ∀ (m : M pyval), emits (λ ev, negb (is_remote ev)) m ->
                     sends_at_most (if dry_run then 0 else 6)%nat m).
  { intros m Hm. apply (sends_at_most_mono 0); [lia|]. by apply sends_nothing. }
  destruct (negb (py_truthy matches)).
  { destruct dry_run; [apply Hquiet; emits_auto|apply upload_file_sends_at_most]. }
  apply (sends_at_most_bind 0); [apply sends_nothing, emits_lift|]. intros first.
  apply (sends_at_most_bind 0); [apply sends_nothing, emits_lift|]. intros file_id.
  destruct (String.eqb conflict_policy "skip"); [apply Hquiet; emits_auto|].
  destruct (String.eqb conflict_policy "new").
  { destruct dry_run; [apply Hquiet; emits_auto|apply upload_file_sends_at_most]. }
  destruct dry_run; [apply Hquiet; emits_auto|apply update_file_sends_at_most].
Qed.

(** X28. What a dry run of [upsert_file_by_path] returns: without a
    match the action [create] with the file name; with a match, whose id
    is read, [skip] with the id under the policy [skip], [create_new]
    with the file name under [new], and [update] with the id under every
    other policy. *)
Theorem upsert_dry_run_result
    (local_path : string) (drive_parent_id : option string) (conflict_policy : string)
    (w : World E) (v : pyval) (rf r : Run (World E) pyval) :
  find_file_by_name (path_name local_path) drive_parent_id w = rf ->
  upsert_file_by_path local_path drive_parent_id conflict_policy true w = r ->
  outcome r = inr v ->
  final r = final rf
  ∧ ((∃ matches,
        outcome rf = inr matches ∧ py_truthy matches = false
        ∧ v = PDict {[ "action" := PStr "create"; "name" := PStr (path_name local_path) ]})
     ∨ (∃ first rest file_id,
          outcome rf = inr (PList (first :: rest)) ∧ py_item first "id" = inr file_id
          ∧ v = if String.eqb conflict_policy "skip"
                then PDict {[ "action" := PStr "skip"; "file_id" := file_id ]}
                else if String.eqb conflict_policy "new"
                then PDict {[ "action" := PStr "create_new";
                              "name" := PStr (path_name local_path) ]}
                else PDict {[ "action" := PStr "update"; "file_id" := file_id ]})).
Proof.
  intros Hfind Hupsert Hv.
  destruct (outcome rf) as [e|matches] eqn:Hrf.
  { rewrite (upsert_lookup_raised _ _ _ _ Hfind _ _ _ Hrf) in Hupsert. by subst r. }
  destruct (py_truthy matches) eqn:Hm; cycle 1.
  { rewrite (upsert_dry_run_create _ _ _ _ Hfind _ _ Hrf Hm) in Hupsert. subst r.
    cbn [outcome final] in *. injection Hv as <-. split; [done|]. left. by exists matches. }
  destruct (py_item0 matches) as [e|first] eqn:Hfirst.
  { rewrite (upsert_bad_match _ _ _ _ Hfind _ _ _ e Hrf Hm) in Hupsert
      by (by rewrite Hfirst).
    by subst r. }
  destruct (py_item first "id") as [e|file_id] eqn:Hid.
  { rewrite (upsert_bad_match _ _ _ _ Hfind _ _ _ e Hrf Hm) in Hupsert
      by (by rewrite Hfirst).
    by subst r. }
  destruct (first_match_id _ _ _ Hfirst Hid) as [rest ->].
  destruct (String.eqb_spec conflict_policy "skip") as [->|Hns].
  { rewrite (upsert_skip _ _ _ _ Hfind _ _ _ _ Hrf Hid) in Hupsert. subst r.
    cbn [outcome final] in *. injection Hv as <-. split; [done|]. right.
    by exists first, rest, file_id. }
  destruct (String.eqb_spec conflict_policy "new") as [->|Hnn].
  { rewrite (upsert_new_dry_run _ _ _ _ Hfind _ _ _ Hrf Hid) in Hupsert. subst r.
    cbn [outcome final] in *. injection Hv as <-. split; [done|]. right.
    by exists first, rest, file_id. }
  rewrite (upsert_update_dry_run _ _ _ _ Hfind _ _ _ _ Hns Hnn Hrf Hid) in Hupsert. subst r.
  cbn [outcome final] in *. injection Hv as <-. split; [done|]. right.
  by exists first, rest, file_id.
Qed.

End Drive.

(** * The properties on the fake services *)

Local Open Scope Q_scope.

(** C4 on the listing of a name whose lookup the drive refuses, under
    the default policy: six executions of the body, each with its
    request, and five sleeps. *)
Lemma retry_exhausted_after_max_attempts_witness :
  let fn := list_files_body env_three (Some "name = 'b.txt'") 100 in
  let r := retry_on_transient env_three default_policy "list_files" fn tt in
  count (is_attempt "list_files") (trace r) = Z.to_nat 6
  ∧ count is_sleep (trace r) = Z.to_nat (6 - 1)
  ∧ ∃ elast wlast,
      failed_executions env_three default_policy "list_files" fn (Z.to_nat 6) 0 tt
        (trace r) wlast elast
      ∧ outcome (fn wlast) = inl elast
      ∧ final r = final (fn wlast)
      ∧ (∃ pre,
           List.filter (retry_event "list_files") (trace r)
           = pre ++ [EvAttemptFailed "list_files" 6 elast])
      ∧ outcome r
        = inl (Exn DriveAPIError
                 ("Function " +:+ "list_files" +:+ " failed after " +:+ pretty 6%Z
                    +:+ " attempts")
                 (Some elast)).
Proof.
  apply (retry_exhausted_after_max_attempts env_three default_policy "list_files"
           (list_files_body env_three (Some "name = 'b.txt'") 100) 6%Z tt).
  - lia.
  - reflexivity.
  - vm_compute. discriminate.
  - vm_compute. discriminate.
  - vm_compute. discriminate.
  - intros []. eexists. split; vm_compute; reflexivity.
  - intros []. vm_compute. reflexivity.
Defined.

(** C5 as stated fails under [retry_on_transient(max_backoff=0.5)]: the
    draw after the first attempt is taken from [0, 1], while
    [min(1 * 2^0, 0.5)] is one half. *)
Lemma retry_backoff_schedule_counterexample :
  let t := trace (retry_on_transient env_empty capped_policy "fetch"
                    (raise env_empty (A:=pyval) http_503) tt) in
  draws t !! 0%nat = Some (0, 1, 1 # 2)
  ∧ ¬ (1 == Qmin (initial_backoff capped_policy * multiplier capped_policy ^ (1 - 1))
              (max_backoff capped_policy)).
Proof.
  split; [reflexivity|]. vm_compute. discriminate.
Qed.

(** C5 as the code has it, on the second sleep of a failing run under
    the default policy, on a machine whose products are exact. *)
Lemma retry_backoff_schedule_witness :
  let t := trace (retry_on_transient env_empty default_policy "fetch"
                    (raise env_empty (A:=pyval) http_503) tt) in
  sleeps t !! (2 - 1)%nat = Some (2 # 2)
  ∧ let backoff := backoff_after env_empty default_policy (2 - 1) in
    (2 # 2 <= max_backoff default_policy)
    ∧ (∃ r, draws t !! (2 - 1)%nat = Some (0, backoff, r)
            ∧ 2 # 2 = Qmin r (max_backoff default_policy)
            ∧ 0 <= r ∧ r <= backoff)
    ∧ backoff == Qmin (initial_backoff default_policy
                       * multiplier default_policy ^ (Z.of_nat 2 - 1))
                   (max_backoff default_policy).
Proof.
  split; [reflexivity|].
  pose proof (retry_backoff_schedule env_empty default_policy "fetch"
                (raise env_empty (A:=pyval) http_503) tt 2%nat (2 # 2)
                (λ _, eq_refl) ltac:(lia) eq_refl) as H.
  destruct H as (H1 & H2 & H3 & H4).
  split; [exact H1|]. split.
  - destruct H2 as (r & Hr & Hs & Hrange). exists r.
    split; [exact Hr|]. split; [exact Hs|].
    apply Hrange, H3; vm_compute; discriminate.
  - apply H4.
    + vm_compute. discriminate.
    + vm_compute. discriminate.
    + intros i Hi. reflexivity.
Defined.



(** C2 on three files, the lookup for the second of which always fails. *)
Lemma sync_folder_isolates_single_failure_witness :
  count (is_raised "upsert_file_by_path")
    (trace (sync_folder env_three None "upsert" None true "docs" tt)) = 1%nat
  ∧ ∃ results,
      outcome (sync_folder env_three None "upsert" None true "docs" tt) = inr results
      ∧ length results = length (regular_files env_three (path_rglob env_three "docs"))
      ∧ entries is_error_entry results = 1%nat
      ∧ entries is_success_entry results
        = (length (regular_files env_three (path_rglob env_three "docs")) - 1)%nat.
Proof.
  split; [reflexivity|].
  apply (sync_folder_isolates_single_failure env_three None "upsert" None true "docs" tt
           (sync_folder env_three None "upsert" None true "docs" tt)).
  - reflexivity.
  - reflexivity.
  - repeat constructor.
  - reflexivity.
  - reflexivity.
Defined.

(** C6 as stated fails: the dry run over [docs/report.txt] on the empty
    drive records the action [create]. *)
Lemma sync_dry_run_reports_create_counterexample :
  ∃ res,
    outcome (sync_folder env_empty None "upsert" None true "docs" tt)
    = inr [PDict {[ "path" := PStr "docs/report.txt"; "result" := res ]}]
    ∧ py_item res "action" = inr (PStr "create")
    ∧ py_item res "action" ≠ inr (PStr "dry_run_create").
Proof.
  exists (PDict {[ "action" := PStr "create"; "name" := PStr "report.txt" ]}).
  split; [vm_compute; reflexivity|]. split; [reflexivity|]. discriminate.
Qed.

Lemma sync_dry_run_reports_create_witness :
  outcome (sync_folder env_empty None "upsert" None true "docs" tt)
  = inr [PDict {[ "path" := PStr "docs/report.txt";
                  "result" := PDict {[ "action" := PStr "create";
                                       "name" := PStr (path_name "docs/report.txt") ]} ]}]
  ∧ EvLog "info" "upsert:dry_run_create"
    ∈ trace (sync_folder env_empty None "upsert" None true "docs" tt).
Proof.
  apply (sync_dry_run_reports_create env_empty None None "docs" "docs/report.txt" tt
           (find_file_by_name env_empty (path_name "docs/report.txt") None tt)
           (PList [])
           (sync_folder env_empty None "upsert" None true "docs" tt)).
  - reflexivity.
  - reflexivity.
  - reflexivity.
  - reflexivity.
  - exact I.
  - reflexivity.
  - vm_compute. reflexivity.
  - reflexivity.
  - reflexivity.
Defined.

(** C7 as stated fails: the result of the update is the metadata the
    service answers, which has no [action]. *)
Lemma upsert_overwrite_counterexample :
  outcome (upsert_file_by_path env_report "docs/report.txt" None "overwrite" false tt)
  = inr (PDict report_metadata)
  ∧ py_item (PDict report_metadata) "action" = inl (Exn KeyError "action" None)
  ∧ py_item (PDict report_metadata) "action" ≠ inr (PStr "update").
Proof.
  split; [vm_compute; reflexivity|]. split; [reflexivity|]. discriminate.
Qed.

Lemma upsert_overwrite_updates_first_match_witness :
  let request :=
    FilesUpdate (PStr "abc123") (MediaFileUpload "docs/report.txt" None true)
      "id,name,modifiedTime" in
  let rf := find_file_by_name env_report (path_name "docs/report.txt") None tt in
  let ru := update_file env_report (PStr "abc123") "docs/report.txt" None (final rf) in
  let r := upsert_file_by_path env_report "docs/report.txt" None "overwrite" false tt in
  (outcome rf = inr (PList [PDict report_metadata])
   ∧ path_exists env_report "docs/report.txt" = true
   ∧ remote_exec env_report request (final rf) = (inr (PDict report_metadata), tt))
  ∧ List.filter (is_call "update_file") (trace r)
    = [EvCall "update_file" [PStr "abc123"; PStr "docs/report.txt"; PNone]]
  ∧ count (is_call "upload_file") (trace r) = 0%nat
  ∧ outcome r = inr (PDict report_metadata)
  ∧ List.filter is_remote (trace ru) = [EvRemote request].
Proof.
  intros request rf ru r.
  assert (Hrf : outcome rf = inr (PList [PDict report_metadata]))
    by (vm_compute; reflexivity).
  destruct (upsert_overwrite_updates_first_match env_report "docs/report.txt" None tt
              (PDict report_metadata) [] (PStr "abc123") rf ru r
              eq_refl Hrf eq_refl eq_refl eq_refl)
    as (Hcalls & Huploads & _ & _ & Hsuccess).
  destruct (Hsuccess (PDict report_metadata) tt eq_refl eq_refl) as (Hout & _ & Hremote).
  repeat split; assumption || reflexivity.
Defined.

(** C8 on three calls against the drive that holds [report.txt] *)
Lemma upsert_skip_idempotent_witness :
  let r := repeat_call env_report 3
             (upsert_file_by_path env_report "docs/report.txt" None "skip" false) tt in
  outcome r
  = inr (replicate 3 (PDict {[ "action" := PStr "skip"; "file_id" := PStr "abc123" ]}))
  ∧ forallb read_only (trace r) = true
  ∧ forallb (λ ev, negb (mutating ev)) (trace r) = true.
Proof.
  apply (upsert_skip_idempotent env_report "docs/report.txt" None false (PStr "abc123")
           (λ _, True) 3 tt).
  - exact I.
  - intros [] _. split; [exact I|].
    exists (PDict report_metadata), []. split; [vm_compute; reflexivity|reflexivity].
Defined.

(** C9 on the three files, with a filter that raises on the second: the
    first file is looked up, the third is not. *)
Lemma sync_folder_filter_error_aborts_witness :
  let r := sync_folder env_three None "upsert" (Some filter_raising_on_b) true "docs" tt in
  let before := sync_loop env_three None "upsert" (Some filter_raising_on_b) true
                  ["docs/a.txt"] [] tt in
  outcome r = inl (Exn ValueError "unreadable name" None)
  ∧ trace r
    = EvCall "sync_folder" [PStr "docs"; py_opt None; PStr "upsert"; PBool true]
        :: EvLog "info" "sync_folder:start"
        :: trace before ++ [EvRaised "sync_folder" (Exn ValueError "unreadable name" None)]
  ∧ count (is_call "upsert_file_by_path") (trace r)
    = (if String.eqb "upsert" "upsert"
       then length (List.filter (kept (Some filter_raising_on_b))
                      (regular_files env_three ["docs/a.txt"]))
       else 0%nat)
  ∧ (∀ q results w',
       ∃ results', outcome (sync_file env_three None "upsert" true q results w') = inr results')
  ∧ (∀ q results w' exc,
       "upsert" = "upsert" ->
       outcome (upsert_file_by_path env_three q None "overwrite" true w') = inl exc ->
       outcome (sync_file env_three None "upsert" true q results w')
       = inr (results
              ++ [PDict {[ "path" := PStr q; "error" := PStr (exn_repr env_three exc) ]}])).
Proof.
  apply (sync_folder_filter_error_aborts env_three None "upsert" filter_raising_on_b true
           "docs" tt ["docs/a.txt"] "docs/b.txt" ["docs/c.txt"]
           (Exn ValueError "unreadable name" None)).
  - reflexivity.
  - reflexivity.
  - reflexivity.
  - reflexivity.
  - reflexivity.
  - repeat constructor. intros _. exists true. reflexivity.
Defined.

(** C10 on a misspelt policy against the drive that holds [report.txt] *)
Lemma unknown_policy_behaves_as_overwrite_witness :
  let r := upsert_file_by_path env_report "docs/report.txt" None "overwrit" false tt in
  let r' := upsert_file_by_path env_report "docs/report.txt" None "overwrite" false tt in
  (outcome r = outcome r' ∧ final r = final r' ∧ tail (trace r) = tail (trace r'))
  ∧ outcome r = inr (PDict report_metadata).
Proof.
  intros r r'.
  destruct (unknown_policy_behaves_as_overwrite env_report "docs/report.txt" None "overwrit"
              false tt r r'
              (find_file_by_name env_report (path_name "docs/report.txt") None tt)
              ltac:(discriminate) ltac:(discriminate) eq_refl eq_refl eq_refl)
    as [Hsame Hmatch].
  split; [exact Hsame|].
  destruct (Hmatch (PDict report_metadata) [] (PStr "abc123")
              (update_file env_report (PStr "abc123") "docs/report.txt" None tt)
              ltac:(vm_compute; reflexivity) eq_refl eq_refl) as [Hout _].
  rewrite Hout. vm_compute. reflexivity.
Defined.


(** ** Further properties on the fake services *)

(** X1 on the body of [list_files] over the empty drive. *)
Lemma retry_attempts_bounded_witness :
  let t := trace (retry_on_transient env_empty default_policy "list_files"
                    (list_files_body env_empty None 100) tt) in
  (count (is_attempt "list_files") t <= Z.to_nat (max_attempts default_policy))%nat
  ∧ ((1 <= max_attempts default_policy)%Z ->
     (1 <= count (is_attempt "list_files") t)%nat
     ∧ (length (sleeps t) < count (is_attempt "list_files") t)%nat)
  ∧ Forall (λ s, (s <= max_backoff default_policy)%Q) (sleeps t).
Proof.
  apply (retry_attempts_bounded env_empty default_policy "list_files"
           (list_files_body env_empty None 100) tt).
  intros []. vm_compute. reflexivity.
Defined.

(** X2 on a service that is down for the first two requests: the third
    attempt of the listing returns the files. *)
Lemma retry_recovers_after_failures_witness :
  let fn := list_files_body env_flaky None 100 in
  let r := retry_on_transient env_flaky default_policy "list_files" fn 2%nat in
  ∃ w' a,
    w' = 0%nat ∧ outcome (fn w') = inr a
    ∧ outcome r = inr a ∧ final r = final (fn w')
    ∧ count (is_attempt "list_files") (trace r) = 3%nat
    ∧ length (sleeps (trace r)) = 2%nat.
Proof.
  apply (retry_recovers_after_failures env_flaky default_policy "list_files"
           (list_files_body env_flaky None 100) (λ w, w) 2%nat).
  - intros w. destruct w; vm_compute; reflexivity.
  - intros w n ->. eexists. vm_compute. repeat split.
  - intros w ->. eexists. vm_compute. reflexivity.
  - intros w. reflexivity.
  - intros s w. reflexivity.
  - vm_compute. discriminate.
  - vm_compute. discriminate.
  - vm_compute. discriminate.
  - vm_compute. reflexivity.
Defined.

(** X3 on [retry_on_transient(max_attempts=0)]. *)
Lemma retry_without_attempts_witness :
  let policy := {| max_attempts := 0; initial_backoff := 1; multiplier := 2;
                   max_backoff := 60; jitter := true; retry_on_exceptions := λ _, true |} in
  retry_on_transient env_empty policy "fetch" (ret env_empty (PInt 1)) tt
  = MkRun (inl (Exn DriveAPIError ("Function " +:+ "fetch" +:+ " failed after 0 attempts") None))
      tt [].
Proof.
  apply (retry_without_attempts env_empty
           {| max_attempts := 0; initial_backoff := 1; multiplier := 2;
              max_backoff := 60; jitter := true; retry_on_exceptions := λ _, true |}
           "fetch" (ret env_empty (PInt 1)) tt).
  simpl. lia.
Defined.

(** X4 on [retry_on_transient(retry_on_exceptions=(DriveAPIError,))] around
    a body that raises [ValueError]. *)
Lemma retry_unmatched_exception_propagates_witness :
  let e := Exn ValueError "bad id" None in
  let fn := raise env_empty (A:=pyval) e in
  retry_on_transient env_empty narrow_policy "fetch" fn tt
  = MkRun (inl e) (final (fn tt))
      (EvAttempt "fetch" 1 :: trace (fn tt) ++ [EvAttemptFailed "fetch" 1 e]).
Proof.
  apply (retry_unmatched_exception_propagates env_empty narrow_policy "fetch"
           (raise env_empty (A:=pyval) (Exn ValueError "bad id" None)) tt
           (Exn ValueError "bad id" None)).
  - simpl. lia.
  - reflexivity.
  - reflexivity.
Defined.

(** X5 on [retry_on_transient(max_backoff=-1, jitter=False)]. *)
Lemma retry_negative_backoff_raises_witness :
  let r := retry_on_transient env_empty negative_policy "fetch"
             (raise env_empty (A:=pyval) http_503) tt in
  outcome r = inl (Exn ValueError "sleep length must be non-negative" None)
  ∧ count (is_attempt "fetch") (trace r) = 1%nat
  ∧ sleeps (trace r) = [].
Proof.
  apply (retry_negative_backoff_raises env_empty negative_policy "fetch"
           (raise env_empty (A:=pyval) http_503) tt http_503).
  - intros w. reflexivity.
  - simpl. lia.
  - reflexivity.
  - reflexivity.
  - reflexivity.
Defined.

(** X8 on the empty drive. *)
Lemma list_files_returns_files_entry_witness :
  ∃ w' d,
    (remote_exec env_empty (list_request None 100) w').1 = inr (PDict d)
    ∧ PList [] = from_option id (PList []) (d !! "files")
    ∧ ∃ n, py_len (PList []) = inr n.
Proof.
  apply (list_files_returns_files_entry env_empty None 100 tt (PList [])).
  vm_compute. reflexivity.
Defined.

(** X9 on the empty drive. *)
Lemma list_files_first_answer_witness :
  let d : gmap string pyval := {[ "files" := PList [] ]} in
  list_files env_empty None 100 tt
  = MkRun (inr (from_option id (PList []) (d !! "files"))) tt
      [EvCall "list_files" [py_opt None; PInt 100];
       EvAttempt "list_files" 1;
       EvLog "info" "list_files:start";
       EvRemote (list_request None 100);
       EvLog "info" "list_files:returned";
       EvLog "debug" "retry_success"].
Proof.
  apply (list_files_first_answer env_empty None 100 tt tt {[ "files" := PList [] ]} 0).
  - reflexivity.
  - vm_compute. reflexivity.
Defined.

(** X10 on the drive that accepts everything. *)
Lemma delete_file_returns_none_witness :
  outcome (delete_file env_accepting (PStr "f1") tt) = inr PNone ∧ PNone = PNone.
Proof.
  split; [vm_compute; reflexivity|].
  apply (delete_file_returns_none env_accepting (PStr "f1") tt PNone).
  vm_compute. reflexivity.
Defined.

(** X11 on the drive that accepts everything. *)
Lemma upload_file_returns_answer_witness :
  let v := PDict (<[ "id" := PStr "f1" ]> {[ "name" := PStr "report.txt" ]}) in
  path_exists env_accepting "docs/report.txt" = true
  ∧ ∃ w' d,
      v = PDict d
      ∧ (remote_exec env_accepting (upload_request "docs/report.txt" None None true) w').1
        = inr v.
Proof.
  apply (upload_file_returns_answer env_accepting "docs/report.txt" None None true tt
           (PDict (<[ "id" := PStr "f1" ]> {[ "name" := PStr "report.txt" ]}))).
  vm_compute. reflexivity.
Defined.

(** X12 on the drive whose answers are [None]. *)
Lemma creation_repeated_after_bad_answer_witness :
  let r1 := upload_file env_none "docs/report.txt" None None true tt in
  let r2 := create_folder env_none "backup" None tt in
  ((∃ message,
      outcome r1
      = inl (Exn DriveAPIError "Function upload_file failed after 6 attempts"
               (Some (Exn AttributeError message None))))
   ∧ List.filter is_remote (trace r1)
     = replicate 6 (EvRemote (upload_request "docs/report.txt" None None true)))
  ∧ ((∃ message,
        outcome r2
        = inl (Exn DriveAPIError "Function create_folder failed after 6 attempts"
                 (Some (Exn AttributeError message None))))
     ∧ List.filter is_remote (trace r2)
       = replicate 6 (EvRemote (folder_request "backup" None "id,name,parents"))).
Proof.
  apply (creation_repeated_after_bad_answer env_none "docs/report.txt" None None true
           "backup" tt).
  - reflexivity.
  - intros c w'. exists PNone. split; [reflexivity|discriminate].
Defined.

(** X13 on the drive whose lookup of [b.txt] fails. *)
Lemma upsert_lookup_failure_propagates_witness :
  let e := Exn DriveAPIError "Function list_files failed after 6 attempts"
             (Some (Exn (OtherError "HttpError") "500" None)) in
  let rf := find_file_by_name env_three (path_name "docs/b.txt") None tt in
  let r := upsert_file_by_path env_three "docs/b.txt" None "skip" false tt in
  outcome r = inl e ∧ final r = final rf
  ∧ forallb read_only (trace r) = true
  ∧ forallb (λ ev, negb (mutating ev)) (trace r) = true.
Proof.
  apply (upsert_lookup_failure_propagates env_three "docs/b.txt" None "skip" false tt
           (Exn DriveAPIError "Function list_files failed after 6 attempts"
              (Some (Exn (OtherError "HttpError") "500" None)))
           (find_file_by_name env_three (path_name "docs/b.txt") None tt)
           (upsert_file_by_path env_three "docs/b.txt" None "skip" false tt)).
  - reflexivity.
  - vm_compute. reflexivity.
  - reflexivity.
Defined.

(** X14 on the drive without files, under the [skip] policy. *)
Lemma upsert_uploads_when_absent_witness :
  let rf := find_file_by_name env_accepting (path_name "docs/report.txt") (Some "root") tt in
  let ru := upload_file env_accepting "docs/report.txt" (Some "root") None true (final rf) in
  let r := upsert_file_by_path env_accepting "docs/report.txt" (Some "root") "skip" false tt in
  outcome r = outcome ru ∧ final r = final ru
  ∧ List.filter is_mutating_call (trace r)
    = [EvCall "upload_file" [PStr "docs/report.txt"; py_opt (Some "root"); PNone; PBool true]].
Proof.
  apply (upsert_uploads_when_absent env_accepting "docs/report.txt" (Some "root") "skip" tt
           (PList [])
           (find_file_by_name env_accepting (path_name "docs/report.txt") (Some "root") tt)
           (upload_file env_accepting "docs/report.txt" (Some "root") None true
              (final (find_file_by_name env_accepting (path_name "docs/report.txt")
                        (Some "root") tt)))
           (upsert_file_by_path env_accepting "docs/report.txt" (Some "root") "skip" false tt)).
  - reflexivity.
  - vm_compute. reflexivity.
  - reflexivity.
  - reflexivity.
  - reflexivity.
Defined.

(** X15 on the drive that holds [report.txt]. *)
Lemma upsert_new_uploads_beside_match_witness :
  let rf := find_file_by_name env_report (path_name "docs/report.txt") None tt in
  let ru := upload_file env_report "docs/report.txt" None None true (final rf) in
  (∀ r, upsert_file_by_path env_report "docs/report.txt" None "new" true tt = r ->
        outcome r = inr (PDict {[ "action" := PStr "create_new";
                                  "name" := PStr (path_name "docs/report.txt") ]})
        ∧ final r = final rf
        ∧ List.filter is_mutating_call (trace r) = [])
  ∧ (∀ r, upsert_file_by_path env_report "docs/report.txt" None "new" false tt = r ->
          outcome r = outcome ru ∧ final r = final ru
          ∧ List.filter is_mutating_call (trace r)
            = [EvCall "upload_file" [PStr "docs/report.txt"; py_opt None; PNone; PBool true]]).
Proof.
  apply (upsert_new_uploads_beside_match env_report "docs/report.txt" None tt
           (PDict report_metadata) [] (PStr "abc123")
           (find_file_by_name env_report (path_name "docs/report.txt") None tt)
           (upload_file env_report "docs/report.txt" None None true
              (final (find_file_by_name env_report (path_name "docs/report.txt") None tt)))).
  - reflexivity.
  - vm_compute. reflexivity.
  - vm_compute. reflexivity.
  - reflexivity.
Defined.

(** X16 on the drive whose matches have no id, under the [new] policy
    and in a dry run. *)
Lemma upsert_unreadable_match_raises_witness :
  let rf := find_file_by_name env_without_ids (path_name "docs/report.txt") None tt in
  let r := upsert_file_by_path env_without_ids "docs/report.txt" None "new" true tt in
  outcome r = inl (Exn KeyError "id" None) ∧ final r = final rf
  ∧ forallb read_only (trace r) = true
  ∧ forallb (λ ev, negb (mutating ev)) (trace r) = true.
Proof.
  apply (upsert_unreadable_match_raises env_without_ids "docs/report.txt" None "new" true tt
           (PList [PDict {[ "name" := PStr "report.txt" ]}]) (Exn KeyError "id" None)
           (find_file_by_name env_without_ids (path_name "docs/report.txt") None tt)
           (upsert_file_by_path env_without_ids "docs/report.txt" None "new" true tt)).
  - reflexivity.
  - vm_compute. reflexivity.
  - reflexivity.
  - vm_compute. reflexivity.
  - reflexivity.
Defined.

(** X18 on a path that is a file. *)
Lemma sync_folder_missing_dir_witness :
  let e := Exn DriveAPIError ("Local dir not found: " +:+ "docs/report.txt") None in
  sync_folder env_empty None "upsert" None false "docs/report.txt" tt
  = MkRun (inl e) tt
      [EvCall "sync_folder" [PStr "docs/report.txt"; py_opt None; PStr "upsert"; PBool false];
       EvRaised "sync_folder" e].
Proof.
  apply (sync_folder_missing_dir env_empty None "upsert" None false "docs/report.txt" tt).
  right. reflexivity.
Defined.

(** X21 on the tree with a subdirectory, under the mode [mirror]. *)
Lemma sync_folder_unknown_mode_witness :
  let r := sync_folder env_tree None "mirror" None false "docs" tt in
  outcome r = inr []
  ∧ count is_remote (trace r) = 0%nat
  ∧ count (is_call "upsert_file_by_path") (trace r) = 0%nat
  ∧ count (is_log "warning" "sync_folder:unknown_mode") (trace r)
    = length (List.filter (kept None)
                (regular_files env_tree (sorted (path_rglob env_tree "docs")))).
Proof.
  apply (sync_folder_unknown_mode env_tree None "mirror" None false "docs" tt).
  - discriminate.
  - reflexivity.
  - reflexivity.
  - simpl. repeat (constructor; [intros _; exact I|]). constructor.
Defined.

(** X22 on the tree with a subdirectory, with a filter that rejects the
    file of the subdirectory. *)
Lemma sync_folder_records_in_order_witness :
  let filters := Some (λ p : string, inr (negb (String.eqb p "docs/sub/x.txt")) : exn + bool) in
  let r := sync_folder env_tree None "upsert" filters true "docs" tt in
  ∃ results,
    outcome r = inr results
    ∧ map entry_path results
      = map (λ p, Some (PStr p))
          (List.filter (kept filters)
             (regular_files env_tree (sorted (path_rglob env_tree "docs"))))
    ∧ Forall (λ v, is_success_entry v || is_error_entry v = true) results
    ∧ count (is_call "upsert_file_by_path") (trace r) = length results.
Proof.
  apply (sync_folder_records_in_order env_tree None
           (Some (λ p : string, inr (negb (String.eqb p "docs/sub/x.txt")) : exn + bool))
           true "docs" tt).
  - reflexivity.
  - reflexivity.
  - simpl. repeat (constructor; [intros _; eexists; reflexivity|]). constructor.
Defined.

(** X23 on the drive whose listings hold one entry. *)
Lemma ensure_parent_folder_returns_existing_witness :
  let rl := list_files env_report (Some (folder_query None "backup")) 100 tt in
  let r := _ensure_parent_folder env_report None "backup" tt in
  outcome r = inr (PStr "abc123") ∧ final r = final rl
  ∧ List.filter is_remote (trace r) = List.filter is_remote (trace rl)
  ∧ forallb (λ ev, negb (mutating ev)) (trace r) = true.
Proof.
  apply (ensure_parent_folder_returns_existing env_report None "backup" tt
           (PDict report_metadata) [] (PStr "abc123")
           (list_files env_report (Some (folder_query None "backup")) 100 tt)
           (_ensure_parent_folder env_report None "backup" tt)).
  - reflexivity.
  - vm_compute. reflexivity.
  - vm_compute. reflexivity.
  - reflexivity.
Defined.

(** X24 on the drive without files, which accepts the folder. *)
Lemma ensure_parent_folder_creates_unretried_witness :
  let rl := list_files env_accepting (Some (folder_query (Some "root") "backup")) 100 tt in
  let r := _ensure_parent_folder env_accepting (Some "root") "backup" tt in
  outcome r
  = match (remote_exec env_accepting (folder_request "backup" (Some "root") "id")
             (final rl)).1 with
    | inl e => inl e
    | inr resp => py_item resp "id"
    end
  ∧ List.filter mutating (trace r) = [EvRemote (folder_request "backup" (Some "root") "id")]
  ∧ sleeps (trace r) = sleeps (trace rl).
Proof.
  apply (ensure_parent_folder_creates_unretried env_accepting (Some "root") "backup" tt
           (PList [])
           (list_files env_accepting (Some (folder_query (Some "root") "backup")) 100 tt)
           (_ensure_parent_folder env_accepting (Some "root") "backup" tt)).
  - reflexivity.
  - vm_compute. reflexivity.
  - reflexivity.
  - reflexivity.
Defined.

(** X25 on a name with a quote. *)
Lemma find_query_injective_witness : "it's.txt" = "it's.txt".
Proof.
  apply (find_query_injective "it's.txt" "it's.txt" (Some "root")).
  reflexivity.
Defined.

(** X28 on the drive that holds [report.txt], under the [new] policy. *)
Lemma upsert_dry_run_result_witness :
  let rf := find_file_by_name env_report (path_name "docs/report.txt") None tt in
  let r := upsert_file_by_path env_report "docs/report.txt" None "new" true tt in
  let v := PDict {[ "action" := PStr "create_new"; "name" := PStr "report.txt" ]} in
  final r = final rf
  ∧ ((∃ matches,
        outcome rf = inr matches ∧ py_truthy matches = false
        ∧ v = PDict {[ "action" := PStr "create";
                       "name" := PStr (path_name "docs/report.txt") ]})
     ∨ (∃ first rest file_id,
          outcome rf = inr (PList (first :: rest)) ∧ py_item first "id" = inr file_id
          ∧ v = if String.eqb "new" "skip"
                then PDict {[ "action" := PStr "skip"; "file_id" := file_id ]}
                else if String.eqb "new" "new"
                then PDict {[ "action" := PStr "create_new";
                              "name" := PStr (path_name "docs/report.txt") ]}
                else PDict {[ "action" := PStr "update"; "file_id" := file_id ]})).
Proof.
  apply (upsert_dry_run_result env_report "docs/report.txt" None "new" tt
           (PDict {[ "action" := PStr "create_new"; "name" := PStr "report.txt" ]})
           (find_file_by_name env_report (path_name "docs/report.txt") None tt)
           (upsert_file_by_path env_report "docs/report.txt" None "new" true tt)).
  - reflexivity.
  - reflexivity.
  - vm_compute. reflexivity.
Defined.
